(** * Transform controls of the scene editor

    A shallow embedding of [TransformControls] and of the base
    [TransformGizmo]: the selection ([attach], [clear]), the gizmo switch
    ([setMode]), the pose ([updatePose]), the pointer handlers
    ([onPointerHover], [onPointerDown], [onPointerMove], [onPointerUp])
    and the frame that drives them ([update]); and of the layout of the
    side bar of the scene editor ([SideBar.updateSize]).

    Scene objects are shared JavaScript objects: they live in a store
    indexed by references, and the controls hold references.  Numbers are
    kept behind an interface, so that what is proved of the handlers holds
    for every arithmetic, the IEEE one of JavaScript included; the few
    statements that need algebraic laws assume them explicitly.  The
    functions of the 3D library whose code is not part of the editor are
    taken through a second interface. *)

From Stdlib Require Import ZArith QArith Qcanon Qround Lia List.
From stdpp Require Import base list strings numbers functions.

Local Open Scope string_scope.
Local Open Scope list_scope.
Local Open Scope nat_scope.

(** ** Numbers *)

(** The arithmetic the handlers use on JavaScript numbers: literals, the
    four operations, the unary minus and [Math.round]. *)
Class JsNumber := {
  num : Type;
  lit : Z → num;
  nadd : num → num → num;
  nsub : num → num → num;
  nmul : num → num → num;
  ndiv : num → num → num;
  nneg : num → num;
  nround : num → num
}.

Declare Scope num_scope.
Delimit Scope num_scope with num.
Infix "⊕" := nadd (at level 50, left associativity) : num_scope.
Infix "⊖" := nsub (at level 50, left associativity) : num_scope.
Infix "⊗" := nmul (at level 40, left associativity) : num_scope.
Infix "⊘" := ndiv (at level 40, left associativity) : num_scope.
Local Open Scope num_scope.

(** ** Vectors, matrices and quaternions of the 3D library *)

Section Algebra.
Context {N : JsNumber}.

Record Vector3 := vec3 { vx : num; vy : num; vz : num }.

Record Quaternion := quat { qx : num; qy : num; qz : num; qw : num }.

(** [elements] of a [THREE.Matrix4], in its column-major order. *)
Record Matrix4 := mat4 {
  e0 : num; e1 : num; e2 : num; e3 : num;
  e4 : num; e5 : num; e6 : num; e7 : num;
  e8 : num; e9 : num; e10 : num; e11 : num;
  e12 : num; e13 : num; e14 : num; e15 : num
}.

(** [new THREE.Vector3()] *)
Definition v_zero : Vector3 := vec3 (lit 0) (lit 0) (lit 0).

(** [new THREE.Quaternion()] *)
Definition q_identity : Quaternion := quat (lit 0) (lit 0) (lit 0) (lit 1).

(** [new THREE.Matrix4()] *)
Definition m_identity : Matrix4 :=
  mat4 (lit 1) (lit 0) (lit 0) (lit 0)
       (lit 0) (lit 1) (lit 0) (lit 0)
       (lit 0) (lit 0) (lit 1) (lit 0)
       (lit 0) (lit 0) (lit 0) (lit 1).

(** [a.add(b)], [a.sub(b)], [a.multiply(b)]: component by component. *)
Definition v_add (a b : Vector3) : Vector3 :=
  vec3 (vx a ⊕ vx b) (vy a ⊕ vy b) (vz a ⊕ vz b).

Definition v_sub (a b : Vector3) : Vector3 :=
  vec3 (vx a ⊖ vx b) (vy a ⊖ vy b) (vz a ⊖ vz b).

Definition v_multiply (a b : Vector3) : Vector3 :=
  vec3 (vx a ⊗ vx b) (vy a ⊗ vy b) (vz a ⊗ vz b).

(** [a.multiplyScalar(s)] *)
Definition v_multiplyScalar (a : Vector3) (s : num) : Vector3 :=
  vec3 (vx a ⊗ s) (vy a ⊗ s) (vz a ⊗ s).

Definition set_vx (x : num) (a : Vector3) : Vector3 := vec3 x (vy a) (vz a).
Definition set_vy (y : num) (a : Vector3) : Vector3 := vec3 (vx a) y (vz a).
Definition set_vz (z : num) (a : Vector3) : Vector3 := vec3 (vx a) (vy a) z.

(** [v.applyMatrix4(m)]: the vector as a point, with the perspective
    divide. *)
Definition v_applyMatrix4 (v : Vector3) (m : Matrix4) : Vector3 :=
  let x := vx v in
  let y := vy v in
  let z := vz v in
  let w := lit 1 ⊘ (e3 m ⊗ x ⊕ e7 m ⊗ y ⊕ e11 m ⊗ z ⊕ e15 m) in
  vec3 ((e0 m ⊗ x ⊕ e4 m ⊗ y ⊕ e8 m ⊗ z ⊕ e12 m) ⊗ w)
       ((e1 m ⊗ x ⊕ e5 m ⊗ y ⊕ e9 m ⊗ z ⊕ e13 m) ⊗ w)
       ((e2 m ⊗ x ⊕ e6 m ⊗ y ⊕ e10 m ⊗ z ⊕ e14 m) ⊗ w).

(** [v.setFromMatrixPosition(m)] *)
Definition v_setFromMatrixPosition (m : Matrix4) : Vector3 :=
  vec3 (e12 m) (e13 m) (e14 m).

End Algebra.

(** The functions of the 3D library used by the controls whose results the
    editor takes as given: rotations and their conversions, inverses,
    lengths and angles.  [Euler] values are only ever passed on, never
    taken apart. *)
Class Library {N : JsNumber} := {
  Euler : Type;
  euler_new : Euler;
  euler_setFromRotationMatrix : Matrix4 → Euler;
  m_extractRotation : Matrix4 → Matrix4;
  m_getInverse : Matrix4 → Matrix4;
  v_setFromMatrixScale : Matrix4 → Vector3;
  v_divideScalar : Vector3 → num → Vector3;
  v_distanceTo : Vector3 → Vector3 → num;
  v_normalize : Vector3 → Vector3;
  v_cross : Vector3 → Vector3 → Vector3;
  v_angleTo : Vector3 → Vector3 → num;
  math_atan2 : num → num → num;
  q_setFromRotationMatrix : Matrix4 → Quaternion;
  q_setFromAxisAngle : Vector3 → num → Quaternion;
  q_setFromEuler : Vector3 → Quaternion;
  q_multiplyQuaternions : Quaternion → Quaternion → Quaternion
}.

(** ** The data model *)

(** A reference to a scene object. *)
Abbreviation ref := nat (only parsing).

(** [TransformControls.LOCAL] and [TransformControls.WORLD] *)
Inductive Space := LOCAL | WORLD.

Global Instance Space_eq_dec : EqDecision Space := ltac:(solve_decision).

(** [TransformControls.NONE], [TRANSLATE], [ROTATE] and [SCALE]: the mode is
    the string itself, and [setMode] accepts any string. *)
Definition NONE : string := "none".
Definition TRANSLATE : string := "translate".
Definition ROTATE : string := "rotate".
Definition SCALE : string := "scale".

(** [s.search(pat) !== -1] for a pattern without special characters. *)
Definition found (pat s : string) : bool :=
  match String.index 0 pat s with
  | Some _ => true
  | None => false
  end.

(** The gizmo in use: the base [TransformGizmo] or one of the three gizmos
    that extend it. *)
Inductive GizmoKind := GizmoBase | GizmoTranslate | GizmoRotate | GizmoScale.

(** What the gizmos that extend [TransformGizmo] add to it: the names of
    their handles and pickers ([handleGizmos], [pickerGizmos]), their choice
    of the active plane, and whether they define [dismiss]. *)
Class GizmoTables {N : JsNumber} := {
  handleGizmos : GizmoKind → list string;
  pickerGizmos : GizmoKind → list string;
  chooseActivePlane : GizmoKind → string → Vector3 → string → string;
  hasDismiss : GizmoKind → bool
}.

Inductive GizmoEvent :=
  | Constructed (k : GizmoKind) (id : nat)
  | Dismissed (id : nat).

Section DataModel.
Context {N : JsNumber} {L : Library} {G : GizmoTables}.

(** A collision shape of a physics body. *)
Inductive ShapeType := BOX | SPHERE | OTHER_SHAPE.

Record Shape := mkShape {
  stype : ShapeType;
  halfExtents : Vector3;
  radius : num
}.

(** A scene object, as far as the controls read and write it.  [parent] is
    [None] for [null]; [body] holds the shapes of the physics body of a
    [PhysicsObject] and is [None] for every other object. *)
Record Object3D := mkObject3D {
  isObject3D : bool;
  locked : bool;
  parent : option ref;
  position : Vector3;
  scale : Vector3;
  quaternion : Quaternion;
  matrix : Matrix4;
  matrixWorld : Matrix4;
  body : option (list Shape)
}.

Definition set_position (v : Vector3) (r : Object3D) : Object3D :=
  mkObject3D (isObject3D r) (locked r) (parent r) v (scale r) (quaternion r)
    (matrix r) (matrixWorld r) (body r).

Definition set_scale (v : Vector3) (r : Object3D) : Object3D :=
  mkObject3D (isObject3D r) (locked r) (parent r) (position r) v
    (quaternion r) (matrix r) (matrixWorld r) (body r).

Definition set_quaternion (v : Quaternion) (r : Object3D) : Object3D :=
  mkObject3D (isObject3D r) (locked r) (parent r) (position r) (scale r) v
    (matrix r) (matrixWorld r) (body r).

Definition set_body (v : option (list Shape)) (r : Object3D) : Object3D :=
  mkObject3D (isObject3D r) (locked r) (parent r) (position r) (scale r)
    (quaternion r) (matrix r) (matrixWorld r) v.

Record TransformControlAtttributes := mkAttributes {
  parentRotationMatrix : Matrix4;
  parentScale : Vector3;
  worldRotationMatrix : Matrix4;
  worldPosition : Vector3;
  worldRotation : Euler;
  oldPosition : Vector3;
  oldScale : Vector3;
  oldQuaternion : Quaternion;
  oldRotationMatrix : Matrix4
}.

Definition set_worldPosition (v : Vector3) (r : TransformControlAtttributes)
  : TransformControlAtttributes :=
  mkAttributes (parentRotationMatrix r) (parentScale r)
    (worldRotationMatrix r) v (worldRotation r) (oldPosition r) (oldScale r)
    (oldQuaternion r) (oldRotationMatrix r).

Definition set_worldRotation (v : Euler) (r : TransformControlAtttributes)
  : TransformControlAtttributes :=
  mkAttributes (parentRotationMatrix r) (parentScale r)
    (worldRotationMatrix r) (worldPosition r) v (oldPosition r) (oldScale r)
    (oldQuaternion r) (oldRotationMatrix r).

(** [new TransformControlAtttributes()] *)
Definition newAttributes : TransformControlAtttributes :=
  mkAttributes m_identity v_zero m_identity v_zero euler_new
    v_zero v_zero q_identity m_identity.

(** The quaternion of a mesh of the gizmo is a function of the last call
    that set it; it is kept as that call. *)
Inductive Orientation :=
  | Initial
  | FacingEye (eye : Vector3)
  | FromEuler (rotation : Euler).

(** A mesh of the gizmo.  [highlighted] is the argument of the last call
    of [material.highlight] that [highlight] has made for the mesh, and
    [false] before the first one; it is [None] when the material has no
    [highlight] method (the four planes).  The materials of the handles
    and of the pickers come with the gizmos that extend [TransformGizmo]:
    where meshes share one, as [TransformGizmo.pickerMaterial] is there to
    be, the material shows the call made for the last of them. *)
Record GizmoNode := mkNode {
  nname : string;
  orientation : Orientation;
  highlighted : option bool
}.

Record TransformGizmo := mkGizmo {
  gid : nat;
  kind : GizmoKind;
  nodes : list GizmoNode;
  activePlane : string
}.

(** One entry of [raycaster.intersectObjects]: the name of the object hit
    and the point of the hit. *)
Record Intersection := mkIntersection {
  iname : string;
  ipoint : Vector3
}.

Record TransformControls := mkControls {
  objects : list ref;
  attributes : list TransformControlAtttributes;
  space : Space;
  size : num;
  axis : option string;
  snap : bool;
  translationSnap : num;
  rotationSnap : num;
  mode : string;
  dragging : bool;
  editing : bool;
  gizmo : TransformGizmo;
  point : Vector3;
  offset : Vector3;
  toolScale : num;
  lookAtMatrix : Matrix4;
  eye : Vector3;
  camPosition : Vector3;
  camRotation : Euler;
  visible : bool;
  selfPosition : Vector3;
  selfScale : Vector3;
  children : list nat
}.

Definition set_objects (v : list ref) (r : TransformControls)
  : TransformControls :=
  mkControls v (attributes r) (space r) (size r) (axis r) (snap r)
    (translationSnap r) (rotationSnap r) (mode r) (dragging r) (editing r)
    (gizmo r) (point r) (offset r) (toolScale r) (lookAtMatrix r) (eye r)
    (camPosition r) (camRotation r) (visible r) (selfPosition r) (selfScale r)
    (children r).

Definition set_attributes (v : list TransformControlAtttributes)
  (r : TransformControls) : TransformControls :=
  mkControls (objects r) v (space r) (size r) (axis r) (snap r)
    (translationSnap r) (rotationSnap r) (mode r) (dragging r) (editing r)
    (gizmo r) (point r) (offset r) (toolScale r) (lookAtMatrix r) (eye r)
    (camPosition r) (camRotation r) (visible r) (selfPosition r) (selfScale r)
    (children r).

Definition set_space (v : Space) (r : TransformControls) : TransformControls :=
  mkControls (objects r) (attributes r) v (size r) (axis r) (snap r)
    (translationSnap r) (rotationSnap r) (mode r) (dragging r) (editing r)
    (gizmo r) (point r) (offset r) (toolScale r) (lookAtMatrix r) (eye r)
    (camPosition r) (camRotation r) (visible r) (selfPosition r) (selfScale r)
    (children r).

Definition set_snap (v : bool) (r : TransformControls) : TransformControls :=
  mkControls (objects r) (attributes r) (space r) (size r) (axis r) v
    (translationSnap r) (rotationSnap r) (mode r) (dragging r) (editing r)
    (gizmo r) (point r) (offset r) (toolScale r) (lookAtMatrix r) (eye r)
    (camPosition r) (camRotation r) (visible r) (selfPosition r) (selfScale r)
    (children r).

Definition set_axis (v : option string) (r : TransformControls)
  : TransformControls :=
  mkControls (objects r) (attributes r) (space r) (size r) v (snap r)
    (translationSnap r) (rotationSnap r) (mode r) (dragging r) (editing r)
    (gizmo r) (point r) (offset r) (toolScale r) (lookAtMatrix r) (eye r)
    (camPosition r) (camRotation r) (visible r) (selfPosition r) (selfScale r)
    (children r).

Definition set_mode (v : string) (r : TransformControls) : TransformControls :=
  mkControls (objects r) (attributes r) (space r) (size r) (axis r) (snap r)
    (translationSnap r) (rotationSnap r) v (dragging r) (editing r) (gizmo r)
    (point r) (offset r) (toolScale r) (lookAtMatrix r) (eye r)
    (camPosition r) (camRotation r) (visible r) (selfPosition r) (selfScale r)
    (children r).

Definition set_dragging (v : bool) (r : TransformControls)
  : TransformControls :=
  mkControls (objects r) (attributes r) (space r) (size r) (axis r) (snap r)
    (translationSnap r) (rotationSnap r) (mode r) v (editing r) (gizmo r)
    (point r) (offset r) (toolScale r) (lookAtMatrix r) (eye r)
    (camPosition r) (camRotation r) (visible r) (selfPosition r) (selfScale r)
    (children r).

Definition set_editing (v : bool) (r : TransformControls) : TransformControls :=
  mkControls (objects r) (attributes r) (space r) (size r) (axis r) (snap r)
    (translationSnap r) (rotationSnap r) (mode r) (dragging r) v (gizmo r)
    (point r) (offset r) (toolScale r) (lookAtMatrix r) (eye r)
    (camPosition r) (camRotation r) (visible r) (selfPosition r) (selfScale r)
    (children r).

Definition set_gizmo (v : TransformGizmo) (r : TransformControls)
  : TransformControls :=
  mkControls (objects r) (attributes r) (space r) (size r) (axis r) (snap r)
    (translationSnap r) (rotationSnap r) (mode r) (dragging r) (editing r) v
    (point r) (offset r) (toolScale r) (lookAtMatrix r) (eye r)
    (camPosition r) (camRotation r) (visible r) (selfPosition r) (selfScale r)
    (children r).

Definition set_point (v : Vector3) (r : TransformControls)
  : TransformControls :=
  mkControls (objects r) (attributes r) (space r) (size r) (axis r) (snap r)
    (translationSnap r) (rotationSnap r) (mode r) (dragging r) (editing r)
    (gizmo r) v (offset r) (toolScale r) (lookAtMatrix r) (eye r)
    (camPosition r) (camRotation r) (visible r) (selfPosition r) (selfScale r)
    (children r).

Definition set_offset (v : Vector3) (r : TransformControls)
  : TransformControls :=
  mkControls (objects r) (attributes r) (space r) (size r) (axis r) (snap r)
    (translationSnap r) (rotationSnap r) (mode r) (dragging r) (editing r)
    (gizmo r) (point r) v (toolScale r) (lookAtMatrix r) (eye r)
    (camPosition r) (camRotation r) (visible r) (selfPosition r) (selfScale r)
    (children r).

Definition set_toolScale (v : num) (r : TransformControls)
  : TransformControls :=
  mkControls (objects r) (attributes r) (space r) (size r) (axis r) (snap r)
    (translationSnap r) (rotationSnap r) (mode r) (dragging r) (editing r)
    (gizmo r) (point r) (offset r) v (lookAtMatrix r) (eye r) (camPosition r)
    (camRotation r) (visible r) (selfPosition r) (selfScale r) (children r).

Definition set_eye (v : Vector3) (r : TransformControls) : TransformControls :=
  mkControls (objects r) (attributes r) (space r) (size r) (axis r) (snap r)
    (translationSnap r) (rotationSnap r) (mode r) (dragging r) (editing r)
    (gizmo r) (point r) (offset r) (toolScale r) (lookAtMatrix r) v
    (camPosition r) (camRotation r) (visible r) (selfPosition r) (selfScale r)
    (children r).

Definition set_camPosition (v : Vector3) (r : TransformControls)
  : TransformControls :=
  mkControls (objects r) (attributes r) (space r) (size r) (axis r) (snap r)
    (translationSnap r) (rotationSnap r) (mode r) (dragging r) (editing r)
    (gizmo r) (point r) (offset r) (toolScale r) (lookAtMatrix r) (eye r) v
    (camRotation r) (visible r) (selfPosition r) (selfScale r) (children r).

Definition set_camRotation (v : Euler) (r : TransformControls)
  : TransformControls :=
  mkControls (objects r) (attributes r) (space r) (size r) (axis r) (snap r)
    (translationSnap r) (rotationSnap r) (mode r) (dragging r) (editing r)
    (gizmo r) (point r) (offset r) (toolScale r) (lookAtMatrix r) (eye r)
    (camPosition r) v (visible r) (selfPosition r) (selfScale r) (children r).

Definition set_visible (v : bool) (r : TransformControls) : TransformControls :=
  mkControls (objects r) (attributes r) (space r) (size r) (axis r) (snap r)
    (translationSnap r) (rotationSnap r) (mode r) (dragging r) (editing r)
    (gizmo r) (point r) (offset r) (toolScale r) (lookAtMatrix r) (eye r)
    (camPosition r) (camRotation r) v (selfPosition r) (selfScale r)
    (children r).

Definition set_selfPosition (v : Vector3) (r : TransformControls)
  : TransformControls :=
  mkControls (objects r) (attributes r) (space r) (size r) (axis r) (snap r)
    (translationSnap r) (rotationSnap r) (mode r) (dragging r) (editing r)
    (gizmo r) (point r) (offset r) (toolScale r) (lookAtMatrix r) (eye r)
    (camPosition r) (camRotation r) (visible r) v (selfScale r) (children r).

Definition set_selfScale (v : Vector3) (r : TransformControls)
  : TransformControls :=
  mkControls (objects r) (attributes r) (space r) (size r) (axis r) (snap r)
    (translationSnap r) (rotationSnap r) (mode r) (dragging r) (editing r)
    (gizmo r) (point r) (offset r) (toolScale r) (lookAtMatrix r) (eye r)
    (camPosition r) (camRotation r) (visible r) (selfPosition r) v
    (children r).

Definition set_children (v : list nat) (r : TransformControls)
  : TransformControls :=
  mkControls (objects r) (attributes r) (space r) (size r) (axis r) (snap r)
    (translationSnap r) (rotationSnap r) (mode r) (dragging r) (editing r)
    (gizmo r) (point r) (offset r) (toolScale r) (lookAtMatrix r) (eye r)
    (camPosition r) (camRotation r) (visible r) (selfPosition r) (selfScale r)
    v.

(** The view camera. *)
Record Camera := mkCamera {
  cameraMatrixWorld : Matrix4;
  isPerspectiveCamera : bool;
  cameraSize : num
}.

(** The vector of an object that a [ChangeAction] writes to. *)
Inductive Target :=
  | PositionOf (r : ref)
  | ScaleOf (r : ref)
  | QuaternionOf (r : ref).

(** [new ChangeAction(object, attribute, newValue, oldValue)] *)
Record ChangeAction := mkChange {
  target : Target;
  attribute : string;
  newValue : num;
  oldValue : num
}.

(** [new ActionBundle(actions)] *)
Definition ActionBundle := list ChangeAction.

(** The controls together with what they share with the editor: the scene
    objects, the camera, the action history of [Editor], and the gizmos
    built and dismissed so far. *)
Record World := mkWorld {
  controls : TransformControls;
  scene : ref → Object3D;
  camera : Camera;
  history : list ActionBundle;
  gizmoLog : list GizmoEvent;
  nextGizmo : nat
}.

Definition set_controls (v : TransformControls) (r : World) : World :=
  mkWorld v (scene r) (camera r) (history r) (gizmoLog r) (nextGizmo r).

Definition set_scene (v : ref → Object3D) (r : World) : World :=
  mkWorld (controls r) v (camera r) (history r) (gizmoLog r) (nextGizmo r).

Definition set_history (v : list ActionBundle) (r : World) : World :=
  mkWorld (controls r) (scene r) (camera r) v (gizmoLog r) (nextGizmo r).

Definition set_gizmoLog (v : list GizmoEvent) (r : World) : World :=
  mkWorld (controls r) (scene r) (camera r) (history r) v (nextGizmo r).

Definition set_nextGizmo (v : nat) (r : World) : World :=
  mkWorld (controls r) (scene r) (camera r) (history r) (gizmoLog r) v.

End DataModel.

(** ** The base gizmo *)

Section Gizmo.
Context {N : JsNumber} {L : Library} {G : GizmoTables}.

(** The base gizmo has no [handleGizmos] and no [pickerGizmos], an empty
    [setActivePlane] and no [dismiss]. *)
Definition handlesOf (k : GizmoKind) : list string :=
  match k with GizmoBase => [] | _ => handleGizmos k end.

Definition pickersOf (k : GizmoKind) : list string :=
  match k with GizmoBase => [] | _ => pickerGizmos k end.

Definition definesDismiss (k : GizmoKind) : bool :=
  match k with GizmoBase => false | _ => hasDismiss k end.

Definition planeNames : list string := ["XY"; "YZ"; "XZ"; "XYZE"].

(** The constructor: the handles, the pickers and the four planes, in the
    order in which [traverse] meets them, with their pose reset; the active
    plane is the one named XYZE.  The handles and the pickers have gizmo
    materials, which can be highlighted; the planes have a basic material,
    which cannot.  The gizmo itself and its three groups have an empty name
    and no material, so that [update] and [highlight] pass over them: they
    are left out of [nodes]. *)
Definition newTransformGizmo (k : GizmoKind) (id : nat) : TransformGizmo :=
  mkGizmo id k
    (map (λ n, mkNode n Initial (Some false)) (handlesOf k)
     ++ map (λ n, mkNode n Initial (Some false)) (pickersOf k)
     ++ map (λ n, mkNode n Initial None) planeNames)
    "XYZE".

(** [TransformGizmo.prototype.setActivePlane] and its overrides. *)
Definition setActivePlane (ax : string) (eye : Vector3) (g : TransformGizmo)
  : TransformGizmo :=
  match kind g with
  | GizmoBase => g
  | k =>
      mkGizmo (gid g) k (nodes g)
        (chooseActivePlane k ax eye (activePlane g))
  end.

(** [TransformGizmo.prototype.update] *)
Definition updateNode (rotation : Euler) (eye : Vector3) (n : GizmoNode)
  : GizmoNode :=
  if found "E" (nname n) then
    mkNode (nname n) (FacingEye eye) (highlighted n)
  else if found "X" (nname n) || found "Y" (nname n) || found "Z" (nname n) then
    mkNode (nname n) (FromEuler rotation) (highlighted n)
  else n.

Definition update (rotation : Euler) (eye : Vector3) (g : TransformGizmo)
  : TransformGizmo :=
  mkGizmo (gid g) (kind g) (map (updateNode rotation eye) (nodes g))
    (activePlane g).

(** [child.name === axis], where [axis] may be [null]. *)
Definition nameIs (n : string) (ax : option string) : bool :=
  match ax with
  | Some a => bool_decide (n = a)
  | None => false
  end.

(** [TransformGizmo.prototype.highlight] *)
Definition highlightNode (ax : option string) (n : GizmoNode) : GizmoNode :=
  match highlighted n with
  | Some _ => mkNode (nname n) (orientation n) (Some (nameIs (nname n) ax))
  | None => n
  end.

Definition highlight (ax : option string) (g : TransformGizmo)
  : TransformGizmo :=
  mkGizmo (gid g) (kind g) (map (highlightNode ax) (nodes g)) (activePlane g).

End Gizmo.

(** ** The controls *)

Section Controls.
Context {N : JsNumber} {L : Library} {G : GizmoTables}.

(** [for(var i = 0; i < n; i++) body], for a body that leaves [i] alone. *)
Definition forIndices {St : Type} (n : nat) (body : nat → St → St) (s : St)
  : St :=
  fold_left (λ s i, body i s) (seq 0 n) s.

(** [this.objects[i]] and [this.attributes[i]].  Past the end of the array
    the source reads [undefined] and the property access that follows
    throws; the loops below stay below [objects.length], and [attach] keeps
    [attributes] at least as long as [objects] (see [slots]), so the
    default here stands for a read that does not happen. *)
Definition objectAt (c : TransformControls) (i : nat) : ref :=
  default 0 (objects c !! i).

Definition attributeAt (c : TransformControls) (i : nat)
  : TransformControlAtttributes :=
  default newAttributes (attributes c !! i).

(** Every selected object has its slot of attributes. *)
Definition slots (c : TransformControls) : Prop :=
  length (objects c) ≤ length (attributes c).

(** [objects[i].parent.matrixWorld].  The source throws when the parent is
    [null]; [attach] selects objects with a parent only, and what is stated
    of a press that takes the snapshots assumes that the selected objects
    still have one ([parented]). *)
Definition parentMatrixWorld (w : World) (o : Object3D) : Matrix4 :=
  match parent o with
  | Some p => matrixWorld (scene w p)
  | None => m_identity
  end.

(** Every selected object has a parent. *)
Definition parented (w : World) : Prop :=
  Forall (λ r, is_Some (parent (scene w r))) (objects (controls w)).

(** The constructor of [TransformControls], given the identifier of the
    gizmo it builds. *)
Definition newTransformControls (id : nat) : TransformControls :=
  mkControls [] [] WORLD (lit 1) None false (lit 1) (lit 1 ⊘ lit 10) TRANSLATE
    false false (newTransformGizmo GizmoBase id) v_zero v_zero (lit 1)
    m_identity v_zero v_zero euler_new false v_zero
    (vec3 (lit 1) (lit 1) (lit 1)) [].

(** [TransformControls.prototype.clear] *)
Definition clear (w : World) : World :=
  set_controls
    (set_axis None (set_visible false (set_objects [] (controls w)))) w.

(** The body of the loop of [updatePose]. *)
Definition poseObject (i : nat) (w : World) : World :=
  let c := controls w in
  let o := scene w (objectAt c i) in
  let a1 :=
    set_worldPosition (v_setFromMatrixPosition (matrixWorld o))
      (attributeAt c i) in
  let a2 :=
    set_worldRotation
      (euler_setFromRotationMatrix (m_extractRotation (matrixWorld o))) a1 in
  set_controls
    (set_selfPosition (v_add (selfPosition c) (worldPosition a2))
       (set_attributes (<[i := a2]> (attributes c)) c)) w.

(** The middle of [updatePose]: the controls at the mean of the world
    positions, scaled by the distance to the camera, and the direction of
    the camera. *)
Definition placeControls (w : World) : World :=
  let c := controls w in
  let n := length (objects c) in
  let pos :=
    if decide (0 < n)
    then v_divideScalar (selfPosition c) (lit (Z.of_nat n))
    else selfPosition c in
  let camPos := v_setFromMatrixPosition (cameraMatrixWorld (camera w)) in
  let camRot :=
    euler_setFromRotationMatrix
      (m_extractRotation (cameraMatrixWorld (camera w))) in
  let ts :=
    if isPerspectiveCamera (camera w)
    then v_distanceTo pos camPos ⊘ lit 6 ⊗ size c
    else cameraSize (camera w) ⊘ lit 6 ⊗ size c in
  set_controls
    (set_eye (v_normalize (v_sub camPos pos))
       (set_selfScale (vec3 ts ts ts)
          (set_toolScale ts
             (set_camRotation camRot
                (set_camPosition camPos (set_selfPosition pos c)))))) w.

(** The end of [updatePose]: the gizmo turned to the world rotation of the
    first selected object or left unrotated, and the axis highlighted. *)
Definition orientGizmo (w : World) : World :=
  let c := controls w in
  if decide (mode c ≠ NONE) then
    let g :=
      if decide (space c = LOCAL ∨ mode c = SCALE)
      then update (worldRotation (attributeAt c 0)) (eye c) (gizmo c)
      else if decide (space c = WORLD)
      then update euler_new (eye c) (gizmo c)
      else gizmo c in
    set_controls (set_gizmo (highlight (axis c) g) c) w
  else w.

(** [TransformControls.prototype.updatePose] *)
Definition updatePose (w : World) : World :=
  let c := controls w in
  if decide (length (objects c) = 0) then clear w
  else if decide (mode c = NONE) then w
  else
    orientGizmo
      (placeControls
         (forIndices (length (objects c)) poseObject
            (set_controls (set_selfPosition v_zero (set_visible true c)) w))).

(** [objects[i].isObject3D && !objects[i].locked &&
    objects[i].parent !== null] *)
Definition attachable (w : World) (r : ref) : bool :=
  isObject3D (scene w r) && negb (locked (scene w r))
  && match parent (scene w r) with Some _ => true | None => false end.

(** [TransformControls.prototype.attach]: the selection is rebuilt by
    pushing, and the attributes grow one slot at a time until there are
    enough of them. *)
Definition pushAttachable (w : World) (sel : list ref) (r : ref) : list ref :=
  if attachable w r then sel ++ [r] else sel.

Definition growAttributes (n : nat) (attrs : list TransformControlAtttributes)
  : list TransformControlAtttributes :=
  Nat.iter (n - length attrs) (λ l, l ++ [newAttributes]) attrs.

Definition attach (objs : list ref) (w : World) : World :=
  let sel := fold_left (pushAttachable w) objs [] in
  let c1 := set_objects sel (controls w) in
  let c2 := set_attributes (growAttributes (length sel) (attributes c1)) c1 in
  let w2 := set_controls c2 w in
  if decide (0 < length (objects c2)) then updatePose w2 else clear w2.

(** The gizmo that [setMode] builds for a mode. *)
Definition gizmoFor (m : string) : GizmoKind :=
  if decide (m = TRANSLATE) then GizmoTranslate
  else if decide (m = ROTATE) then GizmoRotate
  else if decide (m = SCALE) then GizmoScale
  else GizmoBase.

(** [TransformControls.prototype.setMode].  The field [gizmo] is [null]
    only between the removal of the old gizmo and the construction of the
    new one, inside this method: the two tests [this.gizmo !== null] always
    hold, and the field is a gizmo here. *)
Definition setMode (m : string) (w : World) : World :=
  let c := controls w in
  if decide (mode c = m) then w
  else
    let c1 := set_mode m c in
    let old := gizmo c1 in
    let log :=
      if definesDismiss (kind old)
      then gizmoLog w ++ [Dismissed (gid old)]
      else gizmoLog w in
    let c2 :=
      set_children (List.filter (λ k, negb (k =? gid old)) (children c1)) c1 in
    let c3 := if decide (mode c2 = SCALE) then set_space LOCAL c2 else c2 in
    let g := newTransformGizmo (gizmoFor (mode c3)) (nextGizmo w) in
    let c4 := set_children (children c3 ++ [gid g]) (set_gizmo g c3) in
    let c5 := set_visible (bool_decide (0 < length (objects c4))) c4 in
    updatePose
      (set_nextGizmo (S (nextGizmo w))
         (set_gizmoLog (log ++ [Constructed (kind g) (gid g)])
            (set_controls c5 w))).

(** [TransformControls.prototype.intersectObjects], given the intersections
    that the raycaster returns for the pointer: the first one, or [false]. *)
Definition intersectObjects (intersections : list Intersection)
  : option Intersection :=
  head intersections.

(** [TransformControls.prototype.onPointerHover], given what the ray through
    the pointer hits among the pickers. *)
Definition onPointerHover (pickers : list Intersection) (w : World) : World :=
  let c := controls w in
  if decide (length (objects c) = 0 ∨ dragging c = true ∨ mode c = NONE)
  then w
  else
    let ax := iname <$> intersectObjects pickers in
    if decide (axis c ≠ ax)
    then updatePose (set_controls (set_axis ax c) w)
    else w.

(** The body of the loop of [onPointerDown]: the snapshot of one object. *)
Definition snapshotObject (i : nat) (w : World) : World :=
  let c := controls w in
  let o := scene w (objectAt c i) in
  let a := attributeAt c i in
  let a' :=
    mkAttributes
      (m_extractRotation (parentMatrixWorld w o))
      (v_setFromMatrixScale (m_getInverse (parentMatrixWorld w o)))
      (m_extractRotation (matrixWorld o))
      (worldPosition a) (worldRotation a)
      (position o) (scale o) (quaternion o)
      (m_extractRotation (matrix o)) in
  set_controls (set_attributes (<[i := a']> (attributes c)) c) w.

(** [TransformControls.prototype.onPointerDown], given what the ray through
    the pointer hits among the pickers and, once the active plane is
    chosen, on that plane. *)
Definition onPointerDown (pickers plane : list Intersection) (w : World)
  : World :=
  let c := controls w in
  if decide (length (objects c) = 0 ∨ dragging c = true ∨ mode c = NONE)
  then w
  else
    let w' :=
      match intersectObjects pickers with
      | Some intersect =>
          let w1 :=
            updatePose
              (set_controls
                 (set_axis (Some (iname intersect)) (set_editing true c)) w) in
          let c1 := controls w1 in
          let ey := v_normalize (v_sub (camPosition c1) (selfPosition c1)) in
          let c2 :=
            set_gizmo (setActivePlane (iname intersect) ey (gizmo c1))
              (set_eye ey c1) in
          let w2 := set_controls c2 w1 in
          match intersectObjects plane with
          | Some planeIntersect =>
              let w3 := forIndices (length (objects c2)) snapshotObject w2 in
              set_controls (set_offset (ipoint planeIntersect) (controls w3)) w3
          | None => w2
          end
      | None => w
      end in
    set_controls (set_dragging true (controls w')) w'.

End Controls.

(** ** Dragging *)

Section Drag.
Context {N : JsNumber} {L : Library} {G : GizmoTables}.

(** Writing one vector of a shared scene object. *)
Definition writePosition (r : ref) (v : Vector3) (w : World) : World :=
  set_scene (<[r := set_position v (scene w r)]> (scene w)) w.

Definition writeScale (r : ref) (v : Vector3) (w : World) : World :=
  set_scene (<[r := set_scale v (scene w r)]> (scene w)) w.

Definition writeQuaternion (r : ref) (q : Quaternion) (w : World) : World :=
  set_scene (<[r := set_quaternion q (scene w r)]> (scene w)) w.

Definition writePoint (p : Vector3) (w : World) : World :=
  set_controls (set_point p (controls w)) w.

(** [this.point]: the point of the hit relative to a reference point,
    multiplied by the parent scale of object [i]. *)
Definition dragPoint (hit from : Vector3) (a : TransformControlAtttributes)
  : Vector3 :=
  v_multiply (v_sub hit from) (parentScale a).

(** The components of the axes that the token does not name are set to 0. *)
Definition maskAxes (ax : string) (p : Vector3) : Vector3 :=
  let p1 := if found "X" ax then p else set_vx (lit 0) p in
  let p2 := if found "Y" ax then p1 else set_vy (lit 0) p1 in
  if found "Z" ax then p2 else set_vz (lit 0) p2.

(** The inner loops of the translation: every object [j] is put at its own
    old position plus [this.point]. *)
Definition moveObject (j : nat) (w : World) : World :=
  let c := controls w in
  writePosition (objectAt c j)
    (v_add (oldPosition (attributeAt c j)) (point c)) w.

Definition moveObjects (w : World) : World :=
  forIndices (length (objects (controls w))) moveObject w.

(** [Math.round(v / translationSnap) * translationSnap] *)
Definition snapTo (s v : num) : num := nround (v ⊘ s) ⊗ s.

Definition snapAxes (ax : string) (s : num) (p : Vector3) : Vector3 :=
  let p1 := if found "X" ax then set_vx (snapTo s (vx p)) p else p in
  let p2 := if found "Y" ax then set_vy (snapTo s (vy p1)) p1 else p1 in
  if found "Z" ax then set_vz (snapTo s (vz p2)) p2 else p2.

(** The snapping of object [i], in the frame of its world rotation when the
    space is [LOCAL]. *)
Definition snapObject (ax : string) (i : nat) (w : World) : World :=
  let c := controls w in
  let r := objectAt c i in
  let a := attributeAt c i in
  let p0 := position (scene w r) in
  let p1 :=
    if decide (space c = LOCAL)
    then v_applyMatrix4 p0 (m_getInverse (worldRotationMatrix a))
    else p0 in
  let p2 := snapAxes ax (translationSnap c) p1 in
  let p3 :=
    if decide (space c = LOCAL)
    then v_applyMatrix4 p2 (worldRotationMatrix a)
    else p2 in
  writePosition r p3 w.

(** One turn of the outer loop of the translation. *)
Definition translateObject (ax : string) (hit : Vector3) (i : nat) (w : World)
  : World :=
  let c := controls w in
  let a := attributeAt c i in
  let p := maskAxes ax (dragPoint hit (offset c) a) in
  let w1 :=
    if decide (space c = WORLD ∨ found "XYZ" ax = true) then
      moveObjects
        (writePoint
           (v_applyMatrix4 p (m_getInverse (parentRotationMatrix a))) w)
    else if decide (space c = LOCAL) then
      let p' :=
        if decide (1 < String.length ax) then
          v_applyMatrix4
            (v_applyMatrix4 p (m_getInverse (worldRotationMatrix a)))
            (oldRotationMatrix a)
        else v_applyMatrix4 p (oldRotationMatrix a) in
      moveObjects (writePoint p' w)
    else writePoint p w in
  if snap c then snapObject ax i w1 else w1.

(** The shapes of a physics body follow the scale of the object. *)
Definition syncShape (s : Vector3) (sh : Shape) : Shape :=
  match stype sh with
  | BOX =>
      mkShape (stype sh)
        (vec3 (vx s ⊘ lit 2) (vy s ⊘ lit 2) (vz s ⊘ lit 2)) (radius sh)
  | SPHERE => mkShape (stype sh) (halfExtents sh) (vx s)
  | OTHER_SHAPE => sh
  end.

(** The scaling of object [i]. *)
Definition scaleObject (ax : string) (hit : Vector3) (i : nat) (w : World)
  : World :=
  let c := controls w in
  let r := objectAt c i in
  let a := attributeAt c i in
  let p := dragPoint hit (offset c) a in
  if decide (ax = "XYZ") then
    let ts := lit 1 ⊕ vy p in
    writeScale r (v_multiplyScalar (oldScale a) ts)
      (set_controls (set_toolScale ts (set_point p c)) w)
  else
    let p' := v_applyMatrix4 p (m_getInverse (worldRotationMatrix a)) in
    let w1 := writePoint p' w in
    let s := scale (scene w1 r) in
    if decide (ax = "X") then
      writeScale r (set_vx (vx (oldScale a) ⊗ (lit 1 ⊕ vx p')) s) w1
    else if decide (ax = "Y") then
      writeScale r (set_vy (vy (oldScale a) ⊗ (lit 1 ⊕ vy p')) s) w1
    else if decide (ax = "Z") then
      writeScale r (set_vz (vz (oldScale a) ⊗ (lit 1 ⊕ vz p')) s) w1
    else w1.

(** The loop of the scaling.  The loop over the shapes of a physics object
    runs on the same variable [i] as the loop over the objects: it leaves
    [i] at the number of shapes, and the outer loop goes on from there.  The
    loop may then never reach [objects.length]; [fuel] bounds the number of
    turns, and [None] is a loop that has not ended within it. *)
Fixpoint scaleLoop (fuel : nat) (ax : string) (hit : Vector3) (i : nat)
  (w : World) : option World :=
  if decide (i < length (objects (controls w))) then
    match fuel with
    | O => None
    | S fuel' =>
        let w1 := scaleObject ax hit i w in
        let r := objectAt (controls w1) i in
        let o := scene w1 r in
        match body o with
        | Some shapes =>
            scaleLoop fuel' ax hit (S (length shapes))
              (set_scene
                 (<[r := set_body (Some (map (syncShape (scale o)) shapes)) o]>
                    (scene w1)) w1)
        | None => scaleLoop fuel' ax hit (S i) w1
        end
    end
  else Some w.

(** The three angles of a vector, by pairs of components. *)
Definition angles (p : Vector3) : Vector3 :=
  vec3 (math_atan2 (vz p) (vy p)) (math_atan2 (vx p) (vz p))
    (math_atan2 (vy p) (vx p)).

(** The quaternions of the rotation about the three unit axes, for the
    difference of the angles of the two vectors, rounded when [snap] is
    set. *)
Definition axisQuaternion (c : TransformControls) (unit : Vector3)
  (tool off : num) : Quaternion :=
  if snap c
  then q_setFromAxisAngle unit
         (nround ((tool ⊖ off) ⊘ rotationSnap c) ⊗ rotationSnap c)
  else q_setFromAxisAngle unit (tool ⊖ off).

Definition unitX : Vector3 := vec3 (lit 1) (lit 0) (lit 0).
Definition unitY : Vector3 := vec3 (lit 0) (lit 1) (lit 0).
Definition unitZ : Vector3 := vec3 (lit 0) (lit 0) (lit 1).

(** The rotation of object [i].  The scratch registers of the controls
    other than [point] are written before they are read in every branch;
    they are local here. *)
Definition rotateObject (ax : string) (hit : Vector3) (i : nat) (w : World)
  : World :=
  let c := controls w in
  let r := objectAt c i in
  let a := attributeAt c i in
  let p := dragPoint hit (worldPosition a) a in
  let tempVector := dragPoint (offset c) (worldPosition a) a in
  if decide (ax = "E") then
    let p' := v_applyMatrix4 p (m_getInverse (lookAtMatrix c)) in
    let tempVector' :=
      v_applyMatrix4 tempVector (m_getInverse (lookAtMatrix c)) in
    let toolRotation := angles p' in
    let offsetRotation := angles tempVector' in
    let tempQuaternion :=
      q_setFromRotationMatrix (m_getInverse (parentRotationMatrix a)) in
    let quaternionE :=
      q_setFromAxisAngle (eye c) (vz toolRotation ⊖ vz offsetRotation) in
    let quaternionXYZ := q_setFromRotationMatrix (worldRotationMatrix a) in
    writeQuaternion r
      (q_multiplyQuaternions
         (q_multiplyQuaternions tempQuaternion quaternionE) quaternionXYZ)
      (writePoint p' w)
  else if decide (ax = "XYZE") then
    let quaternionE := q_setFromEuler (v_normalize (v_cross p tempVector)) in
    let tempQuaternion :=
      q_setFromRotationMatrix (m_getInverse (parentRotationMatrix a)) in
    let quaternionX :=
      q_setFromAxisAngle
        (vec3 (qx quaternionE) (qy quaternionE) (qz quaternionE))
        (nneg (v_angleTo p tempVector)) in
    let quaternionXYZ := q_setFromRotationMatrix (worldRotationMatrix a) in
    writeQuaternion r
      (q_multiplyQuaternions
         (q_multiplyQuaternions tempQuaternion quaternionX) quaternionXYZ)
      (writePoint p w)
  else if decide (space c = LOCAL) then
    let p' := v_applyMatrix4 p (m_getInverse (worldRotationMatrix a)) in
    let tempVector' :=
      v_applyMatrix4 tempVector (m_getInverse (worldRotationMatrix a)) in
    let toolRotation := angles p' in
    let offsetRotation := angles tempVector' in
    let quaternionXYZ := q_setFromRotationMatrix (oldRotationMatrix a) in
    let quaternionX :=
      axisQuaternion c unitX (vx toolRotation) (vx offsetRotation) in
    let quaternionY :=
      axisQuaternion c unitY (vy toolRotation) (vy offsetRotation) in
    let quaternionZ :=
      axisQuaternion c unitZ (vz toolRotation) (vz offsetRotation) in
    let q :=
      if decide (ax = "X") then q_multiplyQuaternions quaternionXYZ quaternionX
      else if decide (ax = "Y")
      then q_multiplyQuaternions quaternionXYZ quaternionY
      else if decide (ax = "Z")
      then q_multiplyQuaternions quaternionXYZ quaternionZ
      else quaternionXYZ in
    writeQuaternion r q (writePoint p' w)
  else if decide (space c = WORLD) then
    let toolRotation := angles p in
    let offsetRotation := angles tempVector in
    let tempQuaternion :=
      q_setFromRotationMatrix (m_getInverse (parentRotationMatrix a)) in
    let quaternionX :=
      axisQuaternion c unitX (vx toolRotation) (vx offsetRotation) in
    let quaternionY :=
      axisQuaternion c unitY (vy toolRotation) (vy offsetRotation) in
    let quaternionZ :=
      axisQuaternion c unitZ (vz toolRotation) (vz offsetRotation) in
    let quaternionXYZ := q_setFromRotationMatrix (worldRotationMatrix a) in
    let q :=
      if decide (ax = "X") then q_multiplyQuaternions tempQuaternion quaternionX
      else if decide (ax = "Y")
      then q_multiplyQuaternions tempQuaternion quaternionY
      else if decide (ax = "Z")
      then q_multiplyQuaternions tempQuaternion quaternionZ
      else tempQuaternion in
    writeQuaternion r (q_multiplyQuaternions q quaternionXYZ) (writePoint p w)
  else writePoint p w.

(** [TransformControls.prototype.onPointerMove], given what the ray through
    the pointer hits on the active plane.  The result is [None] when the
    loop of the scaling has not ended within [fuel] turns. *)
Definition onPointerMove (fuel : nat) (plane : list Intersection) (w : World)
  : option World :=
  let c := controls w in
  match axis c with
  | None => Some w
  | Some ax =>
      if decide (length (objects c) = 0 ∨ dragging c = false ∨ mode c = NONE)
      then Some w
      else
        match intersectObjects plane with
        | None => Some w
        | Some planeIntersect =>
            let hit := ipoint planeIntersect in
            let n := length (objects c) in
            if decide (mode c = TRANSLATE) then
              Some (updatePose (forIndices n (translateObject ax hit) w))
            else if decide (mode c = SCALE) then
              updatePose <$> scaleLoop fuel ax hit 0 w
            else if decide (mode c = ROTATE) then
              Some (updatePose (forIndices n (rotateObject ax hit) w))
            else Some (updatePose w)
        end
  end.

(** ** Releasing the pointer *)

(** The change actions of the components of a vector and of a quaternion,
    in the order in which they are pushed. *)
Definition vectorActions (t : Target) (new old : Vector3) : list ChangeAction :=
  [mkChange t "x" (vx new) (vx old);
   mkChange t "y" (vy new) (vy old);
   mkChange t "z" (vz new) (vz old)].

Definition quaternionActions (t : Target) (new old : Quaternion)
  : list ChangeAction :=
  [mkChange t "x" (qx new) (qx old);
   mkChange t "y" (qy new) (qy old);
   mkChange t "z" (qz new) (qz old);
   mkChange t "w" (qw new) (qw old)].

Definition positionActions (w : World) (actions : list ChangeAction) (i : nat)
  : list ChangeAction :=
  let r := objectAt (controls w) i in
  actions
  ++ vectorActions (PositionOf r) (position (scene w r))
       (oldPosition (attributeAt (controls w) i)).

Definition scaleActions (w : World) (actions : list ChangeAction) (i : nat)
  : list ChangeAction :=
  let r := objectAt (controls w) i in
  actions
  ++ vectorActions (ScaleOf r) (scale (scene w r))
       (oldScale (attributeAt (controls w) i)).

Definition rotationActions (w : World) (actions : list ChangeAction) (i : nat)
  : list ChangeAction :=
  let r := objectAt (controls w) i in
  actions
  ++ quaternionActions (QuaternionOf r) (quaternion (scene w r))
       (oldQuaternion (attributeAt (controls w) i)).

(** [Editor.addAction(new ActionBundle(actions))] *)
Definition addAction (actions : ActionBundle) (w : World) : World :=
  set_history (history w ++ [actions]) w.

(** [TransformControls.prototype.onPointerUp] *)
Definition onPointerUp (w : World) : World :=
  let c := controls w in
  let indices := seq 0 (length (objects c)) in
  let w1 :=
    if editing c then
      if decide (mode c = TRANSLATE) then
        addAction (fold_left (positionActions w) indices []) w
      else if decide (mode c = SCALE) then
        addAction (fold_left (scaleActions w) indices []) w
      else if decide (mode c = ROTATE) then
        addAction (fold_left (rotationActions w) indices []) w
      else w
    else w in
  set_controls (set_dragging false (set_editing false (controls w1))) w1.

End Drag.

(** ** The frame *)

(** The test [a !== b] on JavaScript numbers, through its negation. *)
Class JsCompare {N : JsNumber} := {
  nsame : num → num → bool
}.

Section FrameData.
Context {N : JsNumber} {L : Library} {G : GizmoTables}.

(** What [update] reads of the mouse: whether the left button went down or
    up since the last frame, and how far the pointer moved. *)
Record Mouse := mkMouse {
  leftJustPressed : bool;
  leftJustReleased : bool;
  deltaX : num;
  deltaY : num
}.

(** What the ray through the pointer hits at each of the four places where
    a frame may call [intersectObjects]: the pickers and the active plane
    for the press, the pickers for the hover, the active plane for the
    move. *)
Record Rays := mkRays {
  pressPickers : list Intersection;
  pressPlane : list Intersection;
  hoverPickers : list Intersection;
  movePlane : list Intersection
}.

End FrameData.

Module Controls.
Section Frame.
Context {N : JsNumber} {L : Library} {G : GizmoTables} {C : JsCompare}.

(** [this.mouse.delta.x !== 0 || this.mouse.delta.y !== 0] *)
Definition moved (m : Mouse) : bool :=
  negb (nsame (deltaX m) (lit 0)) || negb (nsame (deltaY m) (lit 0)).

(** [TransformControls.prototype.update]: the world after the frame and
    the value returned, [this.editing]; [None] when the loop of the scaling
    has not ended within [fuel] turns. *)
Definition update (fuel : nat) (m : Mouse) (r : Rays) (w : World)
  : option (World * bool) :=
  let w1 :=
    if leftJustPressed m
    then onPointerDown (pressPickers r) (pressPlane r) w
    else w in
  let w2 := if leftJustReleased m then onPointerUp w1 else w1 in
  w3 ← (if moved m
        then onPointerMove fuel (movePlane r)
               (onPointerHover (hoverPickers r) w2)
        else Some w2);
  let w4 := updatePose w3 in
  Some (w4, editing (controls w4)).

End Frame.
End Controls.

(** ** The side bar *)

(** The comparison [a < b] of JavaScript numbers. *)
Class JsOrder {N : JsNumber} := {
  nlt : num → num → bool
}.

Module SideBar.
Section Bar.
Context {N : JsNumber} {O : JsOrder}.

(** A [ButtonDrawer], as far as [updateSize] writes it: whether it has been
    attached to the bar, its size, its position, the size of its options
    and its visibility, and the buttons handed to its [insertOption], by
    their place in [buttons], in the order of the calls.  A [Vector2] is a
    pair, and [setVisibility(v)] is taken as the assignment of [visible]. *)
Record ButtonDrawer := mkDrawer {
  attachedToBar : bool;
  size : num * num;
  position : num * num;
  optionsSize : num * num;
  visible : bool;
  inserted : list nat
}.

(** The [SideBar], as far as [updateSize] reads and writes it: its size,
    the buttons of [createObject], the drawer [more] and the visibility of
    the text [addText]. *)
Record SideBar := mkSideBar {
  barSize : num * num;
  buttons : list ButtonDrawer;
  more : ButtonDrawer;
  addTextVisible : bool
}.

Definition setVisibility (v : bool) (b : ButtonDrawer) : ButtonDrawer :=
  mkDrawer (attachedToBar b) (size b) (position b) (optionsSize b) v
    (inserted b).

(** The body of the first loop: the button is attached to the bar, given
    the width of the bar as size and put at [position]. *)
Definition placeButton (sz position : num) (b : ButtonDrawer) : ButtonDrawer :=
  mkDrawer true (sz, sz) (lit 0, position) (sz, sz) true (inserted b).

(** The first loop, from the button [i] on, [bs] being the buttons from
    there: the buttons as the loop leaves them, and [position] and [i] at
    its end. *)
Fixpoint placeButtons (sz limit position : num) (i : nat)
  (bs : list ButtonDrawer) : list ButtonDrawer * num * nat :=
  match bs with
  | b :: rest =>
      if nlt position limit then
        let '(rest', p, j) :=
          placeButtons sz limit (position ⊕ sz) (S i) rest in
        (placeButton sz position b :: rest', p, j)
      else (bs, position, i)
  | [] => ([], position, i)
  end.

(** [SideBar.prototype.updateSize], after the call of the method of
    [Element] that it overrides. *)
Definition updateSize (s : SideBar) : SideBar :=
  let sz := fst (barSize s) in
  let '(bs, position, i) :=
    placeButtons sz (snd (barSize s) ⊖ lit 2 ⊗ sz) (lit 210) 0 (buttons s) in
  if nlt (snd (barSize s)) (lit 250) then
    mkSideBar (barSize s) bs (setVisibility false (more s)) false
  else
    let m :=
      if decide (i < length (buttons s)) then
        mkDrawer (attachedToBar (more s)) (sz, sz) (lit 0, position) (sz, sz)
          true (inserted (more s) ++ seq i (length (buttons s) - i))
      else setVisibility false (more s) in
    mkSideBar (barSize s) bs m true.

End Bar.
End SideBar.
(** ** Exact arithmetic

    The rationals as numbers, on which the examples are evaluated:
    [Math.round] is the floor of the number plus one half, and every
    operation is exact. *)

Module Exact.

Local Open Scope Qc_scope.

Definition ofZ (z : Z) : Qc := Q2Qc (inject_Z z).

Definition round (x : Qc) : Qc := ofZ (Qfloor (x + Q2Qc (1 # 2))).

(** The root of a rational whose numerator and denominator are squares;
    otherwise the roots of the two rounded down, which is not the root: the
    scenes below only take roots of squares. *)
Definition sqrt (x : Qc) : Qc :=
  Q2Qc (Qmake (Z.sqrt (Qnum x)) (Z.to_pos (Z.sqrt (Zpos (Qden x))))).

Global Instance number : JsNumber := {|
  num := Qc;
  lit := ofZ;
  nadd := Qcplus;
  nsub := Qcminus;
  nmul := Qcmult;
  ndiv := Qcdiv;
  nneg := Qcopp;
  nround := round
|}.

(** The matrix as its four rows, and back. *)
Definition rows (m : Matrix4) : list (list Qc) :=
  [[e0 m; e4 m; e8 m; e12 m];
   [e1 m; e5 m; e9 m; e13 m];
   [e2 m; e6 m; e10 m; e14 m];
   [e3 m; e7 m; e11 m; e15 m]].

Definition entry (r : list (list Qc)) (i j : nat) : Qc :=
  nth j (nth i r []) 0.

Definition ofEntries (f : nat → nat → Qc) : Matrix4 :=
  (mat4 (f 0 0) (f 1 0) (f 2 0) (f 3 0)
        (f 0 1) (f 1 1) (f 2 1) (f 3 1)
        (f 0 2) (f 1 2) (f 2 2) (f 3 2)
        (f 0 3) (f 1 3) (f 2 3) (f 3 3))%nat.

Definition dropAt {A : Type} (i : nat) (l : list A) : list A :=
  firstn i l ++ skipn (S i) l.

(** The determinant, by expansion along the first row. *)
Fixpoint det (n : nat) (r : list (list Qc)) : Qc :=
  match n with
  | O => 1
  | S n' =>
      fold_left
        (λ acc j,
           let m := det n' (map (dropAt j) (dropAt 0%nat r)) in
           if Nat.even j
           then acc + entry r 0%nat j * m
           else acc - entry r 0%nat j * m)
        (seq 0%nat (S n')) 0
  end.

Definition cofactor (r : list (list Qc)) (i j : nat) : Qc :=
  let d := det 3%nat (map (dropAt j) (dropAt i r)) in
  if Nat.even (i + j)%nat then d else - d.

(** The inverse of a matrix; the identity when the determinant is 0. *)
Definition inverse (m : Matrix4) : Matrix4 :=
  let r := rows m in
  let d := det 4%nat r in
  if decide (d = 0) then m_identity
  else ofEntries (λ i j, cofactor r j i / d).

Definition columnLength (x y z : Qc) : Qc := sqrt (x * x + y * y + z * z).

(** The columns of the upper 3x3 part, each divided by its length. *)
Definition extractRotation (m : Matrix4) : Matrix4 :=
  let sx := 1 / columnLength (e0 m) (e1 m) (e2 m) in
  let sy := 1 / columnLength (e4 m) (e5 m) (e6 m) in
  let sz := 1 / columnLength (e8 m) (e9 m) (e10 m) in
  mat4 (e0 m * sx) (e1 m * sx) (e2 m * sx) 0
       (e4 m * sy) (e5 m * sy) (e6 m * sy) 0
       (e8 m * sz) (e9 m * sz) (e10 m * sz) 0
       0 0 0 1.

Definition setFromMatrixScale (m : Matrix4) : Vector3 :=
  vec3 (columnLength (e0 m) (e1 m) (e2 m))
       (columnLength (e4 m) (e5 m) (e6 m))
       (columnLength (e8 m) (e9 m) (e10 m)).

Definition divideScalar (v : Vector3) (s : Qc) : Vector3 :=
  v_multiplyScalar v (1 / s).

Definition vlength (v : Vector3) : Qc := columnLength (vx v) (vy v) (vz v).

Definition normalize (v : Vector3) : Vector3 :=
  divideScalar v (if decide (vlength v = 0) then 1 else vlength v).

Definition cross (a b : Vector3) : Vector3 :=
  vec3 (vy a * vz b - vz a * vy b)
       (vz a * vx b - vx a * vz b)
       (vx a * vy b - vy a * vx b).

Definition multiplyQuaternions (a b : Quaternion) : Quaternion :=
  quat (qx a * qw b + qw a * qx b + qy a * qz b - qz a * qy b)
       (qy a * qw b + qw a * qy b + qz a * qx b - qx a * qz b)
       (qz a * qw b + qw a * qz b + qx a * qy b - qy a * qx b)
       (qw a * qw b - qx a * qx b - qy a * qy b - qz a * qz b).

(** The library over the rationals.  An [Euler] is kept as the rotation
    matrix it is made from.  Angles are not rational: the functions that
    produce or consume them are given at the angle 0 only (the identity
    rotation), and no example below drags in [ROTATE] mode, where alone the
    controls call them. *)
Global Instance library : Library := {|
  Euler := Matrix4;
  euler_new := m_identity;
  euler_setFromRotationMatrix := λ m, m;
  m_extractRotation := extractRotation;
  m_getInverse := inverse;
  v_setFromMatrixScale := setFromMatrixScale;
  v_divideScalar := divideScalar;
  v_distanceTo := λ a b, vlength (v_sub a b);
  v_normalize := normalize;
  v_cross := cross;
  v_angleTo := λ _ _, 0;
  math_atan2 := λ _ _, 0;
  q_setFromRotationMatrix := λ _, q_identity;
  q_setFromAxisAngle := λ _ _, q_identity;
  q_setFromEuler := λ _, q_identity;
  q_multiplyQuaternions := multiplyQuaternions
|}.

(** Modelled from the spec: the handles and pickers of the three gizmos
    that extend [TransformGizmo], whose files are not among the sources.
    The spec lists the axis tokens but not which gizmo has which: every
    gizmo is given all of them. *)
Definition gizmoNames (k : GizmoKind) : list string :=
  ["X"; "Y"; "Z"; "XY"; "YZ"; "XZ"; "XYZ"; "E"; "XYZE"].

(** Modelled from the spec: the overrides of [setActivePlane], which choose
    one of the four planes by the axis and by the direction of the camera;
    here by the axis alone, the direction being left out. *)
Definition planeFor (k : GizmoKind) (ax : string) (eye : Vector3)
  (current : string) : string :=
  if decide (ax = "X" ∨ ax = "Y" ∨ ax = "XY") then "XY"
  else if decide (ax = "Z" ∨ ax = "XZ") then "XZ"
  else if decide (ax = "YZ") then "YZ"
  else "XYZE".

Global Instance gizmos : GizmoTables := {|
  handleGizmos := gizmoNames;
  pickerGizmos := gizmoNames;
  chooseActivePlane := planeFor;
  hasDismiss := λ _, true
|}.

End Exact.

(** ** Scenes for the examples *)

Module Scenes.
Import Exact.
Local Open Scope Qc_scope.

Definition vec (x y z : Z) : Vector3 := vec3 (ofZ x) (ofZ y) (ofZ z).

(** A matrix with the given rotation part, by columns, and translation. *)
Definition placed (c0 c1 c2 t : Vector3) : Matrix4 :=
  mat4 (vx c0) (vy c0) (vz c0) 0
       (vx c1) (vy c1) (vz c1) 0
       (vx c2) (vy c2) (vz c2) 0
       (vx t) (vy t) (vz t) 1.

Definition at_ (t : Vector3) : Matrix4 :=
  placed (vec 1 0 0) (vec 0 1 0) (vec 0 0 1) t.

(** The root of the scene, and a mesh at position [p] under the root, not
    rotated and of scale 1. *)
Definition root : Object3D :=
  mkObject3D true false None v_zero (vec 1 1 1) q_identity m_identity
    m_identity None.

Definition mesh (p : Vector3) : Object3D :=
  mkObject3D true false (Some 0%nat) p (vec 1 1 1) q_identity (at_ p) (at_ p)
    None.

(** A physics object with the given shapes. *)
Definition physics (p : Vector3) (shapes : list Shape) : Object3D :=
  mkObject3D true false (Some 0%nat) p (vec 1 1 1) q_identity (at_ p) (at_ p)
    (Some shapes).

Definition half : Qc := Q2Qc (1 # 2).

Definition box : Shape := mkShape BOX (vec3 half half half) 0.


(** The scene: the root at reference 0 and the objects of the list from
    reference 1 on. *)
Definition sceneOf (l : list Object3D) : ref → Object3D :=
  λ r, match r with
       | O => root
       | S k => default root (l !! k)
       end.

(** A perspective camera at distance 6 straight above the point (x, 0, 0).
    In every scene below the camera is above the mean of the selected
    objects, so that its distance to the controls is rational. *)
Definition viewer (x : Qc) : Camera :=
  mkCamera (at_ (vec3 x 0 (ofZ 6))) true 1.

(** The editor just after the controls are built, with the camera above
    (x, 0, 0), and above the origin. *)
Definition freshUnder (x : Qc) (l : list Object3D) : World :=
  mkWorld (newTransformControls 0%nat) (sceneOf l) (viewer x) [] [] 1%nat.

Definition fresh (l : list Object3D) : World := freshUnder 0 l.

(** The assignments [controls.space = s] and [controls.snap = b] of the
    editor. *)
Definition assignSpace (s : Space) (w : World) : World :=
  set_controls (set_space s (controls w)) w.

Definition hitAt (name : string) (p : Vector3) : list Intersection :=
  [mkIntersection name p].

Definition assignSnap (b : bool) (w : World) : World :=
  set_controls (set_snap b (controls w)) w.

(** A mesh under the root turned about the z axis by the angle of cosine
    -7/25 and sine 24/25, whose half has cosine 3/5 and sine 4/5. *)
Definition frac (a : Z) (b : positive) : Qc := Q2Qc (a # b).

Definition turn : Matrix4 :=
  placed (vec3 (frac (-7) 25) (frac 24 25) 0)
         (vec3 (frac (-24) 25) (frac (-7) 25) 0)
         (vec 0 0 1) (vec 0 0 0).

Definition turned : Object3D :=
  mkObject3D true false (Some 0%nat) v_zero (vec 1 1 1)
    (quat 0 0 (frac 4 5) (frac 3 5)) turn turn None.

(** The coordinates of a vector, as fractions. *)
Definition xyz (v : Vector3) : Q * Q * Q :=
  (this (vx v), this (vy v), this (vz v)).

(** The pointer pressed on the handle [ax] of the gizmo, the ray meeting
    the active plane at the origin. *)
Definition pressed (ax : string) (w : World) : World :=
  onPointerDown (hitAt ax v_zero) (hitAt "XY" v_zero) w.

(** Two meshes selected and the pointer pressed on the X handle, without
    and with snapping. *)
Definition twoMeshes : World :=
  attach [1; 2]%nat (fresh [mesh (vec3 half 0 0); mesh (vec3 (- half) 0 0)]).

Definition dragTwo : World := pressed "X" twoMeshes.

Definition snapTwo : World := pressed "X" (assignSnap true twoMeshes).

(** The turned mesh selected, in [LOCAL] space and with snapping, and the
    pointer pressed on the X handle. *)
Definition snapTurned : World :=
  pressed "X"
    (assignSnap true (assignSpace LOCAL (attach [1%nat] (fresh [turned])))).

(** One mesh at (1/2, 0, 0) selected, with snapping, and the pointer
    pressed on the X handle. *)
Definition snapOneBefore : World :=
  assignSnap true (attach [1%nat] (freshUnder half [mesh (vec3 half 0 0)])).

Definition snapOne : World := pressed "X" snapOneBefore.

(** One mesh at the origin, selected, in [SCALE] mode, after which the
    editor sets the space back to [WORLD]. *)
Definition scaleWorld : World :=
  assignSpace WORLD (setMode SCALE (attach [1%nat] (fresh [mesh v_zero]))).

(** One mesh at the origin selected and dragged along its X handle to
    (5, 0, 0), where the pointer is released. *)
Definition oneMesh : World := attach [1%nat] (fresh [mesh v_zero]).

Definition firstDrag : option World :=
  onPointerUp
    <$> onPointerMove 0 (hitAt "XY" (vec 5 0 0)) (pressed "X" oneMesh).

(** The pointer pressed on the X handle again, the ray missing the active
    plane this time, and then moved, the ray meeting the plane at
    (1, 0, 0). *)
Definition secondPress : option World :=
  onPointerDown (hitAt "X" v_zero) [] <$> firstDrag.

Definition secondMove : option World :=
  secondPress ≫= onPointerMove 0 (hitAt "XY" (vec 1 0 0)).

(** One mesh selected in [SCALE] mode, and the pointer pressed on a handle
    named [ax]. *)
Definition scalePressed (ax : string) : World :=
  pressed ax (setMode SCALE oneMesh).

(** A physics object with one box and a mesh, both selected in [SCALE]
    mode, and the pointer pressed on the X handle. *)
Definition scaleBoxAndMesh : World :=
  pressed "X"
    (setMode SCALE
       (attach [1; 2]%nat
          (fresh [physics (vec (-1) 0 0) [box]; mesh (vec 1 0 0)]))).

(** A mesh and a physics object without shapes, both selected in [SCALE]
    mode, and the pointer pressed on the X handle. *)
Definition scaleMeshAndBody : World :=
  pressed "X"
    (setMode SCALE
       (attach [1; 2]%nat
          (fresh [mesh (vec (-1) 0 0); physics (vec 1 0 0) []]))).

(** A matrix of scale [s] and translation [t], without rotation. *)
Definition scaled (s : Z) (t : Vector3) : Matrix4 :=
  placed (vec s 0 0) (vec 0 s 0) (vec 0 0 s) t.

(** A group of scale 2 under the root, at the origin. *)
Definition group : Object3D :=
  mkObject3D true false (Some 0%nat) v_zero (vec 2 2 2) q_identity
    (scaled 2 v_zero) (scaled 2 v_zero) None.

(** A mesh at (-1/2, 0, 0) under the object [p], which is the group: it is
    at (-1, 0, 0) in the world, and of scale 2 there. *)
Definition meshUnderGroup (p : ref) : Object3D :=
  mkObject3D true false (Some p) (vec3 (- half) 0 0) (vec 1 1 1) q_identity
    (at_ (vec3 (- half) 0 0)) (scaled 2 (vec (-1) 0 0)) None.

(** The group at reference 1, a mesh at (1/2, 0, 0) under the root at
    reference 2 and the mesh under the group at reference 3; the two
    meshes selected in the order given, the camera straight above the
    middle of them, and the pointer pressed on the X handle. *)
Definition twoFrames (sel : list ref) : World :=
  pressed "X"
    (attach sel
       (freshUnder (frac (-1) 4)
          [group; mesh (vec3 half 0 0); meshUnderGroup 1%nat])).

End Scenes.

(** A closed statement about a scene, by computation. *)
Ltac computed := vm_compute; first [reflexivity | discriminate | lia].

(** ** Vocabulary of the statements *)

Section Vocabulary.
Context {N : JsNumber} {L : Library} {G : GizmoTables}.

(** What the pose and the drag read of the controls, besides the
    attributes, and do not write. *)
Definition settings (c : TransformControls) :=
  (objects c, space c, snap c, translationSnap c, rotationSnap c, mode c,
   axis c, dragging c, editing c, offset c, size c, lookAtMatrix c,
   children c).

(** The part of a slot of attributes that [onPointerDown] takes down. *)
Definition snapshot (a : TransformControlAtttributes) :=
  (parentRotationMatrix a, parentScale a, worldRotationMatrix a,
   oldPosition a, oldScale a, oldQuaternion a, oldRotationMatrix a).

Definition snapshots (c : TransformControls) := map snapshot (attributes c).

(** What the world holds besides the controls. *)
Definition surroundings (w : World) :=
  (scene w, camera w, history w, gizmoLog w, nextGizmo w).

(** What a step of [updatePose] keeps: everything but the pose of the
    controls and the world position and rotation of the slots. *)
Definition keeps (w' w : World) : Prop :=
  settings (controls w') = settings (controls w)
  ∧ snapshots (controls w') = snapshots (controls w)
  ∧ length (attributes (controls w')) = length (attributes (controls w))
  ∧ point (controls w') = point (controls w)
  ∧ surroundings w' = surroundings w.

(** What a turn of a drag keeps: everything but [point], [toolScale] and
    the scene. *)
Definition steady (w' w : World) : Prop :=
  settings (controls w') = settings (controls w)
  ∧ attributes (controls w') = attributes (controls w)
  ∧ gizmo (controls w') = gizmo (controls w)
  ∧ (camera w', history w', gizmoLog w', nextGizmo w')
    = (camera w, history w, gizmoLog w, nextGizmo w).

(** The vector that a translation adds to the old positions, from the slot
    [a] of attributes. *)
Definition translateDelta (c : TransformControls) (ax : string)
  (hit : Vector3) (a : TransformControlAtttributes) : Vector3 :=
  let p := maskAxes ax (v_multiply (v_sub hit (offset c)) (parentScale a)) in
  if decide (space c = WORLD ∨ found "XYZ" ax = true) then
    v_applyMatrix4 p (m_getInverse (parentRotationMatrix a))
  else if decide (1 < String.length ax) then
    v_applyMatrix4 (v_applyMatrix4 p (m_getInverse (worldRotationMatrix a)))
      (oldRotationMatrix a)
  else v_applyMatrix4 p (oldRotationMatrix a).

(** The snapping of a position, in the frame of the world rotation of the
    slot [a] when the space is [LOCAL]. *)
Definition snapPosition (c : TransformControls) (ax : string)
  (a : TransformControlAtttributes) (p : Vector3) : Vector3 :=
  match space c with
  | LOCAL =>
      v_applyMatrix4
        (snapAxes ax (translationSnap c)
           (v_applyMatrix4 p (m_getInverse (worldRotationMatrix a))))
        (worldRotationMatrix a)
  | WORLD => snapAxes ax (translationSnap c) p
  end.

(** The change actions that a release emits for the selected object [i]:
    one for each component of the vector of the mode. *)
Definition releasedActions (w : World) (i : nat) : list ChangeAction :=
  let c := controls w in
  let r := objectAt c i in
  let a := attributeAt c i in
  if decide (mode c = TRANSLATE) then
    vectorActions (PositionOf r) (position (scene w r)) (oldPosition a)
  else if decide (mode c = SCALE) then
    vectorActions (ScaleOf r) (scale (scene w r)) (oldScale a)
  else if decide (mode c = ROTATE) then
    quaternionActions (QuaternionOf r) (quaternion (scene w r))
      (oldQuaternion a)
  else [].

(** [v.negate()] *)
Definition v_negate (v : Vector3) : Vector3 :=
  vec3 (nneg (vx v)) (nneg (vy v)) (nneg (vz v)).

(** The laws of exact arithmetic that the round trip of a translation
    rests on, and the one fact it needs of the library: the inverse of a
    matrix that [extractRotation] returns has no translation. *)
Class Exactness : Prop := {
  add_0_r : ∀ x : num, x ⊕ lit 0 = x;
  sub_diag : ∀ x : num, x ⊖ x = lit 0;
  mul_0_l : ∀ x : num, lit 0 ⊗ x = lit 0;
  mul_0_r : ∀ x : num, x ⊗ lit 0 = lit 0;
  add_neg : ∀ x d : num, (x ⊕ d) ⊕ nneg d = x;
  inverse_of_rotation :
    ∀ m : Matrix4,
      e12 (m_getInverse (m_extractRotation m)) = lit 0
      ∧ e13 (m_getInverse (m_extractRotation m)) = lit 0
      ∧ e14 (m_getInverse (m_extractRotation m)) = lit 0
}.

End Vocabulary.

(** ** More vocabulary *)

Section Closed.
Context {N : JsNumber} {L : Library} {G : GizmoTables}.

(** A slot of attributes after the turn of the loop of [updatePose] for the
    object [o]. *)
Definition posedSlot (o : Object3D) (a : TransformControlAtttributes)
  : TransformControlAtttributes :=
  set_worldRotation
    (euler_setFromRotationMatrix (m_extractRotation (matrixWorld o)))
    (set_worldPosition (v_setFromMatrixPosition (matrixWorld o)) a).

(** The slots after the first [k] turns of that loop, and the sum of the
    world positions of the first [k] selected objects. *)
Definition posedSlots (k : nat) (w : World)
  : list TransformControlAtttributes :=
  imap (λ i a,
          if decide (i < k)
          then posedSlot (scene w (objectAt (controls w) i)) a
          else a)
    (attributes (controls w)).

Definition sumPositions (k : nat) (w : World) (p : Vector3) : Vector3 :=
  fold_left
    (λ p i,
       v_add p
         (v_setFromMatrixPosition
            (matrixWorld (scene w (objectAt (controls w) i)))))
    (seq 0 k) p.

(** The place of the controls: the mean of the world positions, from their
    sum [s] and their number [n]. *)
Definition centre (s : Vector3) (n : nat) : Vector3 :=
  if decide (0 < n) then v_divideScalar s (lit (Z.of_nat n)) else s.

(** [toolScale], for the controls at [pos]. *)
Definition toolScaleAt (cam : Camera) (sz : num) (pos : Vector3) : num :=
  if isPerspectiveCamera cam
  then v_distanceTo pos (v_setFromMatrixPosition (cameraMatrixWorld cam))
       ⊘ lit 6 ⊗ sz
  else cameraSize cam ⊘ lit 6 ⊗ sz.

(** The direction of the camera seen from [pos]. *)
Definition eyeFrom (cam : Camera) (pos : Vector3) : Vector3 :=
  v_normalize (v_sub (v_setFromMatrixPosition (cameraMatrixWorld cam)) pos).

(** The gizmo at the end of [updatePose], the first slot of attributes
    being [a] and the direction of the camera [e]. *)
Definition posedGizmo (c : TransformControls) (a : TransformControlAtttributes)
  (e : Vector3) : TransformGizmo :=
  highlight (axis c)
    (if decide (space c = LOCAL ∨ mode c = SCALE)
     then update (worldRotation a) e (gizmo c)
     else if decide (space c = WORLD)
     then update euler_new e (gizmo c)
     else gizmo c).

(** What a press takes down of the object [o]. *)
Definition snapshotOf (w : World) (o : Object3D) :=
  (m_extractRotation (parentMatrixWorld w o),
   v_setFromMatrixScale (m_getInverse (parentMatrixWorld w o)),
   m_extractRotation (matrixWorld o),
   position o, scale o, quaternion o,
   m_extractRotation (matrix o)).

(** A scene object without its position, without its quaternion, and
    without its scale and body. *)
Definition besidesPosition (o : Object3D) :=
  (isObject3D o, locked o, parent o, scale o, quaternion o, matrix o,
   matrixWorld o, body o).

Definition besidesQuaternion (o : Object3D) :=
  (isObject3D o, locked o, parent o, position o, scale o, matrix o,
   matrixWorld o, body o).

Definition besidesScale (o : Object3D) :=
  (isObject3D o, locked o, parent o, position o, quaternion o, matrix o,
   matrixWorld o).

(** The scene [s'] is the scene [s] but for the objects of [sel], of
    which it has kept the part [keep]. *)
Definition touches {T : Type} (keep : Object3D → T) (sel : list ref)
  (s' s : ref → Object3D) : Prop :=
  ∀ r, keep (s' r) = keep (s r) ∧ (r ∉ sel → s' r = s r).

(** The quaternion [q] turned about the axis that the token names, if it
    names one of X, Y and Z. *)
Definition turnAbout (ax : string) (q qX qY qZ : Quaternion) : Quaternion :=
  if decide (ax = "X") then q_multiplyQuaternions q qX
  else if decide (ax = "Y") then q_multiplyQuaternions q qY
  else if decide (ax = "Z") then q_multiplyQuaternions q qZ
  else q.

(** The quaternion that a rotation gives to the object of the slot [a],
    for a token other than XYZE. *)
Definition rotationOf (c : TransformControls) (ax : string) (hit : Vector3)
  (a : TransformControlAtttributes) : Quaternion :=
  let p := dragPoint hit (worldPosition a) a in
  let t := dragPoint (offset c) (worldPosition a) a in
  let fromParent :=
    q_setFromRotationMatrix (m_getInverse (parentRotationMatrix a)) in
  let world := q_setFromRotationMatrix (worldRotationMatrix a) in
  if decide (ax = "E") then
    let back := m_getInverse (lookAtMatrix c) in
    q_multiplyQuaternions
      (q_multiplyQuaternions fromParent
         (q_setFromAxisAngle (eye c)
            (vz (angles (v_applyMatrix4 p back))
             ⊖ vz (angles (v_applyMatrix4 t back)))))
      world
  else
    match space c with
    | LOCAL =>
        let back := m_getInverse (worldRotationMatrix a) in
        let tool := angles (v_applyMatrix4 p back) in
        let off := angles (v_applyMatrix4 t back) in
        turnAbout ax (q_setFromRotationMatrix (oldRotationMatrix a))
          (axisQuaternion c unitX (vx tool) (vx off))
          (axisQuaternion c unitY (vy tool) (vy off))
          (axisQuaternion c unitZ (vz tool) (vz off))
    | WORLD =>
        let tool := angles p in
        let off := angles t in
        q_multiplyQuaternions
          (turnAbout ax fromParent
             (axisQuaternion c unitX (vx tool) (vx off))
             (axisQuaternion c unitY (vy tool) (vy off))
             (axisQuaternion c unitZ (vz tool) (vz off)))
          world
    end.

(** The scale that a scaling along one axis gives to an object of scale
    [s], from its slot [a]: the old scale on the axis of the token times 1
    plus the drag on that axis, taken back by the world rotation. *)
Definition scaledAlong (c : TransformControls) (ax : string) (hit : Vector3)
  (a : TransformControlAtttributes) (s : Vector3) : Vector3 :=
  let p :=
    v_applyMatrix4 (dragPoint hit (offset c) a)
      (m_getInverse (worldRotationMatrix a)) in
  if decide (ax = "X") then set_vx (vx (oldScale a) ⊗ (lit 1 ⊕ vx p)) s
  else if decide (ax = "Y") then set_vy (vy (oldScale a) ⊗ (lit 1 ⊕ vy p)) s
  else if decide (ax = "Z") then set_vz (vz (oldScale a) ⊗ (lit 1 ⊕ vz p)) s
  else s.

(** A shape follows the scale [s]. *)
Definition follows (s : Vector3) (sh' sh : Shape) : Prop :=
  stype sh' = stype sh
  ∧ match stype sh with
    | BOX =>
        halfExtents sh'
        = vec3 (vx s ⊘ lit 2) (vy s ⊘ lit 2) (vz s ⊘ lit 2)
        ∧ radius sh' = radius sh
    | SPHERE => radius sh' = vx s ∧ halfExtents sh' = halfExtents sh
    | OTHER_SHAPE => sh' = sh
    end.

(** What no handler of the pointer and no pose changes: the selection and
    the settings, the number of slots, the gizmo in use, the camera and the
    record of the gizmos built. *)
Definition configuration (w : World) :=
  let c := controls w in
  (objects c, mode c, space c, snap c, translationSnap c, rotationSnap c,
   size c, lookAtMatrix c, children c, length (attributes c),
   gid (gizmo c), kind (gizmo c), camera w, gizmoLog w, nextGizmo w).

(** The controls are shown only with a selection. *)
Definition shown (c : TransformControls) : Prop :=
  visible c = true → objects c ≠ [].

(** No edit without a drag. *)
Definition editingDrags (c : TransformControls) : Prop :=
  editing c = true → dragging c = true.

(** The gizmo in use is the one of the mode and the only child of the
    controls; or it is still the base gizmo that the constructor builds,
    which is not a child, the mode being [TRANSLATE]. *)
Definition gizmoOfMode (c : TransformControls) : Prop :=
  (kind (gizmo c) = gizmoFor (mode c) ∧ children c = [gid (gizmo c)])
  ∨ (kind (gizmo c) = GizmoBase ∧ mode c = TRANSLATE ∧ children c = []).

(** With a selection and a gizmo in use, the last call of [highlight] for
    every mesh of the gizmo was made for [axis]. *)
Definition highlit (c : TransformControls) : Prop :=
  objects c ≠ [] → mode c ≠ NONE →
  Forall (λ n, highlighted n = None
               ∨ highlighted n = Some (nameIs (nname n) (axis c)))
    (nodes (gizmo c)).

(** What holds of the controls after every pose, and at all times. *)
Definition wellShown (c : TransformControls) : Prop :=
  shown c ∧ slots c ∧ lookAtMatrix c = m_identity ∧ gizmoOfMode c
  ∧ highlit c.

Definition sound (c : TransformControls) : Prop :=
  editingDrags c ∧ wellShown c.

End Closed.

(** The place of the button [j] of the side bar on a bar of width [sz]:
    210 for the first one, and the place of the one before plus [sz]. *)
Definition placeOf {N : JsNumber} (sz : num) (j : nat) : num :=
  Nat.iter j (λ p, p ⊕ sz) (lit 210).

(** ** Runs *)

Section Runs.
Context {N : JsNumber} {L : Library} {G : GizmoTables} {C : JsCompare}.

(** What the editor does with the controls: it calls their methods,
    assigns their public attributes [space] and [snap], and changes the
    scene and the camera in between. *)
Inductive Call :=
  | Attach (objs : list ref)
  | Clear
  | SetMode (m : string)
  | UpdatePose
  | PointerHover (pickers : list Intersection)
  | PointerDown (pickers plane : list Intersection)
  | PointerMove (fuel : nat) (plane : list Intersection)
  | PointerUp
  | Update (fuel : nat) (m : Mouse) (r : Rays)
  | AssignSpace (s : Space)
  | AssignSnap (b : bool)
  | Edit (sc : ref → Object3D) (cam : Camera).

Definition run (k : Call) (w : World) : option World :=
  match k with
  | Attach objs => Some (attach objs w)
  | Clear => Some (clear w)
  | SetMode m => Some (setMode m w)
  | UpdatePose => Some (updatePose w)
  | PointerHover pickers => Some (onPointerHover pickers w)
  | PointerDown pickers plane => Some (onPointerDown pickers plane w)
  | PointerMove fuel plane => onPointerMove fuel plane w
  | PointerUp => Some (onPointerUp w)
  | Update fuel m r => fst <$> Controls.update fuel m r w
  | AssignSpace s => Some (set_controls (set_space s (controls w)) w)
  | AssignSnap b => Some (set_controls (set_snap b (controls w)) w)
  | Edit sc cam =>
      Some (mkWorld (controls w) sc cam (history w) (gizmoLog w)
              (nextGizmo w))
  end.

(** The calls of a list, in order; [None] when one of them does not end. *)
Fixpoint runs (l : list Call) (w : World) : option World :=
  match l with
  | [] => Some w
  | k :: l' => run k w ≫= runs l'
  end.

(** The editor when the controls have just been built. *)
Definition initial (sc : ref → Object3D) (cam : Camera) : World :=
  mkWorld (newTransformControls 0) sc cam [] [] 1.

Global Instance parented_dec (w : World) : Decision (parented w) :=
  ltac:(unfold parented; apply _).

(** Whether a call presses the pointer. *)
Definition presses (k : Call) : bool :=
  match k with
  | PointerDown _ _ => true
  | Update _ m _ => leftJustPressed m
  | _ => false
  end.

(** Whether every press of the calls of a list finds the selected objects
    with a parent, so that none throws. *)
Fixpoint pressesParented (l : list Call) (w : World) : bool :=
  match l with
  | [] => true
  | k :: l' =>
      (negb (presses k) || bool_decide (parented w))
      && match run k w with
         | Some w' => pressesParented l' w'
         | None => true
         end
  end.

End Runs.

(** ** More scenes for the examples *)

Module Stories.
Import Exact Scenes.
Local Open Scope Qc_scope.

(** [a === b] on the rationals. *)
Definition same (a b : Qc) : bool := if Qc_eq_dec a b then true else false.

Global Instance compare : JsCompare := Build_JsCompare Exact.number same.

(** A sphere of radius 1. *)
Definition ball : Shape := mkShape SPHERE v_zero 1.

(** A physics object with a box and a sphere, selected in [SCALE] mode,
    and the pointer pressed on the X handle. *)
Definition scaleBody : World :=
  pressed "X"
    (setMode SCALE (attach [1%nat] (fresh [physics v_zero [box; ball]]))).

(** Two meshes of which the first is selected, and the pointer pressed on
    the X handle. *)
Definition oneOfTwo : World :=
  pressed "X"
    (attach [1%nat] (fresh [mesh v_zero; mesh (vec 0 3 0)])).

(** The mouse of a frame: the left button pressed, released, pressed and
    released within the frame, the pointer moved, and nothing of it. *)
Definition mousePressed : Mouse := mkMouse true false 0 0.
Definition mouseReleased : Mouse := mkMouse false true 0 0.
Definition mouseClicked : Mouse := mkMouse true true 0 0.
Definition mouseMoved : Mouse := mkMouse false false 1 0.
Definition mouseIdle : Mouse := mkMouse false false 0 0.

(** The ray of a frame: on the X picker and, on the active plane, at the
    origin for the press and at [p] for the move. *)
Definition raysTo (p : Vector3) : Rays :=
  mkRays (hitAt "X" v_zero) (hitAt "XY" v_zero) (hitAt "X" v_zero)
    (hitAt "XY" p).

(** A session of the editor: a mesh is selected, dragged along X by 2 in
    two frames and released; the mode is changed to [SCALE]; the selection
    is emptied. *)
Definition session : list Call :=
  [Attach [1%nat];
   Update 1 mousePressed (raysTo v_zero);
   Update 1 mouseMoved (raysTo (vec 2 0 0));
   Update 1 mouseReleased (raysTo (vec 2 0 0));
   SetMode SCALE;
   PointerHover (hitAt "Y" v_zero);
   Attach []].

(** The same session up to the hover. *)
Definition sessionHovering : list Call := take 6 session.

Definition studio : World := initial (sceneOf [mesh v_zero]) (viewer 0).

(** [a < b] on the rationals. *)
Definition less (a b : Qc) : bool := if Qclt_le_dec a b then true else false.

Global Instance order : JsOrder := Build_JsOrder Exact.number less.

(** A side bar of the given width and height with the eight buttons of
    [createObject], none of them placed yet. *)
Definition unplaced : SideBar.ButtonDrawer :=
  SideBar.mkDrawer false (0, 0) (0, 0) (0, 0) false [].

Definition bar (width height : Z) : SideBar.SideBar :=
  SideBar.mkSideBar (ofZ width, ofZ height) (replicate 8 unplaced) unplaced
    true.

(** Where the buttons of a bar are after [updateSize], for those that are
    visible; the buttons in the drawer, which comes with its place when
    visible; and whether the text is shown. *)
Definition layout (s : SideBar.SideBar)
  : list Q * (option Q * list nat) * bool :=
  let s' := SideBar.updateSize s in
  (map (λ b, this (snd (SideBar.position b)))
     (filter (λ b, SideBar.visible b = true) (SideBar.buttons s')),
   (if SideBar.visible (SideBar.more s')
    then Some (this (snd (SideBar.position (SideBar.more s'))))
    else None,
    SideBar.inserted (SideBar.more s')),
   SideBar.addTextVisible s').

End Stories.

(** ** Symbolic arithmetic

    The real numbers of the examples that turn an object: the rationals,
    computed, and the numbers that are not rational (roots, angles, sines
    and cosines) kept as the expression that the code evaluates.  The
    operations on rationals are carried out, and so are the sums with 0
    and the products by 0 and 1; every other operation is written down.
    The functions of the 3D library are given as the library computes
    them. *)

Module Symbolic.

Local Open Scope Qc_scope.

Inductive Unary := Neg | Round | Sqrt | Sin | Cos | Acos.

Inductive Binary := Add | Sub | Mul | Div | Atan2.

(** [IfPositive c a b] is [a] when [c > 0] and [b] otherwise. *)
Inductive Real :=
  | Rat (q : Qc)
  | Un (o : Unary) (a : Real)
  | Bin (o : Binary) (a b : Real)
  | IfPositive (c a b : Real).

Definition isRat (q : Qc) (a : Real) : bool :=
  match a with
  | Rat p => if Qc_eq_dec p q then true else false
  | _ => false
  end.

Definition add (a b : Real) : Real :=
  match a, b with
  | Rat p, Rat q => Rat (p + q)
  | _, _ => if isRat 0 a then b else if isRat 0 b then a else Bin Add a b
  end.

Definition sub (a b : Real) : Real :=
  match a, b with
  | Rat p, Rat q => Rat (p - q)
  | _, _ => if isRat 0 b then a else Bin Sub a b
  end.

Definition mul (a b : Real) : Real :=
  match a, b with
  | Rat p, Rat q => Rat (p * q)
  | _, _ =>
      if isRat 0 a || isRat 0 b then Rat 0
      else if isRat 1 a then b
      else if isRat 1 b then a
      else Bin Mul a b
  end.

Definition div (a b : Real) : Real :=
  match a, b with
  | Rat p, Rat q => if Qc_eq_dec q 0 then Bin Div a b else Rat (p / q)
  | _, _ => Bin Div a b
  end.

Definition neg (a : Real) : Real :=
  match a with
  | Rat p => Rat (- p)
  | _ => Un Neg a
  end.

Definition round (a : Real) : Real :=
  match a with
  | Rat p => Rat (Exact.round p)
  | _ => Un Round a
  end.

(** [Math.sqrt]: the root of a rational that has a rational root. *)
Definition sqrt (a : Real) : Real :=
  match a with
  | Rat p =>
      if Qc_eq_dec (Exact.sqrt p * Exact.sqrt p) p then Rat (Exact.sqrt p)
      else Un Sqrt a
  | _ => Un Sqrt a
  end.

(** [Math.sin], [Math.cos] and [Math.acos]: rational at 0, 0 and 1. *)
Definition sin (a : Real) : Real := if isRat 0 a then Rat 0 else Un Sin a.

Definition cos (a : Real) : Real := if isRat 0 a then Rat 1 else Un Cos a.

Definition acos (a : Real) : Real := if isRat 1 a then Rat 0 else Un Acos a.

(** [Math.atan2]: 0 on the positive x axis and at the origin. *)
Definition atan2 (y x : Real) : Real :=
  match y, x with
  | Rat p, Rat q =>
      if Qc_eq_dec p 0 then
        if Qclt_le_dec q 0 then Bin Atan2 y x else Rat 0
      else Bin Atan2 y x
  | _, _ => Bin Atan2 y x
  end.

(** [c > 0 ? a : b] *)
Definition ifPositive (c a b : Real) : Real :=
  match c with
  | Rat q => if Qclt_le_dec 0 q then a else b
  | _ => IfPositive c a b
  end.

(** [c === 0 ? a : b] *)
Definition ifZero (c a b : Real) : Real :=
  ifPositive c b (ifPositive (neg c) b a).

#[local] Instance number : JsNumber := {|
  num := Real;
  lit := λ z, Rat (Exact.ofZ z);
  nadd := add;
  nsub := sub;
  nmul := mul;
  ndiv := div;
  nneg := neg;
  nround := round
|}.

(** The matrix as its four rows. *)
Definition rows (m : Matrix4) : list (list Real) :=
  [[e0 m; e4 m; e8 m; e12 m];
   [e1 m; e5 m; e9 m; e13 m];
   [e2 m; e6 m; e10 m; e14 m];
   [e3 m; e7 m; e11 m; e15 m]].

Definition entry (r : list (list Real)) (i j : nat) : Real :=
  nth j (nth i r []) (lit 0).

Definition ofEntries (f : nat → nat → Real) : Matrix4 :=
  (mat4 (f 0 0) (f 1 0) (f 2 0) (f 3 0)
        (f 0 1) (f 1 1) (f 2 1) (f 3 1)
        (f 0 2) (f 1 2) (f 2 2) (f 3 2)
        (f 0 3) (f 1 3) (f 2 3) (f 3 3))%nat.

(** The determinant, by expansion along the first row. *)
Fixpoint det (n : nat) (r : list (list Real)) : Real :=
  match n with
  | O => lit 1
  | S n' =>
      fold_left
        (λ acc j,
           let m := det n' (map (Exact.dropAt j) (Exact.dropAt 0%nat r)) in
           if Nat.even j
           then acc ⊕ entry r 0%nat j ⊗ m
           else acc ⊖ entry r 0%nat j ⊗ m)
        (seq 0%nat (S n')) (lit 0)
  end.

Definition cofactor (r : list (list Real)) (i j : nat) : Real :=
  let d := det 3%nat (map (Exact.dropAt j) (Exact.dropAt i r)) in
  if Nat.even (i + j)%nat then d else nneg d.

(** [getInverse]: the identity when the determinant is 0. *)
Definition inverse (m : Matrix4) : Matrix4 :=
  let r := rows m in
  let d := det 4%nat r in
  ofEntries
    (λ i j, ifZero d (entry (rows m_identity) i j) (cofactor r j i ⊘ d)).

Definition columnLength (x y z : Real) : Real :=
  sqrt (x ⊗ x ⊕ y ⊗ y ⊕ z ⊗ z).

(** [extractRotation]: the columns of the upper 3x3 part, each divided by
    its length. *)
Definition extractRotation (m : Matrix4) : Matrix4 :=
  let sx := lit 1 ⊘ columnLength (e0 m) (e1 m) (e2 m) in
  let sy := lit 1 ⊘ columnLength (e4 m) (e5 m) (e6 m) in
  let sz := lit 1 ⊘ columnLength (e8 m) (e9 m) (e10 m) in
  mat4 (e0 m ⊗ sx) (e1 m ⊗ sx) (e2 m ⊗ sx) (lit 0)
       (e4 m ⊗ sy) (e5 m ⊗ sy) (e6 m ⊗ sy) (lit 0)
       (e8 m ⊗ sz) (e9 m ⊗ sz) (e10 m ⊗ sz) (lit 0)
       (lit 0) (lit 0) (lit 0) (lit 1).

Definition setFromMatrixScale (m : Matrix4) : Vector3 :=
  vec3 (columnLength (e0 m) (e1 m) (e2 m))
       (columnLength (e4 m) (e5 m) (e6 m))
       (columnLength (e8 m) (e9 m) (e10 m)).

Definition divideScalar (v : Vector3) (s : Real) : Vector3 :=
  v_multiplyScalar v (lit 1 ⊘ s).

Definition vlength (v : Vector3) : Real := columnLength (vx v) (vy v) (vz v).

(** [normalize]: [divideScalar(length() || 1)]. *)
Definition normalize (v : Vector3) : Vector3 :=
  divideScalar v (ifPositive (vlength v) (vlength v) (lit 1)).

Definition dot (a b : Vector3) : Real :=
  vx a ⊗ vx b ⊕ vy a ⊗ vy b ⊕ vz a ⊗ vz b.

Definition cross (a b : Vector3) : Vector3 :=
  vec3 (vy a ⊗ vz b ⊖ vz a ⊗ vy b)
       (vz a ⊗ vx b ⊖ vx a ⊗ vz b)
       (vx a ⊗ vy b ⊖ vy a ⊗ vx b).

(** [Math.max(lo, Math.min(hi, x))] *)
Definition clamp (x lo hi : Real) : Real :=
  let u := ifPositive (hi ⊖ x) x hi in
  ifPositive (u ⊖ lo) u lo.

(** [angleTo]: the arc cosine of the clamped cosine of the angle. *)
Definition angleTo (a b : Vector3) : Real :=
  acos (clamp (dot a b ⊘ sqrt (dot a a ⊗ dot b b)) (lit (-1)) (lit 1)).

Definition multiplyQuaternions (a b : Quaternion) : Quaternion :=
  quat (qx a ⊗ qw b ⊕ qw a ⊗ qx b ⊕ qy a ⊗ qz b ⊖ qz a ⊗ qy b)
       (qy a ⊗ qw b ⊕ qw a ⊗ qy b ⊕ qz a ⊗ qx b ⊖ qx a ⊗ qz b)
       (qz a ⊗ qw b ⊕ qw a ⊗ qz b ⊕ qx a ⊗ qy b ⊖ qy a ⊗ qx b)
       (qw a ⊗ qw b ⊖ qx a ⊗ qx b ⊖ qy a ⊗ qy b ⊖ qz a ⊗ qz b).

(** [setFromAxisAngle]: the axis times the sine of half the angle, and the
    cosine of half the angle. *)
Definition setFromAxisAngle (axis : Vector3) (angle : Real) : Quaternion :=
  let h := angle ⊘ lit 2 in
  quat (vx axis ⊗ sin h) (vy axis ⊗ sin h) (vz axis ⊗ sin h) (cos h).

(** The choice between two quaternions, component by component. *)
Definition choose (c : Real) (a b : Quaternion) : Quaternion :=
  quat (ifPositive c (qx a) (qx b)) (ifPositive c (qy a) (qy b))
       (ifPositive c (qz a) (qz b)) (ifPositive c (qw a) (qw b)).

(** [setFromRotationMatrix]: by the trace when it is positive, and by the
    largest entry of the diagonal otherwise. *)
Definition setFromRotationMatrix (m : Matrix4) : Quaternion :=
  let m11 := e0 m in let m12 := e4 m in let m13 := e8 m in
  let m21 := e1 m in let m22 := e5 m in let m23 := e9 m in
  let m31 := e2 m in let m32 := e6 m in let m33 := e10 m in
  let trace := m11 ⊕ m22 ⊕ m33 in
  let half := lit 1 ⊘ lit 2 in
  let quarter := lit 1 ⊘ lit 4 in
  let byTrace :=
    let s := half ⊘ sqrt (trace ⊕ lit 1) in
    quat ((m32 ⊖ m23) ⊗ s) ((m13 ⊖ m31) ⊗ s) ((m21 ⊖ m12) ⊗ s)
      (quarter ⊘ s) in
  let byX :=
    let s := lit 2 ⊗ sqrt (lit 1 ⊕ m11 ⊖ m22 ⊖ m33) in
    quat (quarter ⊗ s) ((m12 ⊕ m21) ⊘ s) ((m13 ⊕ m31) ⊘ s)
      ((m32 ⊖ m23) ⊘ s) in
  let byY :=
    let s := lit 2 ⊗ sqrt (lit 1 ⊕ m22 ⊖ m11 ⊖ m33) in
    quat ((m12 ⊕ m21) ⊘ s) (quarter ⊗ s) ((m23 ⊕ m32) ⊘ s)
      ((m13 ⊖ m31) ⊘ s) in
  let byZ :=
    let s := lit 2 ⊗ sqrt (lit 1 ⊕ m33 ⊖ m11 ⊖ m22) in
    quat ((m13 ⊕ m31) ⊘ s) ((m23 ⊕ m32) ⊘ s) (quarter ⊗ s)
      ((m21 ⊖ m12) ⊘ s) in
  let rest := choose (m22 ⊖ m33) byY byZ in
  choose trace byTrace
    (choose (m11 ⊖ m22) (choose (m11 ⊖ m33) byX rest) rest).

(** [setFromEuler] in the order XYZ, the components of the vector being
    taken as the three angles. *)
Definition setFromEuler (v : Vector3) : Quaternion :=
  let c1 := cos (vx v ⊘ lit 2) in
  let c2 := cos (vy v ⊘ lit 2) in
  let c3 := cos (vz v ⊘ lit 2) in
  let s1 := sin (vx v ⊘ lit 2) in
  let s2 := sin (vy v ⊘ lit 2) in
  let s3 := sin (vz v ⊘ lit 2) in
  quat (s1 ⊗ c2 ⊗ c3 ⊕ c1 ⊗ s2 ⊗ s3) (c1 ⊗ s2 ⊗ c3 ⊖ s1 ⊗ c2 ⊗ s3)
       (c1 ⊗ c2 ⊗ s3 ⊕ s1 ⊗ s2 ⊗ c3) (c1 ⊗ c2 ⊗ c3 ⊖ s1 ⊗ s2 ⊗ s3).

(** The library over these numbers.  An [Euler] is kept as the rotation
    matrix it is made from. *)
#[local] Instance library : Library := {|
  Euler := Matrix4;
  euler_new := m_identity;
  euler_setFromRotationMatrix := λ m, m;
  m_extractRotation := extractRotation;
  m_getInverse := inverse;
  v_setFromMatrixScale := setFromMatrixScale;
  v_divideScalar := divideScalar;
  v_distanceTo := λ a b, vlength (v_sub a b);
  v_normalize := normalize;
  v_cross := cross;
  v_angleTo := angleTo;
  math_atan2 := atan2;
  q_setFromRotationMatrix := setFromRotationMatrix;
  q_setFromAxisAngle := setFromAxisAngle;
  q_setFromEuler := setFromEuler;
  q_multiplyQuaternions := multiplyQuaternions
|}.

(** The tables of the gizmos, as for the rationals. *)
Definition planeFor (k : GizmoKind) (ax : string) (eye : Vector3)
  (current : string) : string :=
  Exact.planeFor k ax v_zero current.

#[local] Instance gizmos : GizmoTables := {|
  handleGizmos := Exact.gizmoNames;
  pickerGizmos := Exact.gizmoNames;
  chooseActivePlane := planeFor;
  hasDismiss := λ _, true
|}.

Definition vec (x y z : Z) : Vector3 := vec3 (lit x) (lit y) (lit z).

(** The matrix of an object at [t], not rotated and of scale 1. *)
Definition at_ (t : Vector3) : Matrix4 :=
  mat4 (lit 1) (lit 0) (lit 0) (lit 0)
       (lit 0) (lit 1) (lit 0) (lit 0)
       (lit 0) (lit 0) (lit 1) (lit 0)
       (vx t) (vy t) (vz t) (lit 1).

Definition root : Object3D :=
  mkObject3D true false None v_zero (vec 1 1 1) q_identity m_identity
    m_identity None.

Definition mesh (p : Vector3) : Object3D :=
  mkObject3D true false (Some 0%nat) p (vec 1 1 1) q_identity (at_ p) (at_ p)
    None.

Definition sceneOf (l : list Object3D) : ref → Object3D :=
  λ r, match r with
       | O => root
       | S k => default root (l !! k)
       end.

(** Two meshes, at the origin and at (0, -2, 0), selected in [ROTATE]
    mode, the camera at distance 6 straight above the middle of them, and
    the pointer pressed on the X handle, the ray meeting the active plane
    at (0, 1, 0). *)
Definition rotateTwo : World :=
  onPointerDown [mkIntersection "X" v_zero] [mkIntersection "YZ" (vec 0 1 0)]
    (setMode ROTATE
       (attach [1; 2]%nat
          (mkWorld (newTransformControls 0%nat)
             (sceneOf [mesh v_zero; mesh (vec 0 (-2) 0)])
             (mkCamera (at_ (vec 0 (-1) 6)) true (lit 1)) [] [] 1%nat))).

End Symbolic.

(** ** Loops *)

Section Loops.
Context {St : Type}.

Lemma forIndices_S (n : nat) (body : nat → St → St) (s : St) :
  forIndices (S n) body s = body n (forIndices n body s).
Proof.
  unfold forIndices. rewrite seq_S, fold_left_app. reflexivity.
Qed.

Lemma forIndices_ind (P : St → Prop) (n : nat) (body : nat → St → St) (s : St) :
  P s → (∀ i s', i < n → P s' → P (body i s')) → P (forIndices n body s).
Proof.
  intros Hs Hbody. induction n as [|n IH].
  - exact Hs.
  - rewrite forIndices_S. apply Hbody; [lia|]. apply IH.
    intros i s' Hi. apply Hbody. lia.
Qed.

End Loops.

(** ** The pose *)

Section Pose.
Context {N : JsNumber} {L : Library} {G : GizmoTables}.

Lemma snapshot_insert_same (l : list TransformControlAtttributes) (i : nat)
  (a : TransformControlAtttributes) :
  snapshot a = snapshot (default newAttributes (l !! i)) →
  map snapshot (<[i := a]> l) = map snapshot l.
Proof.
  intros Ha. rewrite list_fmap_insert.
  destruct (l !! i) as [b|] eqn:Hb.
  - simpl in Ha. rewrite Ha. apply list_insert_id.
    rewrite list_lookup_fmap, Hb. reflexivity.
  - apply list_insert_ge. rewrite length_fmap. by apply lookup_ge_None.
Qed.

Lemma keeps_refl (w : World) : keeps w w.
Proof. done. Qed.

Lemma keeps_trans (w1 w2 w3 : World) : keeps w1 w2 → keeps w2 w3 → keeps w1 w3.
Proof.
  intros (H1 & H2 & H3 & H4 & H5) (K1 & K2 & K3 & K4 & K5).
  repeat split; congruence.
Qed.

Lemma poseObject_keeps (i : nat) (w : World) : keeps (poseObject i w) w.
Proof.
  unfold keeps, poseObject, snapshots. simpl. repeat split.
  - apply snapshot_insert_same. reflexivity.
  - apply length_insert.
Qed.

Lemma posed_keeps (n : nat) (w : World) : keeps (forIndices n poseObject w) w.
Proof.
  apply (forIndices_ind (λ w', keeps w' w)); [apply keeps_refl|].
  intros i w' _ H. eapply keeps_trans; [apply poseObject_keeps|done].
Qed.

Lemma posed_gizmo (n : nat) (w : World) :
  gizmo (controls (forIndices n poseObject w)) = gizmo (controls w).
Proof.
  by apply (forIndices_ind (λ w', gizmo (controls w') = gizmo (controls w))).
Qed.

Lemma placeControls_keeps (w : World) : keeps (placeControls w) w.
Proof. done. Qed.

Lemma orientGizmo_keeps (w : World) : keeps (orientGizmo w) w.
Proof. unfold orientGizmo. cbv zeta. by case_decide. Qed.

(** With a selection, [updatePose] keeps all of it; without, it clears the
    axis as well. *)
Lemma updatePose_keeps (w : World) :
  objects (controls w) ≠ [] → keeps (updatePose w) w.
Proof.
  intros Hne. unfold updatePose. cbv zeta.
  case_decide as Hn; [by apply length_zero_iff_nil in Hn|].
  case_decide; [apply keeps_refl|].
  eapply keeps_trans; [apply orientGizmo_keeps|].
  eapply keeps_trans; [apply placeControls_keeps|].
  eapply keeps_trans; [apply posed_keeps|]. done.
Qed.

Lemma clear_when_empty (w : World) :
  objects (controls w) = [] →
  objects (controls (clear w)) = objects (controls w)
  ∧ mode (controls (clear w)) = mode (controls w)
  ∧ space (controls (clear w)) = space (controls w)
  ∧ attributes (controls (clear w)) = attributes (controls w)
  ∧ surroundings (clear w) = surroundings w.
Proof. intros ->. done. Qed.

Lemma updatePose_cases (w : World) :
  (objects (controls w) = [] ∧ updatePose w = clear w)
  ∨ (objects (controls w) ≠ [] ∧ keeps (updatePose w) w).
Proof.
  destruct (objects (controls w)) as [|r l] eqn:Ho.
  - left. split; [done|]. unfold updatePose. cbv zeta.
    rewrite decide_True; [done|]. by rewrite Ho.
  - right. split; [done|]. apply updatePose_keeps. by rewrite Ho.
Qed.

Lemma updatePose_objects (w : World) :
  objects (controls (updatePose w)) = objects (controls w).
Proof.
  destruct (updatePose_cases w) as [[Ho ->]|[_ (H & _)]].
  - by rewrite Ho.
  - by injection H.
Qed.

Lemma updatePose_mode (w : World) :
  mode (controls (updatePose w)) = mode (controls w).
Proof.
  destruct (updatePose_cases w) as [[Ho ->]|[_ (H & _)]]; [done|].
  by injection H.
Qed.

Lemma updatePose_space (w : World) :
  space (controls (updatePose w)) = space (controls w).
Proof.
  destruct (updatePose_cases w) as [[Ho ->]|[_ (H & _)]]; [done|].
  by injection H.
Qed.

Lemma updatePose_surroundings (w : World) :
  surroundings (updatePose w) = surroundings w.
Proof.
  destruct (updatePose_cases w) as [[Ho ->]|[_ (_ & _ & _ & _ & H)]]; done.
Qed.

Lemma updatePose_scene (w : World) : scene (updatePose w) = scene w.
Proof. pose proof (updatePose_surroundings w) as H. by injection H. Qed.

Lemma updatePose_snapshots (w : World) :
  snapshots (controls (updatePose w)) = snapshots (controls w).
Proof.
  destruct (updatePose_cases w) as [[Ho ->]|[_ (_ & H & _)]]; done.
Qed.

Lemma updatePose_length (w : World) :
  length (attributes (controls (updatePose w)))
  = length (attributes (controls w)).
Proof.
  destruct (updatePose_cases w) as [[Ho ->]|[_ (_ & _ & H & _)]]; done.
Qed.

End Pose.

(** ** The selection *)

Section Selection.
Context {N : JsNumber} {L : Library} {G : GizmoTables}.

Lemma pushAttachable_filter (w : World) (objs sel : list ref) :
  fold_left (pushAttachable w) objs sel
  = sel ++ List.filter (attachable w) objs.
Proof.
  revert sel. induction objs as [|r objs IH]; intros sel; simpl.
  - by rewrite app_nil_r.
  - rewrite IH. unfold pushAttachable.
    destruct (attachable w r); [|done].
    by rewrite <- app_assoc.
Qed.

Lemma growAttributes_length (n : nat)
  (attrs : list TransformControlAtttributes) :
  n ≤ length (growAttributes n attrs).
Proof.
  unfold growAttributes.
  assert (H : ∀ k l, length (Nat.iter k (λ l, l ++ [newAttributes]) l)
                     = k + length l).
  { induction k as [|k IH]; intros l; simpl; [done|].
    rewrite length_app, IH. simpl. lia. }
  rewrite H. lia.
Qed.

(** C1.  After [attach(objects)] the selection is the list of the objects
    given that are 3D objects, not locked and with a parent, in the order in
    which they were given, whatever was selected before; the scene objects
    are as they were. *)
Theorem attach_selects (objs : list ref) (w : World) :
  objects (controls (attach objs w))
  = List.filter
      (λ r, isObject3D (scene w r) && negb (locked (scene w r))
            && bool_decide (parent (scene w r) ≠ None))
      objs
  ∧ scene (attach objs w) = scene w.
Proof.
  assert (Hf : List.filter (attachable w) objs
               = List.filter
                   (λ r, isObject3D (scene w r) && negb (locked (scene w r))
                         && bool_decide (parent (scene w r) ≠ None)) objs).
  { apply filter_ext. intros r. unfold attachable.
    by destruct (parent (scene w r)). }
  rewrite <- Hf. unfold attach. cbv zeta.
  rewrite pushAttachable_filter. simpl.
  case_decide as Hn.
  - by rewrite updatePose_objects, updatePose_scene.
  - simpl. split; [|done].
    destruct (List.filter (attachable w) objs); [done|simpl in Hn; lia].
Qed.

(** [attach] leaves a slot of attributes for every selected object. *)
Lemma attach_slots (objs : list ref) (w : World) :
  slots (controls (attach objs w)).
Proof.
  unfold slots, attach. cbv zeta. case_decide as Hn.
  - rewrite updatePose_objects, updatePose_length. simpl.
    apply growAttributes_length.
  - simpl. lia.
Qed.

End Selection.

(** ** The mode *)

Section Mode.
Context {N : JsNumber} {L : Library} {G : GizmoTables}.

Lemma setMode_mode (m : string) (w : World) :
  mode (controls (setMode m w)) = m.
Proof.
  unfold setMode. cbv zeta. case_decide as Hm; [done|].
  rewrite updatePose_mode. simpl. by case_decide.
Qed.

(** C6.  Calling [setMode] a second time with the same mode changes
    nothing: the controls, the gizmo in use and the record of the gizmos
    built and dismissed are those left by the first call. *)
Theorem setMode_idempotent (m : string) (w : World) :
  setMode m (setMode m w) = setMode m w.
Proof.
  generalize (setMode_mode m w). generalize (setMode m w). intros w' Hm.
  unfold setMode. cbv zeta. by case_decide.
Qed.

End Mode.

Section ModeSpace.
Context {N : JsNumber} {L : Library} {G : GizmoTables}.

Lemma setMode_space (m : string) (w : World) :
  space (controls (setMode m w))
  = if decide (mode (controls w) ≠ m ∧ m = SCALE) then LOCAL
    else space (controls w).
Proof.
  unfold setMode. cbv zeta. case_decide as Hm.
  - by rewrite decide_False by tauto.
  - rewrite updatePose_space. simpl.
    repeat case_decide; try done; tauto.
Qed.

Lemma objectAt_keeps (w' w : World) (i : nat) :
  keeps w' w → objectAt (controls w') i = objectAt (controls w) i.
Proof. intros (H & _). unfold objectAt. by injection H as ->. Qed.

(** The loop of the pose leaves the slots from [n] on as they are and sets
    the world position and rotation of those before [n]. *)
Lemma posed_slot (n i : nat) (w : World) :
  i < length (attributes (controls w)) →
  attributeAt (controls (forIndices n poseObject w)) i
  = if decide (i < n)
    then
      set_worldRotation
        (euler_setFromRotationMatrix
           (m_extractRotation
              (matrixWorld (scene w (objectAt (controls w) i)))))
        (set_worldPosition
           (v_setFromMatrixPosition
              (matrixWorld (scene w (objectAt (controls w) i))))
           (attributeAt (controls w) i))
    else attributeAt (controls w) i.
Proof.
  intros Hi. induction n as [|n IH]; [done|].
  rewrite forIndices_S.
  pose proof (posed_keeps n w) as Hk.
  pose proof (objectAt_keeps _ _ n Hk) as Ho.
  destruct Hk as (_ & _ & Hlen & _ & Hs).
  injection Hs as Hsc _ _ _ _.
  unfold attributeAt at 1. unfold poseObject at 1. simpl.
  destruct (decide (i = n)) as [->|Hne].
  - rewrite list_lookup_insert_eq by lia. simpl.
    rewrite decide_True by lia. rewrite decide_False in IH by lia.
    fold (attributeAt (controls (forIndices n poseObject w)) n).
    by rewrite IH, Hsc, Ho.
  - rewrite list_lookup_insert_ne by done.
    fold (attributeAt (controls (forIndices n poseObject w)) i).
    rewrite IH. repeat case_decide; try done; lia.
Qed.

Lemma orientGizmo_scale (w : World) :
  mode (controls w) = SCALE →
  gizmo (controls (orientGizmo w))
  = highlight (axis (controls w))
      (update (worldRotation (attributeAt (controls w) 0)) (eye (controls w))
         (gizmo (controls w)))
  ∧ eye (controls (orientGizmo w)) = eye (controls w).
Proof.
  intros Hm. unfold orientGizmo. cbv zeta.
  rewrite decide_True by (rewrite Hm; done).
  rewrite decide_True by (right; done). done.
Qed.

(** The gizmo after [updatePose] in [SCALE] mode. *)
Lemma updatePose_scale_gizmo (w : World) :
  mode (controls w) = SCALE → objects (controls w) ≠ [] →
  slots (controls w) →
  gizmo (controls (updatePose w))
  = highlight (axis (controls w))
      (update
         (euler_setFromRotationMatrix
            (m_extractRotation
               (matrixWorld (scene w (objectAt (controls w) 0)))))
         (eye (controls (updatePose w)))
         (gizmo (controls w))).
Proof.
  intros Hm Hne Hslots.
  assert (Hn : 0 < length (objects (controls w))).
  { destruct (objects (controls w)); [done|simpl; lia]. }
  unfold slots in Hslots.
  unfold updatePose. cbv zeta.
  rewrite decide_False by lia.
  rewrite decide_False by (rewrite Hm; done).
  set (w0 := set_controls _ w).
  set (w1 := forIndices _ poseObject w0).
  assert (Hk : keeps (placeControls w1) w).
  { eapply keeps_trans; [apply placeControls_keeps|].
    eapply keeps_trans; [apply posed_keeps|done]. }
  assert (Hmode : mode (controls (placeControls w1)) = SCALE).
  { rewrite <- Hm. destruct Hk as (Hs & _). by injection Hs. }
  assert (Haxis : axis (controls (placeControls w1)) = axis (controls w)).
  { destruct Hk as (Hs & _). by injection Hs. }
  destruct (orientGizmo_scale _ Hmode) as [-> ->].
  rewrite Haxis.
  change (gizmo (controls (placeControls w1))) with (gizmo (controls w1)).
  change (attributeAt (controls (placeControls w1)) 0)
    with (attributeAt (controls w1) 0).
  unfold w1 at 1 3. rewrite posed_gizmo, posed_slot by (simpl; lia).
  rewrite decide_True by lia. done.
Qed.

(** C5, as amended.  Entering [SCALE] mode from another mode sets the space
    to [LOCAL], whatever it was; going on to any other mode leaves it at
    [LOCAL]; and in [SCALE] mode, with a selection, [updatePose] turns the
    gizmo to the world rotation of the first selected object, whatever the
    space. *)
Theorem scale_mode_is_local (w ws : World) (m : string) :
  mode (controls w) ≠ SCALE →
  m ≠ SCALE →
  mode (controls ws) = SCALE →
  objects (controls ws) ≠ [] →
  slots (controls ws) →
  space (controls (setMode SCALE w)) = LOCAL
  ∧ space (controls (setMode m (setMode SCALE w))) = LOCAL
  ∧ gizmo (controls (updatePose ws))
    = highlight (axis (controls ws))
        (update
           (euler_setFromRotationMatrix
              (m_extractRotation
                 (matrixWorld (scene ws (objectAt (controls ws) 0)))))
           (eye (controls (updatePose ws)))
           (gizmo (controls ws))).
Proof.
  intros Hw Hm Hs Hne Hslots. split; [|split].
  - rewrite setMode_space. by rewrite decide_True.
  - rewrite !setMode_space. rewrite decide_False by tauto.
    by rewrite decide_True.
  - by apply updatePose_scale_gizmo.
Qed.

End ModeSpace.

Section ModeSpaceExamples.
Import Exact Scenes.

(** C5 as stated fails when the mode is already [SCALE]: the editor has
    set the space back to [WORLD], and [setMode(SCALE)] returns at once. *)
Lemma setMode_scale_keeps_world :
  mode (controls scaleWorld) = SCALE
  ∧ space (controls scaleWorld) = WORLD
  ∧ space (controls (setMode SCALE scaleWorld)) = WORLD.
Proof. vm_compute. done. Qed.

(** The statement of C5 as amended on one selected mesh. *)
Lemma scale_mode_is_local_witness :
  space (controls (setMode SCALE (attach [1] (fresh [mesh v_zero])))) = LOCAL
  ∧ space (controls (setMode ROTATE
                       (setMode SCALE (attach [1] (fresh [mesh v_zero])))))
    = LOCAL
  ∧ gizmo (controls (updatePose scaleWorld))
    = highlight (axis (controls scaleWorld))
        (update
           (euler_setFromRotationMatrix
              (m_extractRotation
                 (matrixWorld
                    (scene scaleWorld (objectAt (controls scaleWorld) 0)))))
           (eye (controls (updatePose scaleWorld)))
           (gizmo (controls scaleWorld))).
Proof.
  apply (scale_mode_is_local (attach [1] (fresh [mesh v_zero])) scaleWorld
           ROTATE).
  - computed.
  - discriminate.
  - reflexivity.
  - computed.
  - computed.
Defined.

End ModeSpaceExamples.

(** ** Translation *)

Section Translation.
Context {N : JsNumber} {L : Library} {G : GizmoTables}.

Lemma steady_refl (w : World) : steady w w.
Proof. done. Qed.

Lemma steady_trans (w1 w2 w3 : World) :
  steady w1 w2 → steady w2 w3 → steady w1 w3.
Proof.
  intros (H1 & H2 & H3 & H4) (K1 & K2 & K3 & K4). repeat split; congruence.
Qed.

Lemma steady_objects (w' w : World) :
  steady w' w → objects (controls w') = objects (controls w).
Proof. intros (H & _). by injection H. Qed.

Lemma steady_objectAt (w' w : World) (i : nat) :
  steady w' w → objectAt (controls w') i = objectAt (controls w) i.
Proof. intros H. unfold objectAt. by rewrite (steady_objects _ _ H). Qed.

Lemma steady_attributeAt (w' w : World) (i : nat) :
  steady w' w → attributeAt (controls w') i = attributeAt (controls w) i.
Proof. intros (_ & H & _). unfold attributeAt. by rewrite H. Qed.

Lemma writePosition_steady (r : ref) (v : Vector3) (w : World) :
  steady (writePosition r v w) w.
Proof. done. Qed.

Lemma writePoint_steady (p : Vector3) (w : World) : steady (writePoint p w) w.
Proof. done. Qed.

Lemma forIndices_steady (n : nat) (body : nat → World → World) (w : World) :
  (∀ i w', steady (body i w') w') → steady (forIndices n body w) w.
Proof.
  intros Hb. apply (forIndices_ind (λ w', steady w' w)); [done|].
  intros i w' _ H. eapply steady_trans; [apply Hb|done].
Qed.

Lemma moveObject_steady (j : nat) (w : World) : steady (moveObject j w) w.
Proof. done. Qed.

Lemma moveObjects_steady (w : World) : steady (moveObjects w) w.
Proof. apply forIndices_steady, moveObject_steady. Qed.

Lemma forIndices_point (n : nat) (body : nat → World → World) (w : World) :
  (∀ i w', point (controls (body i w')) = point (controls w')) →
  point (controls (forIndices n body w)) = point (controls w).
Proof.
  intros Hb.
  apply (forIndices_ind (λ w', point (controls w') = point (controls w)));
    [done|].
  intros i w' _ H. by rewrite Hb.
Qed.

Lemma moveObjects_point (w : World) :
  point (controls (moveObjects w)) = point (controls w).
Proof. by apply forIndices_point. Qed.

(** Distinct places of a selection without repetition hold distinct
    objects. *)
Lemma objectAt_inj (c : TransformControls) (i j : nat) :
  NoDup (objects c) → i < length (objects c) → j < length (objects c) →
  objectAt c i = objectAt c j → i = j.
Proof.
  intros Hnd Hi Hj. unfold objectAt.
  destruct (lookup_lt_is_Some_2 _ _ Hi) as [x Hx].
  destruct (lookup_lt_is_Some_2 _ _ Hj) as [y Hy].
  rewrite Hx, Hy. simpl. intros ->. by eapply NoDup_lookup.
Qed.

(** A loop whose turn [i] writes object [i] alone leaves at the place of
    object [j] what turn [j] wrote there. *)
Lemma forIndices_written (body : nat → World → World) (n j : nat) (w : World) :
  (∀ i w', steady (body i w') w') →
  (∀ i w' r, r ≠ objectAt (controls w') i → scene (body i w') r = scene w' r) →
  NoDup (objects (controls w)) →
  j < n → n ≤ length (objects (controls w)) →
  scene (forIndices n body w) (objectAt (controls w) j)
  = scene (body j (forIndices j body w)) (objectAt (controls w) j).
Proof.
  intros Hst Hother Hnd Hj Hn. induction n as [|n IH]; [lia|].
  rewrite forIndices_S.
  destruct (decide (j = n)) as [->|Hne]; [done|].
  rewrite (Hother n (forIndices n body w)); [apply IH; lia|].
  rewrite (steady_objectAt (forIndices n body w) w)
    by by apply forIndices_steady.
  intros Heq. apply objectAt_inj in Heq; [lia|done|lia|lia].
Qed.

Lemma forIndices_unwritten (body : nat → World → World) (n : nat) (w : World)
  (r : ref) :
  (∀ i w', steady (body i w') w') →
  (∀ i w' r, r ≠ objectAt (controls w') i → scene (body i w') r = scene w' r) →
  (∀ i, i < n → r ≠ objectAt (controls w) i) →
  scene (forIndices n body w) r = scene w r.
Proof.
  intros Hst Hother Hr. induction n as [|n IH]; [done|].
  rewrite forIndices_S, (Hother n (forIndices n body w));
    [apply IH; intros; apply Hr; lia|].
  rewrite (steady_objectAt (forIndices n body w) w)
    by by apply forIndices_steady.
  apply Hr. lia.
Qed.

Lemma writePosition_other (r r' : ref) (v : Vector3) (w : World) :
  r' ≠ r → scene (writePosition r v w) r' = scene w r'.
Proof.
  intros Hne. unfold writePosition. simpl. by apply fn_lookup_insert_ne.
Qed.

Lemma writePosition_same (r : ref) (v : Vector3) (w : World) :
  scene (writePosition r v w) r = set_position v (scene w r).
Proof. unfold writePosition. simpl. apply fn_lookup_insert. Qed.

(** After the inner loop every selected object is at its old position plus
    [point]. *)
Lemma moveObjects_position (w : World) (j : nat) :
  NoDup (objects (controls w)) → j < length (objects (controls w)) →
  position (scene (moveObjects w) (objectAt (controls w) j))
  = v_add (oldPosition (attributeAt (controls w) j)) (point (controls w)).
Proof.
  intros Hnd Hj. unfold moveObjects.
  rewrite forIndices_written; try done.
  - pose proof (forIndices_steady j moveObject w moveObject_steady) as Hs.
    unfold moveObject at 1.
    rewrite (steady_objectAt _ w _ Hs), (steady_attributeAt _ w _ Hs).
    rewrite writePosition_same. simpl.
    by rewrite (forIndices_point j moveObject w).
  - intros i w' r Hr. by apply writePosition_other.
Qed.

Lemma snapObject_steady (ax : string) (i : nat) (w : World) :
  steady (snapObject ax i w) w.
Proof. done. Qed.

Lemma translateObject_steady (ax : string) (hit : Vector3) (i : nat)
  (w : World) : steady (translateObject ax hit i w) w.
Proof.
  unfold translateObject. cbv zeta.
  assert (H : ∀ w1, steady w1 w →
    steady (if snap (controls w) then snapObject ax i w1 else w1) w).
  { intros w1 H1. destruct (snap (controls w)); [|done].
    eapply steady_trans; [apply snapObject_steady|done]. }
  apply H. repeat case_decide.
  all: try (eapply steady_trans; [apply moveObjects_steady|done]). done.
Qed.

(** One turn of the outer loop: every selected object at its old position
    plus the vector of slot [i], and object [i] snapped when [snap] is
    set. *)
Lemma translateObject_result (ax : string) (hit : Vector3) (i : nat)
  (w : World) :
  NoDup (objects (controls w)) → i < length (objects (controls w)) →
  let c := controls w in
  let delta := translateDelta c ax hit (attributeAt c i) in
  point (controls (translateObject ax hit i w)) = delta
  ∧ ∀ j, j < length (objects c) →
      position (scene (translateObject ax hit i w) (objectAt c j))
      = if snap c && bool_decide (j = i)
        then snapPosition c ax (attributeAt c i)
               (v_add (oldPosition (attributeAt c j)) delta)
        else v_add (oldPosition (attributeAt c j)) delta.
Proof.
  intros Hnd Hi c delta.
  set (w1 := moveObjects (writePoint delta w)).
  assert (Hw1 : translateObject ax hit i w
                = if snap c then snapObject ax i w1 else w1).
  { unfold translateObject, w1, delta, translateDelta, dragPoint. cbv zeta.
    fold c. destruct (decide (space c = WORLD ∨ found "XYZ" ax = true));
      [done|].
    destruct (decide (space c = LOCAL)) as [_|Hl];
      [by destruct (decide (1 < String.length ax))|].
    destruct (space c); tauto. }
  assert (Hs1 : steady w1 w).
  { eapply steady_trans; [apply moveObjects_steady|apply writePoint_steady]. }
  assert (Hp1 : point (controls w1) = delta).
  { unfold w1. by rewrite moveObjects_point. }
  assert (Hpos1 : ∀ j, j < length (objects c) →
    position (scene w1 (objectAt c j))
    = v_add (oldPosition (attributeAt c j)) delta).
  { intros j Hj. apply (moveObjects_position (writePoint delta w) j); done. }
  rewrite Hw1. destruct (snap c) eqn:Hsnap; [|done].
  split; [done|]. intros j Hj. cbn [andb].
  unfold snapObject. cbv zeta.
  rewrite (steady_objectAt _ _ i Hs1), (steady_attributeAt _ _ i Hs1).
  fold c. destruct (decide (j = i)) as [->|Hne].
  - rewrite bool_decide_eq_true_2 by done.
    rewrite writePosition_same. simpl. rewrite Hpos1 by done.
    unfold snapPosition.
    assert (Hsp : space (controls w1) = space c).
    { destruct Hs1 as (H & _). by injection H. }
    assert (Hts : translationSnap (controls w1) = translationSnap c).
    { destruct Hs1 as (H & _). by injection H. }
    rewrite Hsp, Hts. by destruct (space c).
  - rewrite bool_decide_eq_false_2 by done.
    rewrite writePosition_other; [by apply Hpos1|].
    intros Heq. by apply objectAt_inj in Heq.
Qed.

(** The whole loop: the last turn decides. *)
Lemma translated (ax : string) (hit : Vector3) (w : World) (k : nat) :
  NoDup (objects (controls w)) →
  length (objects (controls w)) = S k →
  let c := controls w in
  let a := attributeAt c k in
  let delta := translateDelta c ax hit a in
  let w' := forIndices (S k) (translateObject ax hit) w in
  steady w' w
  ∧ point (controls w') = delta
  ∧ ∀ j, j < S k →
      position (scene w' (objectAt c j))
      = if snap c && bool_decide (j = k)
        then snapPosition c ax a (v_add (oldPosition (attributeAt c j)) delta)
        else v_add (oldPosition (attributeAt c j)) delta.
Proof.
  intros Hnd Hlen c a delta w'.
  assert (Hst : ∀ i, steady (forIndices i (translateObject ax hit) w) w).
  { intros i. apply forIndices_steady. intros. apply translateObject_steady. }
  split; [apply Hst|].
  unfold w'. rewrite forIndices_S.
  set (w0 := forIndices k (translateObject ax hit) w).
  pose proof (Hst k) as Hs0. fold w0 in Hs0.
  pose proof (steady_objects _ _ Hs0) as Ho.
  destruct (translateObject_result ax hit k w0) as [Hp Hpos].
  { by rewrite Ho. }
  { rewrite Ho, Hlen. lia. }
  assert (Hsp : space (controls w0) = space c).
  { destruct Hs0 as (H & _). by injection H. }
  assert (Hts : translationSnap (controls w0) = translationSnap c).
  { destruct Hs0 as (H & _). by injection H. }
  assert (Hsn : snap (controls w0) = snap c).
  { destruct Hs0 as (H & _). by injection H. }
  assert (Hof : offset (controls w0) = offset c).
  { destruct Hs0 as (H & _). by injection H. }
  assert (Hc : translateDelta (controls w0) ax hit
                 (attributeAt (controls w0) k) = delta).
  { rewrite (steady_attributeAt _ _ _ Hs0). unfold delta, translateDelta.
    by rewrite Hsp, Hof. }
  rewrite Hc in Hp, Hpos. split; [done|].
  intros j Hj. specialize (Hpos j). rewrite Ho in Hpos.
  rewrite (steady_objectAt _ _ j Hs0) in Hpos.
  rewrite !(steady_attributeAt _ _ _ Hs0) in Hpos.
  rewrite Hlen in Hpos. fold c in Hpos. rewrite Hpos by lia.
  rewrite Hsn. destruct (snap c && bool_decide (j = k)); [|done].
  unfold snapPosition. by rewrite Hsp, Hts.
Qed.

End Translation.

Section TranslationFrames.
Context {N : JsNumber} {L : Library} {G : GizmoTables}.

Lemma nonempty_length {A : Type} (l : list A) : l ≠ [] ↔ length l ≠ 0.
Proof. destruct l; simpl; split; intros; try done; lia. Qed.

(** A move in [TRANSLATE] mode whose ray hits the active plane runs the
    loop and the pose. *)
Lemma onPointerMove_translate (fuel : nat) (hit : Intersection)
  (rest : list Intersection) (w : World) (ax : string) :
  mode (controls w) = TRANSLATE →
  axis (controls w) = Some ax →
  dragging (controls w) = true →
  objects (controls w) ≠ [] →
  onPointerMove fuel (hit :: rest) w
  = Some (updatePose
            (forIndices (length (objects (controls w)))
               (translateObject ax (ipoint hit)) w)).
Proof.
  intros Hm Ha Hd Hne. unfold onPointerMove. cbv zeta. rewrite Ha.
  rewrite decide_False.
  - simpl. by rewrite decide_True.
  - apply nonempty_length in Hne. rewrite Hm, Hd. intros [?|[?|?]]; done.
Qed.

Lemma snapAxes_components (ax : string) (s : num) (p : Vector3) :
  vx (snapAxes ax s p) = (if found "X" ax then snapTo s (vx p) else vx p)
  ∧ vy (snapAxes ax s p) = (if found "Y" ax then snapTo s (vy p) else vy p)
  ∧ vz (snapAxes ax s p) = (if found "Z" ax then snapTo s (vz p) else vz p).
Proof.
  unfold snapAxes. cbv zeta.
  by destruct (found "X" ax), (found "Y" ax), (found "Z" ax).
Qed.

(** The frame of a translation, from the state before it. *)
Lemma translate_frame (fuel : nat) (hit : Intersection)
  (rest : list Intersection) (w : World) (ax : string) (k : nat) :
  mode (controls w) = TRANSLATE →
  axis (controls w) = Some ax →
  dragging (controls w) = true →
  length (objects (controls w)) = S k →
  NoDup (objects (controls w)) →
  let c := controls w in
  let a := attributeAt c k in
  let delta := translateDelta c ax (ipoint hit) a in
  ∃ w',
    onPointerMove fuel (hit :: rest) w = Some w'
    ∧ settings (controls w') = settings c
    ∧ snapshots (controls w') = snapshots c
    ∧ length (attributes (controls w')) = length (attributes c)
    ∧ point (controls w') = delta
    ∧ ∀ j, j < S k →
        position (scene w' (objectAt c j))
        = if snap c && bool_decide (j = k)
          then snapPosition c ax a
                 (v_add (oldPosition (attributeAt c j)) delta)
          else v_add (oldPosition (attributeAt c j)) delta.
Proof.
  intros Hm Ha Hd Hlen Hnd c a delta.
  assert (Hne : objects (controls w) ≠ []).
  { apply nonempty_length. lia. }
  eexists. split; [by apply onPointerMove_translate|].
  rewrite Hlen.
  destruct (translated ax (ipoint hit) w k Hnd Hlen) as (Hst & Hp & Hpos).
  set (w1 := forIndices (S k) (translateObject ax (ipoint hit)) w) in *.
  destruct (updatePose_keeps w1) as (K1 & K2 & K3 & K4 & K5).
  { by rewrite (steady_objects _ _ Hst). }
  destruct Hst as (S1 & S2 & _).
  repeat split.
  - by rewrite K1, S1.
  - rewrite K2. unfold snapshots. by rewrite S2.
  - rewrite K3. by rewrite S2.
  - by rewrite K4, Hp.
  - intros j Hj. rewrite updatePose_scene. by apply Hpos.
Qed.

(** C10, as amended.  In a frame of a translation with more than one
    object selected, every object but the last is put at its own old
    position plus one and the same vector, the one computed from the slot
    of the last object (its parent scale and its rotation matrices) and
    left in [point]; so is the last object when [snap] is not set, and when
    it is set the last object is put at that position snapped. *)
Theorem translate_last_slot_wins (fuel : nat) (hit : Intersection)
  (rest : list Intersection) (w : World) (ax : string) :
  mode (controls w) = TRANSLATE →
  axis (controls w) = Some ax →
  dragging (controls w) = true →
  1 < length (objects (controls w)) →
  NoDup (objects (controls w)) →
  slots (controls w) →
  let c := controls w in
  let last := length (objects c) - 1 in
  let delta := translateDelta c ax (ipoint hit) (attributeAt c last) in
  ∃ w',
    onPointerMove fuel (hit :: rest) w = Some w'
    ∧ point (controls w') = delta
    ∧ (∀ j, j < last →
         position (scene w' (objectAt c j))
         = v_add (oldPosition (attributeAt c j)) delta)
    ∧ position (scene w' (objectAt c last))
      = if snap c
        then snapPosition c ax (attributeAt c last)
               (v_add (oldPosition (attributeAt c last)) delta)
        else v_add (oldPosition (attributeAt c last)) delta.
Proof.
  intros Hm Ha Hd Hn Hnd _ c last delta.
  destruct (length (objects (controls w))) as [|k] eqn:Hlen; [lia|].
  assert (Hlast : last = k).
  { unfold last, c. rewrite Hlen. lia. }
  unfold delta. rewrite Hlast.
  destruct (translate_frame fuel hit rest w ax k Hm Ha Hd Hlen Hnd)
    as (w' & Hw' & _ & _ & _ & Hp & Hpos).
  exists w'. repeat split; try done.
  - intros j Hj. rewrite Hpos by lia.
    rewrite bool_decide_eq_false_2 by lia. by rewrite andb_false_r.
  - rewrite Hpos by lia.
    rewrite bool_decide_eq_true_2 by done. by rewrite andb_true_r.
Qed.

(** C8, as amended.  With [snap] set, after a frame of a translation the
    coordinates of the last selected object on the axes that the token
    names are, in [WORLD] space, [Math.round(v / translationSnap) *
    translationSnap]; in [LOCAL] space it is in the frame of the world
    rotation of the object that the coordinates are rounded, and the
    position is that rounded point taken back. *)
Theorem translate_snaps_last (fuel : nat) (hit : Intersection)
  (rest : list Intersection) (w : World) (ax : string) :
  mode (controls w) = TRANSLATE →
  axis (controls w) = Some ax →
  dragging (controls w) = true →
  snap (controls w) = true →
  objects (controls w) ≠ [] →
  NoDup (objects (controls w)) →
  slots (controls w) →
  let c := controls w in
  let last := length (objects c) - 1 in
  let a := attributeAt c last in
  let q := v_add (oldPosition a) (translateDelta c ax (ipoint hit) a) in
  let s := translationSnap c in
  ∃ w',
    onPointerMove fuel (hit :: rest) w = Some w'
    ∧ let p := position (scene w' (objectAt c last)) in
      (space c = WORLD →
         (found "X" ax = true → vx p = nround (vx q ⊘ s) ⊗ s)
         ∧ (found "Y" ax = true → vy p = nround (vy q ⊘ s) ⊗ s)
         ∧ (found "Z" ax = true → vz p = nround (vz q ⊘ s) ⊗ s))
      ∧ (space c = LOCAL →
           p = v_applyMatrix4
                 (snapAxes ax s
                    (v_applyMatrix4 q (m_getInverse (worldRotationMatrix a))))
                 (worldRotationMatrix a)).
Proof.
  intros Hm Ha Hd Hsnap Hne Hnd _ c last a q s.
  destruct (length (objects (controls w))) as [|k] eqn:Hlen.
  { by apply nonempty_length in Hne. }
  assert (Hlast : last = k).
  { unfold last, c. rewrite Hlen. lia. }
  unfold q, a. rewrite Hlast.
  destruct (translate_frame fuel hit rest w ax k Hm Ha Hd Hlen Hnd)
    as (w' & Hw' & _ & _ & _ & _ & Hpos).
  exists w'. split; [done|]. cbv zeta.
  rewrite Hpos by lia. unfold c, s. rewrite Hsnap.
  rewrite bool_decide_eq_true_2 by done. cbn [andb].
  unfold snapPosition. split; intros Hsp; rewrite Hsp; [|done].
  destruct (snapAxes_components ax (translationSnap (controls w))
    (v_add (oldPosition (attributeAt (controls w) k))
       (translateDelta (controls w) ax (ipoint hit)
          (attributeAt (controls w) k))))
    as (Hx & Hy & Hz).
  rewrite Hx, Hy, Hz.
  repeat split; by intros ->.
Qed.

End TranslationFrames.

Section TranslationExamples.
Import Exact Scenes.

Lemma NoDup_by_computation (l : list nat) :
  bool_decide (NoDup l) = true → NoDup l.
Proof. apply bool_decide_eq_true_1. Qed.

(** The statement of C10 as amended on two meshes with parents of
    different scales, the last one under the group of scale 2, dragged
    along X by 1. *)
Lemma translate_last_slot_wins_witness :
  let w := twoFrames [2; 3] in
  let hit := mkIntersection "XY" (vec 1 0 0) in
  let c := controls w in
  let last := length (objects c) - 1 in
  let delta := translateDelta c "X" (ipoint hit) (attributeAt c last) in
  ∃ w',
    onPointerMove 0 [hit] w = Some w'
    ∧ point (controls w') = delta
    ∧ (∀ j, j < last →
         position (scene w' (objectAt c j))
         = v_add (oldPosition (attributeAt c j)) delta)
    ∧ position (scene w' (objectAt c last))
      = if snap c
        then snapPosition c "X" (attributeAt c last)
               (v_add (oldPosition (attributeAt c last)) delta)
        else v_add (oldPosition (attributeAt c last)) delta.
Proof.
  apply (translate_last_slot_wins 0 (mkIntersection "XY" (vec 1 0 0)) []
           (twoFrames [2; 3]) "X").
  - computed.
  - computed.
  - computed.
  - computed.
  - apply NoDup_by_computation. vm_compute. reflexivity.
  - computed.
Defined.

(** The frame of the witness, computed.  The parent scale of the slot of
    the mesh under the group is 1/2 and the one of the slot of the other
    mesh is 1: with the mesh under the group attached last, both meshes
    move by (1/2, 0, 0), from (1/2, 0, 0) to (1, 0, 0) and from
    (-1/2, 0, 0) to the origin; with the other mesh attached last, both
    move by (1, 0, 0). *)
Lemma two_frames_moved :
  (λ w', (xyz (point (controls w')), xyz (position (scene w' 2)),
          xyz (position (scene w' 3))))
    <$> onPointerMove 0 (hitAt "XY" (vec 1 0 0)) (twoFrames [2; 3])
  = Some ((1 # 2, 0, 0), (1, 0, 0), (0, 0, 0))%Q
  ∧ (λ w', (xyz (point (controls w')), xyz (position (scene w' 2)),
            xyz (position (scene w' 3))))
      <$> onPointerMove 0 (hitAt "XY" (vec 1 0 0)) (twoFrames [3; 2])
    = Some ((1, 0, 0), (3 # 2, 0, 0), (1 # 2, 0, 0))%Q.
Proof. split; vm_compute; reflexivity. Qed.

(** C10 as stated fails with snapping on: of the two meshes under the
    root, dragged along X by 1, the vector is (1, 0, 0) and the first mesh
    is at its old position plus that vector, (3/2, 0, 0); the last one,
    whose old position plus that vector is (1/2, 0, 0), is at (1, 0, 0). *)
Lemma snap_takes_the_last_off_the_vector :
  snap (controls snapTwo) = true
  ∧ mode (controls snapTwo) = TRANSLATE
  ∧ objects (controls snapTwo) = [1; 2]
  ∧ xyz (oldPosition (attributeAt (controls snapTwo) 0)) = (1 # 2, 0, 0)%Q
  ∧ xyz (oldPosition (attributeAt (controls snapTwo) 1)) = (-1 # 2, 0, 0)%Q
  ∧ (λ w', (xyz (point (controls w')), xyz (position (scene w' 1)),
            xyz (position (scene w' 2)),
            xyz (v_add (oldPosition (attributeAt (controls snapTwo) 1))
                   (point (controls w')))))
      <$> onPointerMove 0 (hitAt "XY" (vec 1 0 0)) snapTwo
    = Some ((1, 0, 0), (3 # 2, 0, 0), (1, 0, 0), (1 # 2, 0, 0))%Q.
Proof. repeat split; vm_compute; reflexivity. Qed.

(** Two meshes under the root: both moved by (1, 0, 0). *)
Lemma two_meshes_moved :
  (λ w', (xyz (position (scene w' 1)), xyz (position (scene w' 2))))
    <$> onPointerMove 0 (hitAt "XY" (vec 1 0 0)) dragTwo
  = Some ((3 # 2, 0, 0)%Q, (1 # 2, 0, 0)%Q).
Proof. vm_compute. reflexivity. Qed.

(** The statement of C8 as amended on the same two meshes, with snapping
    on. *)
Lemma translate_snaps_last_witness :
  let w := snapTwo in
  let hit := mkIntersection "XY" (vec 1 0 0) in
  let c := controls w in
  let last := length (objects c) - 1 in
  let a := attributeAt c last in
  let q := v_add (oldPosition a) (translateDelta c "X" (ipoint hit) a) in
  let s := translationSnap c in
  ∃ w',
    onPointerMove 0 [hit] w = Some w'
    ∧ let p := position (scene w' (objectAt c last)) in
      (space c = WORLD →
         (found "X" "X" = true → vx p = nround (vx q ⊘ s) ⊗ s)
         ∧ (found "Y" "X" = true → vy p = nround (vy q ⊘ s) ⊗ s)
         ∧ (found "Z" "X" = true → vz p = nround (vz q ⊘ s) ⊗ s))
      ∧ (space c = LOCAL →
           p = v_applyMatrix4
                 (snapAxes "X" s
                    (v_applyMatrix4 q (m_getInverse (worldRotationMatrix a))))
                 (worldRotationMatrix a)).
Proof.
  apply (translate_snaps_last 0 (mkIntersection "XY" (vec 1 0 0)) []
           snapTwo "X").
  - computed.
  - computed.
  - computed.
  - computed.
  - computed.
  - apply NoDup_by_computation. vm_compute. reflexivity.
  - computed.
Defined.

(** C8 as stated fails in [LOCAL] space: the turned mesh, dragged along
    its X handle with the snap increment 1, ends at (-7/25, 24/25, 0), and
    -7/25 is no integer. *)
Lemma local_snap_leaves_the_grid :
  space (controls snapTurned) = LOCAL
  ∧ snap (controls snapTurned) = true
  ∧ translationSnap (controls snapTurned) = lit 1
  ∧ axis (controls snapTurned) = Some "X"
  ∧ ∃ w',
      onPointerMove 0 (hitAt "XY" (vec 1 0 0)) snapTurned = Some w'
      ∧ xyz (position (scene w' 1)) = (-7 # 25, 24 # 25, 0)%Q
      ∧ ¬ ∃ z : Z, vx (position (scene w' 1)) = ofZ z.
Proof.
  do 4 (split; [vm_compute; reflexivity|]).
  eexists. split.
  { apply (onPointerMove_translate 0 _ [] snapTurned "X").
    all: vm_compute; done. }
  split; [vm_compute; reflexivity|].
  intros [z Hz].
  match type of Hz with ?x = _ =>
    assert (Hx : x = frac (-7) 25)
      by (apply Qc_is_canon; vm_compute; reflexivity)
  end.
  rewrite Hx in Hz. apply Q2Qc_eq_iff in Hz.
  unfold Qeq in Hz. simpl in Hz. lia.
Qed.

(** In exact arithmetic a coordinate snapped with the increment 1 is an
    integer. *)
Lemma unit_snap_is_integer (v : Qc) : ∃ z : Z, snapTo (lit 1) v = ofZ z.
Proof.
  unfold snapTo. cbn [nround nmul ndiv lit number round].
  eexists.
  replace (ofZ 1) with 1%Qc by (apply Qc_is_canon; reflexivity).
  rewrite Qcmult_1_r. reflexivity.
Qed.

End TranslationExamples.

(** ** Releasing the pointer *)

Section Release.
Context {N : JsNumber} {L : Library} {G : GizmoTables}.

Lemma pushed_actions (f : list ChangeAction → nat → list ChangeAction)
  (g : nat → list ChangeAction) (l : list nat) (acc : list ChangeAction) :
  (∀ acc i, f acc i = acc ++ g i) →
  fold_left f l acc = acc ++ concat (map g l).
Proof.
  intros Hf. revert acc. induction l as [|i l IH]; intros acc; simpl.
  - by rewrite app_nil_r.
  - by rewrite IH, Hf, app_assoc.
Qed.

(** C3, as amended.  A release during an edit, in [TRANSLATE], [SCALE] or
    [ROTATE] mode, adds to the history one bundle, made for each selected
    object in turn of one change action for every component of its
    position, scale or quaternion, changed or not, with the value of the
    component now and its value in the snapshot; it clears [editing] and
    [dragging] and leaves the scene as it is. *)
Theorem release_records_every_component (w : World) :
  editing (controls w) = true →
  mode (controls w) = TRANSLATE ∨ mode (controls w) = SCALE
  ∨ mode (controls w) = ROTATE →
  slots (controls w) →
  history (onPointerUp w)
  = history w
    ++ [concat (map (releasedActions w)
                  (seq 0 (length (objects (controls w)))))]
  ∧ editing (controls (onPointerUp w)) = false
  ∧ dragging (controls (onPointerUp w)) = false
  ∧ scene (onPointerUp w) = scene w.
Proof.
  intros He Hm _. unfold onPointerUp. cbv zeta. rewrite He.
  destruct Hm as [Hm|[Hm|Hm]].
  - rewrite decide_True by done. simpl. repeat split.
    f_equal. f_equal. apply (pushed_actions _ _ _ []).
    intros acc i. unfold releasedActions. by rewrite decide_True.
  - rewrite decide_False by (rewrite Hm; done).
    rewrite decide_True by done. simpl. repeat split.
    f_equal. f_equal. apply (pushed_actions _ _ _ []).
    intros acc i. unfold releasedActions.
    rewrite decide_False by (rewrite Hm; done). by rewrite decide_True.
  - rewrite decide_False by (rewrite Hm; done).
    rewrite decide_False by (rewrite Hm; done).
    rewrite decide_True by done. simpl. repeat split.
    f_equal. f_equal. apply (pushed_actions _ _ _ []).
    intros acc i. unfold releasedActions.
    rewrite decide_False by (rewrite Hm; done).
    rewrite decide_False by (rewrite Hm; done). by rewrite decide_True.
Qed.

(** ** Pressing the pointer *)

Lemma onPointerDown_dragging (pickers plane : list Intersection) (w : World) :
  objects (controls w) ≠ [] → dragging (controls w) = false →
  mode (controls w) ≠ NONE →
  dragging (controls (onPointerDown pickers plane w)) = true.
Proof.
  intros Hne Hd Hm. unfold onPointerDown. cbv zeta.
  rewrite decide_False; [done|].
  apply nonempty_length in Hne. rewrite Hd. intros [?|[?|?]]; done.
Qed.

(** C4, as amended.  When the ray of a press misses the active plane,
    [dragging] is set all the same, and the scene, the snapshots and the
    origin of the drag stay as they were; a move whose ray misses the plane
    too changes nothing. *)
Theorem press_off_the_plane (fuel : nat) (pickers : list Intersection)
  (w : World) :
  objects (controls w) ≠ [] →
  dragging (controls w) = false →
  mode (controls w) ≠ NONE →
  slots (controls w) →
  let w' := onPointerDown pickers [] w in
  dragging (controls w') = true
  ∧ scene w' = scene w
  ∧ snapshots (controls w') = snapshots (controls w)
  ∧ offset (controls w') = offset (controls w)
  ∧ onPointerMove fuel [] w' = Some w'.
Proof.
  intros Hne Hd Hm _ w'.
  split; [by apply onPointerDown_dragging|].
  assert (Hk : scene w' = scene w
               ∧ snapshots (controls w') = snapshots (controls w)
               ∧ offset (controls w') = offset (controls w)).
  { unfold w', onPointerDown. cbv zeta. rewrite decide_False.
    2:{ apply nonempty_length in Hne. rewrite Hd. intros [?|[?|?]]; done. }
    destruct (intersectObjects pickers) as [i|]; [|done].
    set (w0 := set_controls _ w).
    destruct (updatePose_keeps w0) as (K1 & K2 & _ & _ & K5); [done|].
    repeat split.
    - transitivity (scene (updatePose w0)); [done|]. by injection K5.
    - transitivity (snapshots (controls (updatePose w0))); [done|].
      by rewrite K2.
    - transitivity (offset (controls (updatePose w0))); [done|].
      by injection K1. }
  destruct Hk as (H1 & H2 & H3). repeat split; try done.
  unfold onPointerMove. cbv zeta.
  destruct (axis (controls w')); [|done].
  by case_decide.
Qed.

End Release.

Section ReleaseExamples.
Import Exact Scenes.

(** The statement of C3 as amended after a drag of one mesh along X. *)
Lemma release_records_every_component_witness :
  let w := default oneMesh (onPointerMove 0 (hitAt "XY" (vec 2 0 0))
                              (pressed "X" oneMesh)) in
  history (onPointerUp w)
  = history w
    ++ [concat (map (releasedActions w)
                  (seq 0 (length (objects (controls w)))))]
  ∧ editing (controls (onPointerUp w)) = false
  ∧ dragging (controls (onPointerUp w)) = false
  ∧ scene (onPointerUp w) = scene w.
Proof.
  apply release_records_every_component.
  - computed.
  - left. computed.
  - computed.
Defined.

(** C3 as stated fails: after a drag along X from the origin to
    (2, 0, 0), where only the x component of the position has changed, the
    bundle holds three actions, and those of y and z carry the same value
    twice. *)
Lemma release_records_unchanged_components :
  ∃ w b,
    onPointerMove 0 (hitAt "XY" (vec 2 0 0)) (pressed "X" oneMesh) = Some w
    ∧ editing (controls w) = true
    ∧ history (onPointerUp w) = [b]
    ∧ map (λ a, (attribute a, this (newValue a), this (oldValue a))) b
      = [("x", 2, 0); ("y", 0, 0); ("z", 0, 0)]%Q
    ∧ length (filter (λ a, newValue a ≠ oldValue a) b) = 1.
Proof.
  eexists. eexists.
  split.
  { apply (onPointerMove_translate 0 _ [] (pressed "X" oneMesh) "X").
    all: vm_compute; done. }
  split; [vm_compute; reflexivity|].
  split; [vm_compute; reflexivity|].
  split; vm_compute; reflexivity.
Qed.

(** The statement of C4 as amended on the second press of the story. *)
Lemma press_off_the_plane_witness :
  let w := default oneMesh firstDrag in
  let w' := onPointerDown (hitAt "X" v_zero) [] w in
  dragging (controls w') = true
  ∧ scene w' = scene w
  ∧ snapshots (controls w') = snapshots (controls w)
  ∧ offset (controls w') = offset (controls w)
  ∧ onPointerMove 0 [] w' = Some w'.
Proof.
  apply press_off_the_plane; computed.
Defined.

(** C4 as stated fails: the mesh was left at (5, 0, 0) by a first drag;
    the second press misses the plane, so that the snapshot still holds the
    position (0, 0, 0) of before the first drag; the move that follows,
    whose ray meets the plane at (1, 0, 0), puts the mesh at (1, 0, 0). *)
Lemma move_after_press_off_the_plane :
  (λ w, (dragging (controls w), xyz (position (scene w 1)),
         xyz (oldPosition (attributeAt (controls w) 0))))
    <$> secondPress
  = Some (true, (5, 0, 0)%Q, (0, 0, 0)%Q)
  ∧ (λ w, xyz (position (scene w 1))) <$> secondMove = Some (1, 0, 0)%Q.
Proof. split; vm_compute; reflexivity. Qed.

End ReleaseExamples.

(** ** Scaling *)

Section Scaling.
Context {N : JsNumber} {L : Library} {G : GizmoTables}.

Lemma writeScale_other (r r' : ref) (v : Vector3) (w : World) :
  r' ≠ r → scene (writeScale r v w) r' = scene w r'.
Proof. intros Hne. unfold writeScale. simpl. by apply fn_lookup_insert_ne. Qed.

Lemma writeScale_same (r : ref) (v : Vector3) (w : World) :
  scene (writeScale r v w) r = set_scale v (scene w r).
Proof. unfold writeScale. simpl. apply fn_lookup_insert. Qed.

Lemma scaleObject_steady (ax : string) (hit : Vector3) (i : nat) (w : World) :
  steady (scaleObject ax hit i w) w.
Proof. unfold scaleObject. cbv zeta. by repeat case_decide. Qed.

Lemma scaleObject_other (ax : string) (hit : Vector3) (i : nat) (w : World)
  (r : ref) :
  r ≠ objectAt (controls w) i → scene (scaleObject ax hit i w) r = scene w r.
Proof.
  intros Hr. unfold scaleObject. cbv zeta.
  repeat case_decide; try done; by rewrite writeScale_other.
Qed.

(** Scaling changes the scale of an object and nothing else of it. *)
Lemma scaleObject_body (ax : string) (hit : Vector3) (i : nat) (w : World)
  (r : ref) :
  body (scene (scaleObject ax hit i w) r) = body (scene w r).
Proof.
  destruct (decide (r = objectAt (controls w) i)) as [->|Hne];
    [|by rewrite scaleObject_other].
  unfold scaleObject. cbv zeta.
  repeat case_decide; try done; by rewrite writeScale_same.
Qed.

(** The scale of object [i] after its turn, for the token "XYZ". *)
Lemma scaleObject_uniform (hit : Vector3) (i : nat) (w : World) :
  let c := controls w in
  let a := attributeAt c i in
  scale (scene (scaleObject "XYZ" hit i w) (objectAt c i))
  = v_multiplyScalar (oldScale a)
      (lit 1 ⊕ vy (v_multiply (v_sub hit (offset c)) (parentScale a))).
Proof.
  unfold scaleObject. cbv zeta. rewrite decide_True by done.
  by rewrite writeScale_same.
Qed.

(** With no physics object in the selection the loop visits every object
    in turn, and ends. *)
Lemma scaleLoop_plain (ax : string) (hit : Vector3) (fuel i : nat) (w : World) :
  (∀ j, j < length (objects (controls w)) →
        body (scene w (objectAt (controls w) j)) = None) →
  length (objects (controls w)) - i ≤ fuel →
  scaleLoop fuel ax hit i w
  = Some (fold_left (λ w' j, scaleObject ax hit j w')
            (seq i (length (objects (controls w)) - i)) w).
Proof.
  revert i w. induction fuel as [|fuel IH]; intros i w Hplain Hfuel.
  - simpl. case_decide; [lia|].
    by replace (length (objects (controls w)) - i) with 0 by lia.
  - simpl. case_decide as Hi.
    2:{ by replace (length (objects (controls w)) - i) with 0 by lia. }
    pose proof (scaleObject_steady ax hit i w) as Hs.
    rewrite (steady_objectAt _ _ i Hs), scaleObject_body, Hplain by done.
    rewrite IH.
    + rewrite (steady_objects _ _ Hs).
      replace (length (objects (controls w)) - i)
        with (S (length (objects (controls w)) - S i)) by lia.
      done.
    + intros j Hj. rewrite (steady_objects _ _ Hs) in Hj.
      rewrite (steady_objectAt _ _ j Hs), scaleObject_body. by apply Hplain.
    + rewrite (steady_objects _ _ Hs). lia.
Qed.

Lemma scaleLoop_plain_all (ax : string) (hit : Vector3) (fuel : nat)
  (w : World) :
  (∀ j, j < length (objects (controls w)) →
        body (scene w (objectAt (controls w) j)) = None) →
  length (objects (controls w)) ≤ fuel →
  scaleLoop fuel ax hit 0 w
  = Some (forIndices (length (objects (controls w))) (scaleObject ax hit) w).
Proof.
  intros Hplain Hfuel. rewrite scaleLoop_plain by (done || lia).
  by rewrite Nat.sub_0_r.
Qed.

(** A move in [SCALE] mode whose ray hits the active plane runs the loop
    and, when it ends, the pose. *)
Lemma onPointerMove_scale (fuel : nat) (hit : Intersection)
  (rest : list Intersection) (w : World) (ax : string) :
  mode (controls w) = SCALE →
  axis (controls w) = Some ax →
  dragging (controls w) = true →
  objects (controls w) ≠ [] →
  onPointerMove fuel (hit :: rest) w
  = updatePose <$> scaleLoop fuel ax (ipoint hit) 0 w.
Proof.
  intros Hm Ha Hd Hne. unfold onPointerMove. cbv zeta. rewrite Ha.
  rewrite decide_False.
  - simpl. rewrite decide_False by (rewrite Hm; done).
    by rewrite decide_True.
  - apply nonempty_length in Hne. rewrite Hm, Hd. intros [?|[?|?]]; done.
Qed.

(** C2, as amended.  In [SCALE] mode, in a frame of a drag on the token
    "XYZ" over a selection without physics objects, the scale of every
    selected object becomes its old scale, on each of the three axes,
    times 1 plus the y component of the drag, which is the y of the hit
    minus that of the origin of the drag, times the y of the parent scale
    of the object. *)
Theorem scale_uniform (fuel : nat) (hit : Intersection)
  (rest : list Intersection) (w : World) :
  mode (controls w) = SCALE →
  axis (controls w) = Some "XYZ" →
  dragging (controls w) = true →
  objects (controls w) ≠ [] →
  NoDup (objects (controls w)) →
  slots (controls w) →
  (∀ j, j < length (objects (controls w)) →
        body (scene w (objectAt (controls w) j)) = None) →
  length (objects (controls w)) ≤ fuel →
  let c := controls w in
  ∃ w',
    onPointerMove fuel (hit :: rest) w = Some w'
    ∧ ∀ j, j < length (objects c) →
        let old := oldScale (attributeAt c j) in
        let d :=
          (vy (ipoint hit) ⊖ vy (offset c))
          ⊗ vy (parentScale (attributeAt c j)) in
        scale (scene w' (objectAt c j))
        = vec3 (vx old ⊗ (lit 1 ⊕ d)) (vy old ⊗ (lit 1 ⊕ d))
            (vz old ⊗ (lit 1 ⊕ d)).
Proof.
  intros Hm Ha Hd Hne Hnd _ Hplain Hfuel c. subst c.
  rewrite (onPointerMove_scale fuel hit rest w "XYZ") by done.
  rewrite scaleLoop_plain_all by done.
  eexists. split; [done|].
  intros j Hj. cbv zeta. rewrite updatePose_scene.
  rewrite (forIndices_written (scaleObject "XYZ" (ipoint hit)) _ j w
             (scaleObject_steady _ _) (scaleObject_other _ _) Hnd Hj (le_n _)).
  pose proof (forIndices_steady j (scaleObject "XYZ" (ipoint hit)) w
                (scaleObject_steady "XYZ" (ipoint hit))) as Hs.
  rewrite <- (steady_objectAt _ _ j Hs).
  rewrite scaleObject_uniform.
  rewrite (steady_attributeAt _ _ j Hs).
  destruct Hs as (Hs & _). by injection Hs as _ _ _ _ _ _ _ _ _ -> _ _ _.
Qed.

(** A physics object at the place [i] with [i - 1] shapes sends the loop
    back to itself: the loop does not end. *)
Lemma scaleLoop_stuck (ax : string) (hit : Vector3) (fuel i : nat) (w : World)
  (shapes : list Shape) :
  i < length (objects (controls w)) →
  body (scene w (objectAt (controls w) i)) = Some shapes →
  S (length shapes) = i →
  scaleLoop fuel ax hit i w = None.
Proof.
  revert w shapes. induction fuel as [|fuel IH]; intros w shapes Hi Hb Hlen.
  - simpl. by rewrite decide_True.
  - simpl. rewrite decide_True by done.
    pose proof (scaleObject_steady ax hit i w) as Hs.
    rewrite (steady_objectAt _ _ i Hs), scaleObject_body, Hb.
    rewrite Hlen.
    apply (IH _ (map (syncShape (scale (scene (scaleObject ax hit i w)
                                          (objectAt (controls w) i)))) shapes)).
    + simpl. by rewrite (steady_objects _ _ Hs).
    + simpl. rewrite (steady_objectAt _ _ i Hs).
      by rewrite fn_lookup_insert.
    + by rewrite length_map.
Qed.

Lemma scaleLoop_stuck_at_second (ax : string) (hit : Vector3) (fuel : nat)
  (w : World) :
  1 < length (objects (controls w)) →
  body (scene w (objectAt (controls w) 0)) = None →
  body (scene w (objectAt (controls w) 1)) = Some [] →
  scaleLoop fuel ax hit 0 w = None.
Proof.
  intros Hn H0 H1. destruct fuel as [|fuel]; simpl.
  - rewrite decide_True by lia. done.
  - rewrite decide_True by lia.
    pose proof (scaleObject_steady ax hit 0 w) as Hs.
    rewrite (steady_objectAt _ _ 0 Hs), scaleObject_body, H0.
    apply (scaleLoop_stuck ax hit fuel 1 _ []); [|
      |done].
    + by rewrite (steady_objects _ _ Hs).
    + by rewrite (steady_objectAt _ _ 1 Hs), scaleObject_body.
Qed.

End Scaling.

Section ScalingExamples.
Import Exact Scenes.

(** The statement of C2 as amended, on one mesh dragged up by 1. *)
Lemma scale_uniform_witness :
  let w := scalePressed "XYZ" in
  let hit := mkIntersection "XY" (vec 0 1 0) in
  let c := controls w in
  ∃ w',
    onPointerMove 1 [hit] w = Some w'
    ∧ ∀ j, j < length (objects c) →
        let old := oldScale (attributeAt c j) in
        let d :=
          (vy (ipoint hit) ⊖ vy (offset c))
          ⊗ vy (parentScale (attributeAt c j)) in
        scale (scene w' (objectAt c j))
        = vec3 (vx old ⊗ (lit 1 ⊕ d)) (vy old ⊗ (lit 1 ⊕ d))
            (vz old ⊗ (lit 1 ⊕ d)).
Proof.
  apply (scale_uniform 1 (mkIntersection "XY" (vec 0 1 0)) []
           (scalePressed "XYZ")).
  - computed.
  - computed.
  - computed.
  - computed.
  - apply NoDup_by_computation. vm_compute. reflexivity.
  - computed.
  - intros j Hj. assert (j = 0) as -> by (vm_compute in Hj; lia).
    vm_compute. reflexivity.
  - computed.
Defined.

(** The frame of the witness, computed: the scale (1, 1, 1) doubled. *)
Lemma scale_uniform_doubles :
  (λ w', xyz (scale (scene w' 1)))
    <$> onPointerMove 1 (hitAt "XY" (vec 0 1 0)) (scalePressed "XYZ")
  = Some (2, 2, 2)%Q.
Proof. vm_compute. reflexivity. Qed.

(** C2 as stated fails: on the token "XYZE" the same drag leaves the scale
    at (1, 1, 1), where the old scale times 1 + 1 is (2, 2, 2). *)
Lemma scale_on_XYZE_does_nothing :
  let w := scalePressed "XYZE" in
  let a := attributeAt (controls w) 0 in
  let d := vy (v_multiply (v_sub (vec 0 1 0) (offset (controls w)))
                 (parentScale a)) in
  mode (controls w) = SCALE
  ∧ axis (controls w) = Some "XYZE"
  ∧ xyz (v_multiplyScalar (oldScale a) (lit 1 ⊕ d)) = (2, 2, 2)%Q
  ∧ (λ w', xyz (scale (scene w' 1)))
      <$> onPointerMove 1 (hitAt "XY" (vec 0 1 0)) w
    = Some (1, 1, 1)%Q.
Proof. repeat split; vm_compute; reflexivity. Qed.

(** C9 fails on the code: the physics object comes first and has one
    shape; after its turn the loop over the shapes has left the index at 1,
    the outer loop steps to 2 and ends; the mesh, whose own snapshot and the
    drag of 1 along X give the scale (2, 1, 1), keeps the scale
    (1, 1, 1). *)
Lemma scale_skips_after_physics :
  (λ w', (xyz (scale (scene w' 1)), xyz (scale (scene w' 2))))
    <$> onPointerMove 5 (hitAt "XY" (vec 1 0 0)) scaleBoxAndMesh
  = Some ((2, 1, 1)%Q, (1, 1, 1)%Q)
  ∧ xyz (scale (scene (scaleObject "X" (vec 1 0 0) 1 scaleBoxAndMesh) 2))
    = (2, 1, 1)%Q.
Proof. split; vm_compute; reflexivity. Qed.

(** With the physics object second and without shapes, the frame does not
    end, whatever the fuel. *)
Lemma scale_loops_on_physics (fuel : nat) :
  onPointerMove fuel (hitAt "XY" (vec 1 0 0)) scaleMeshAndBody = None.
Proof.
  unfold hitAt.
  rewrite (onPointerMove_scale fuel _ [] scaleMeshAndBody "X");
    [|vm_compute; done..].
  rewrite scaleLoop_stuck_at_second; [done| | |].
  - computed.
  - computed.
  - computed.
Qed.

End ScalingExamples.

(** ** The round trip of a translation *)

Section ExactLaws.
Import Exact.
Local Open Scope Qc_scope.

Lemma ofZ_0 : ofZ 0 = 0.
Proof. apply Qc_is_canon. reflexivity. Qed.

Lemma inverse_of_rotation_exact (m : Matrix4) :
  e12 (inverse (extractRotation m)) = 0
  ∧ e13 (inverse (extractRotation m)) = 0
  ∧ e14 (inverse (extractRotation m)) = 0.
Proof.
  unfold inverse. case_decide as Hd; [done|].
  unfold ofEntries, cofactor. cbn -[Qcplus Qcmult Qcminus Qcdiv Qcopp sqrt].
  unfold Qcdiv. repeat split; ring.
Qed.

Lemma exactness : Exactness.
Proof.
  split.
  - intros x. change (x + ofZ 0 = x). rewrite ofZ_0. ring.
  - intros x. change (x - x = ofZ 0). rewrite ofZ_0. ring.
  - intros x. change (ofZ 0 * x = ofZ 0). rewrite ofZ_0. ring.
  - intros x. change (x * ofZ 0 = ofZ 0). rewrite ofZ_0. ring.
  - intros x d. change (x + d + - d = x). ring.
  - intros m. change (lit 0) with (ofZ 0). rewrite ofZ_0.
    apply inverse_of_rotation_exact.
Qed.

End ExactLaws.

Section RoundTrip.
Context {N : JsNumber} {L : Library} {G : GizmoTables}.

Lemma snapshotObject_keeps (i : nat) (w : World) :
  settings (controls (snapshotObject i w)) = settings (controls w)
  ∧ length (attributes (controls (snapshotObject i w)))
    = length (attributes (controls w))
  ∧ surroundings (snapshotObject i w) = surroundings w.
Proof. unfold snapshotObject. simpl. repeat split. apply length_insert. Qed.

Lemma snapshotted_keeps (n : nat) (w : World) :
  settings (controls (forIndices n snapshotObject w)) = settings (controls w)
  ∧ length (attributes (controls (forIndices n snapshotObject w)))
    = length (attributes (controls w))
  ∧ surroundings (forIndices n snapshotObject w) = surroundings w.
Proof.
  induction n as [|n (H1 & H2 & H3)]; [done|].
  rewrite forIndices_S.
  destruct (snapshotObject_keeps n (forIndices n snapshotObject w))
    as (K1 & K2 & K3).
  repeat split; congruence.
Qed.

Lemma snapshotObject_slot (i : nat) (w : World) :
  i < length (attributes (controls w)) →
  let a := attributeAt (controls (snapshotObject i w)) i in
  let o := scene w (objectAt (controls w) i) in
  oldPosition a = position o
  ∧ parentRotationMatrix a = m_extractRotation (parentMatrixWorld w o).
Proof.
  intros Hi. cbv zeta. unfold snapshotObject, attributeAt. simpl.
  by rewrite list_lookup_insert_eq.
Qed.

Lemma snapshotObject_other_slot (i j : nat) (w : World) :
  j ≠ i →
  attributeAt (controls (snapshotObject i w)) j = attributeAt (controls w) j.
Proof.
  intros Hj. unfold snapshotObject, attributeAt. simpl.
  by rewrite list_lookup_insert_ne.
Qed.

(** The loop of the press takes down, in the slot of every selected object,
    its position and the rotation of its parent. *)
Lemma snapshotted_slot (n i : nat) (w : World) :
  i < n → i < length (attributes (controls w)) →
  let a := attributeAt (controls (forIndices n snapshotObject w)) i in
  let o := scene w (objectAt (controls w) i) in
  oldPosition a = position o
  ∧ parentRotationMatrix a = m_extractRotation (parentMatrixWorld w o).
Proof.
  intros Hin Hi. induction n as [|n IH]; [lia|].
  rewrite forIndices_S. cbv zeta.
  destruct (snapshotted_keeps n w) as (Hset & Hlen & Hsur).
  assert (Ho : ∀ j, objectAt (controls (forIndices n snapshotObject w)) j
                    = objectAt (controls w) j).
  { intros j. unfold objectAt. by injection Hset as ->. }
  injection Hsur as Hsc _ _ _ _.
  destruct (decide (i = n)) as [->|Hne].
  - pose proof (snapshotObject_slot n (forIndices n snapshotObject w)) as Hstep.
    cbv zeta in Hstep. rewrite Ho in Hstep. unfold parentMatrixWorld in *.
    rewrite Hsc in Hstep. apply Hstep. lia.
  - rewrite snapshotObject_other_slot by done. apply IH. lia.
Qed.

(** A press on a picker whose ray meets the active plane. *)
Lemma onPointerDown_snapshots (pick origin : Intersection)
  (pickers plane : list Intersection) (w : World) :
  objects (controls w) ≠ [] →
  dragging (controls w) = false →
  mode (controls w) ≠ NONE →
  slots (controls w) →
  let w1 := onPointerDown (pick :: pickers) (origin :: plane) w in
  objects (controls w1) = objects (controls w)
  ∧ mode (controls w1) = mode (controls w)
  ∧ space (controls w1) = space (controls w)
  ∧ snap (controls w1) = snap (controls w)
  ∧ axis (controls w1) = Some (iname pick)
  ∧ dragging (controls w1) = true
  ∧ offset (controls w1) = ipoint origin
  ∧ scene w1 = scene w
  ∧ ∀ j, j < length (objects (controls w)) →
      oldPosition (attributeAt (controls w1) j)
      = position (scene w (objectAt (controls w) j))
      ∧ parentRotationMatrix (attributeAt (controls w1) j)
        = m_extractRotation
            (parentMatrixWorld w (scene w (objectAt (controls w) j))).
Proof.
  intros Hne Hd Hm Hslots w1. unfold w1, onPointerDown. cbv zeta.
  rewrite decide_False.
  2:{ apply nonempty_length in Hne. rewrite Hd. intros [?|[?|?]]; done. }
  cbn [intersectObjects head].
  set (w0 := set_controls _ w).
  destruct (updatePose_keeps w0) as (K1 & _ & K3 & _ & K5); [done|].
  set (wp := updatePose w0) in *.
  set (w2 := set_controls _ wp).
  assert (Hn : length (objects (controls w2)) = length (objects (controls w))).
  { transitivity (length (objects (controls wp))); [done|].
    by injection K1 as ->. }
  destruct (snapshotted_keeps (length (objects (controls w2))) w2)
    as (S1 & S2 & S3).
  set (w3 := forIndices _ snapshotObject w2) in *.
  assert (H2 : settings (controls w2) = settings (controls w0)).
  { transitivity (settings (controls wp)); done. }
  assert (H3 : settings (controls w3) = settings (controls w0)) by congruence.
  assert (Hsc : scene w2 = scene w).
  { transitivity (scene wp); [done|]. by injection K5. }
  assert (Hob : ∀ j, objectAt (controls w2) j = objectAt (controls w) j).
  { intros j. unfold objectAt.
    replace (objects (controls w2)) with (objects (controls w0)); [done|].
    symmetry. by injection H2. }
  assert (Hat : length (attributes (controls w2))
                = length (attributes (controls w))).
  { transitivity (length (attributes (controls wp))); [done|]. by rewrite K3. }
  unfold slots in Hslots.
  repeat split.
  - transitivity (objects (controls w3)); [done|]. by injection H3.
  - transitivity (mode (controls w3)); [done|]. by injection H3.
  - transitivity (space (controls w3)); [done|]. by injection H3.
  - transitivity (snap (controls w3)); [done|]. by injection H3.
  - transitivity (axis (controls w3)); [done|]. by injection H3.
  - transitivity (scene w3); [done|]. rewrite <- Hsc. by injection S3.
  - transitivity (oldPosition (attributeAt (controls w3) j)); [done|].
    unfold w3. rewrite Hn.
    destruct (snapshotted_slot (length (objects (controls w))) j w2)
      as [Hp _]; [done|lia|].
    by rewrite Hp, Hob, Hsc.
  - transitivity (parentRotationMatrix (attributeAt (controls w3) j)); [done|].
    unfold w3. rewrite Hn.
    destruct (snapshotted_slot (length (objects (controls w))) j w2)
      as [_ Hp]; [done|lia|].
    rewrite Hp, Hob. unfold parentMatrixWorld. by rewrite Hsc.
Qed.

Lemma snapshots_attributeAt (c' c : TransformControls) (j : nat) :
  snapshots c' = snapshots c →
  snapshot (attributeAt c' j) = snapshot (attributeAt c j).
Proof.
  unfold snapshots, attributeAt. intros H.
  apply (f_equal (λ l, l !! j)) in H. rewrite !list_lookup_fmap in H.
  destruct (attributes c' !! j), (attributes c !! j); simpl in *;
    congruence.
Qed.

Context {E : Exactness}.

(** With the pointer back at the origin of the drag, the vector of a
    translation along X in [WORLD] space is zero. *)
Lemma translateDelta_back (c : TransformControls) (d : Vector3)
  (a : TransformControlAtttributes) (m : Matrix4) :
  space c = WORLD →
  parentRotationMatrix a = m_extractRotation m →
  translateDelta c "X" (v_add (v_add (offset c) d) (v_negate d)) a = v_zero.
Proof.
  intros Hs Hm. unfold translateDelta. cbv zeta.
  rewrite decide_True by (by left).
  destruct (inverse_of_rotation m) as (H12 & H13 & H14).
  rewrite Hm. unfold v_applyMatrix4, maskAxes. cbn.
  rewrite H12, H13, H14.
  rewrite !add_neg, !sub_diag, !mul_0_l, !mul_0_r, !add_0_r, !mul_0_l.
  done.
Qed.

Lemma v_add_zero (v : Vector3) : v_add v v_zero = v.
Proof. destruct v. unfold v_add. simpl. by rewrite !add_0_r. Qed.

(** C7, as amended.  In exact arithmetic and with snapping off, in
    [TRANSLATE] mode and [WORLD] space: after a press on the X handle, a
    frame with the pointer moved by [d] from the origin of the drag, and a
    frame with it moved by [-d] from there, every selected object is at the
    position it had before the press, whatever the matrices of its
    parent. *)
Theorem translate_round_trip (fuel : nat) (pick origin : Intersection)
  (pickers plane restA restB : list Intersection) (nameA nameB : string)
  (d : Vector3) (w : World) :
  mode (controls w) = TRANSLATE →
  space (controls w) = WORLD →
  snap (controls w) = false →
  dragging (controls w) = false →
  objects (controls w) ≠ [] →
  NoDup (objects (controls w)) →
  slots (controls w) →
  parented w →
  iname pick = "X" →
  let w1 := onPointerDown (pick :: pickers) (origin :: plane) w in
  let there := v_add (ipoint origin) d in
  let back := v_add there (v_negate d) in
  ∃ w2 w3,
    onPointerMove fuel (mkIntersection nameA there :: restA) w1 = Some w2
    ∧ onPointerMove fuel (mkIntersection nameB back :: restB) w2 = Some w3
    ∧ ∀ j, j < length (objects (controls w)) →
        position (scene w3 (objectAt (controls w) j))
        = position (scene w (objectAt (controls w) j)).
Proof.
  intros Hm Hs Hsn Hd Hne Hnd Hslots _ Hpick w1 there back.
  destruct (onPointerDown_snapshots pick origin pickers plane w)
    as (D1 & D2 & D3 & D4 & D5 & D6 & D7 & D8 & D9); try done.
  { by rewrite Hm. }
  fold w1 in D1, D2, D3, D4, D5, D6, D7, D8, D9.
  destruct (length (objects (controls w))) as [|k] eqn:Hlen.
  { by apply nonempty_length in Hne. }
  rewrite Hpick in D5.
  destruct (translate_frame fuel (mkIntersection nameA there) restA w1 "X" k)
    as (w2 & Hw2 & A1 & A2 & A3 & _ & _); try congruence.
  assert (Hobj2 : objects (controls w2) = objects (controls w)).
  { rewrite <- D1. by injection A1. }
  destruct (translate_frame fuel (mkIntersection nameB back) restB w2 "X" k)
    as (w3 & Hw3 & _ & _ & _ & _ & Hpos).
  { rewrite <- D2 in Hm. rewrite <- Hm. by injection A1. }
  { rewrite <- D5. by injection A1. }
  { rewrite <- D6. by injection A1. }
  { by rewrite Hobj2. }
  { by rewrite Hobj2. }
  exists w2, w3. repeat split; try done.
  intros j Hj. specialize (Hpos j Hj).
  assert (Hoa : ∀ i, objectAt (controls w2) i = objectAt (controls w) i).
  { intros i. unfold objectAt. by rewrite Hobj2. }
  rewrite Hoa in Hpos. rewrite Hpos.
  assert (Hsn2 : snap (controls w2) = false).
  { rewrite <- Hsn, <- D4. by injection A1. }
  rewrite Hsn2. cbn [andb].
  assert (Hold : ∀ i, i < S k →
    oldPosition (attributeAt (controls w2) i)
    = position (scene w (objectAt (controls w) i))
    ∧ parentRotationMatrix (attributeAt (controls w2) i)
      = m_extractRotation
          (parentMatrixWorld w (scene w (objectAt (controls w) i)))).
  { intros i Hi. destruct (D9 i Hi) as [<- <-].
    pose proof (snapshots_attributeAt _ _ i A2) as Hsnap.
    by injection Hsnap. }
  destruct (Hold j Hj) as [-> _]. destruct (Hold k) as [_ Hpar]; [lia|].
  assert (Hback : ipoint (mkIntersection nameB back)
                  = v_add (v_add (offset (controls w2)) d) (v_negate d)).
  { unfold back, there. simpl. rewrite <- D7.
    by injection A1 as _ _ _ _ _ _ _ _ _ -> _ _ _. }
  assert (Hsp2 : space (controls w2) = WORLD).
  { rewrite <- Hs, <- D3. by injection A1. }
  rewrite Hback, (translateDelta_back _ _ _ _ Hsp2 Hpar).
  apply v_add_zero.
Qed.

End RoundTrip.

Section RoundTripExamples.
Import Exact Scenes.

(** The statement of C7 as amended on two meshes, the pointer moved by
    (4, 0, 0) and back. *)
Lemma translate_round_trip_witness :
  let w := twoMeshes in
  let w1 := onPointerDown (hitAt "X" v_zero) (hitAt "XY" v_zero) w in
  let there := v_add v_zero (vec 4 0 0) in
  let back := v_add there (v_negate (vec 4 0 0)) in
  ∃ w2 w3,
    onPointerMove 0 [mkIntersection "XY" there] w1 = Some w2
    ∧ onPointerMove 0 [mkIntersection "XY" back] w2 = Some w3
    ∧ ∀ j, j < length (objects (controls w)) →
        position (scene w3 (objectAt (controls w) j))
        = position (scene w (objectAt (controls w) j)).
Proof.
  apply (@translate_round_trip _ _ _ exactness 0
           (mkIntersection "X" v_zero) (mkIntersection "XY" v_zero)
           [] [] [] [] "XY" "XY" (vec 4 0 0) twoMeshes).
  - computed.
  - computed.
  - computed.
  - computed.
  - computed.
  - apply NoDup_by_computation. vm_compute. reflexivity.
  - computed.
  - unfold parented. apply (bool_decide_eq_true_1 _). vm_compute.
    reflexivity.
  - reflexivity.
Defined.

(** C7 as stated fails with snapping on: the mesh starts at (1/2, 0, 0);
    the pointer is moved by (1, 0, 0) and back; the mesh ends at
    (1, 0, 0). *)
Lemma round_trip_with_snap_moves :
  xyz (position (scene snapOneBefore 1)) = (1 # 2, 0, 0)%Q
  ∧ snap (controls snapOneBefore) = true
  ∧ mode (controls snapOneBefore) = TRANSLATE
  ∧ space (controls snapOneBefore) = WORLD
  ∧ axis (controls snapOne) = Some "X"
  ∧ (λ w, xyz (position (scene w 1)))
      <$> (onPointerMove 0 (hitAt "XY" (vec 1 0 0)) snapOne
           ≫= onPointerMove 0
                (hitAt "XY" (v_add (vec 1 0 0) (v_negate (vec 1 0 0)))))
    = Some (1, 0, 0)%Q.
Proof. repeat split; vm_compute; reflexivity. Qed.

End RoundTripExamples.

(** ** The pose, again *)

Section PoseAgain.
Context {N : JsNumber} {L : Library} {G : GizmoTables}.

Lemma posedSlots_0 (w : World) : posedSlots 0 w = attributes (controls w).
Proof.
  apply list_eq. intros i. unfold posedSlots.
  rewrite list_lookup_imap. by destruct (_ !! i).
Qed.

Lemma posedSlots_S (k : nat) (w : World) :
  <[k := posedSlot (scene w (objectAt (controls w) k))
           (default newAttributes (posedSlots k w !! k))]> (posedSlots k w)
  = posedSlots (S k) w.
Proof.
  apply list_eq. intros i. unfold posedSlots.
  destruct (decide (i = k)) as [->|Hne].
  - destruct (attributes (controls w) !! k) as [a|] eqn:Ha.
    + rewrite list_lookup_insert_eq.
      2:{ rewrite length_imap. by eapply lookup_lt_Some. }
      rewrite !list_lookup_imap, Ha. simpl.
      rewrite decide_False by lia. by rewrite decide_True by lia.
    + rewrite list_insert_ge.
      2:{ rewrite length_imap. by apply lookup_ge_None in Ha. }
      by rewrite !list_lookup_imap, Ha.
  - rewrite list_lookup_insert_ne by done.
    rewrite !list_lookup_imap.
    destruct (attributes (controls w) !! i) as [a|]; [|done]. simpl.
    destruct (decide (i < k)).
    + by rewrite decide_True by lia.
    + by rewrite decide_False by lia.
Qed.

(** The loop of [updatePose] in closed form. *)
Lemma posed_closed (k : nat) (w : World) :
  forIndices k poseObject w
  = set_controls
      (set_selfPosition (sumPositions k w (selfPosition (controls w)))
         (set_attributes (posedSlots k w) (controls w))) w.
Proof.
  induction k as [|k IH].
  - rewrite posedSlots_0. by destruct w as [[] ?].
  - rewrite forIndices_S, IH.
    transitivity
      (set_controls
         (set_selfPosition
            (v_add (sumPositions k w (selfPosition (controls w)))
               (v_setFromMatrixPosition
                  (matrixWorld (scene w (objectAt (controls w) k)))))
            (set_attributes
               (<[k := posedSlot (scene w (objectAt (controls w) k))
                         (default newAttributes (posedSlots k w !! k))]>
                  (posedSlots k w))
               (controls w))) w); [reflexivity|].
    rewrite posedSlots_S. unfold sumPositions at 2.
    by rewrite seq_S, fold_left_app.
Qed.

Lemma updateNode_twice (r : Euler) (e : Vector3) (ax : option string)
  (n : GizmoNode) :
  highlightNode ax (updateNode r e (highlightNode ax (updateNode r e n)))
  = highlightNode ax (updateNode r e n).
Proof.
  destruct n as [nm o h]. unfold updateNode, highlightNode. simpl.
  destruct (found "E" nm) eqn:HE; simpl.
  - destruct h; simpl; rewrite HE; done.
  - destruct (found "X" nm || found "Y" nm || found "Z" nm) eqn:HX; simpl.
    + destruct h; simpl; rewrite HE, HX; done.
    + destruct h; simpl; rewrite HE, HX; done.
Qed.

Lemma gizmo_posed_twice (r : Euler) (e : Vector3) (ax : option string)
  (g : TransformGizmo) :
  highlight ax (update r e (highlight ax (update r e g)))
  = highlight ax (update r e g).
Proof.
  unfold highlight, update. simpl. f_equal.
  rewrite <- !list_fmap_compose. apply list_fmap_ext.
  intros i n _. apply updateNode_twice.
Qed.

Lemma highlight_twice (ax : option string) (g : TransformGizmo) :
  highlight ax (highlight ax g) = highlight ax g.
Proof.
  unfold highlight. simpl. f_equal.
  rewrite <- list_fmap_compose. apply list_fmap_ext.
  intros i [nm o [h|]] _; done.
Qed.

(** The pose from the sum [s] of the world positions and the slots [l]. *)
Lemma updatePose_closed (w : World) :
  objects (controls w) ≠ [] → mode (controls w) ≠ NONE →
  let n := length (objects (controls w)) in
  updatePose w
  = orientGizmo
      (placeControls
         (set_controls
            (set_selfPosition (sumPositions n w v_zero)
               (set_attributes (posedSlots n w)
                  (set_visible true (controls w)))) w)).
Proof.
  intros Hne Hm n. unfold updatePose. cbv zeta.
  rewrite decide_False by by apply nonempty_length.
  rewrite decide_False by done.
  by rewrite posed_closed.
Qed.

Lemma posedSlots_twice (k : nat) (w w' : World) :
  scene w' = scene w → objects (controls w') = objects (controls w) →
  attributes (controls w') = posedSlots k w →
  posedSlots k w' = posedSlots k w.
Proof.
  intros Hs Ho Ha. unfold posedSlots at 1. rewrite Ha, Hs.
  unfold objectAt. rewrite Ho. unfold posedSlots.
  apply list_eq. intros i. rewrite !list_lookup_imap.
  destruct (attributes (controls w) !! i) as [a|]; [|done]. simpl.
  by destruct (decide (i < k)).
Qed.

Lemma sumPositions_ext (k : nat) (w w' : World) (p : Vector3) :
  scene w' = scene w → objects (controls w') = objects (controls w) →
  sumPositions k w' p = sumPositions k w p.
Proof.
  intros Hs Ho. unfold sumPositions, objectAt. by rewrite Hs, Ho.
Qed.

Lemma controls_ext (c c' : TransformControls) :
  settings c = settings c' →
  (attributes c, gizmo c, point c, toolScale c, eye c)
  = (attributes c', gizmo c', point c', toolScale c', eye c') →
  (camPosition c, camRotation c, visible c, selfPosition c, selfScale c)
  = (camPosition c', camRotation c', visible c', selfPosition c',
     selfScale c') →
  c = c'.
Proof.
  destruct c, c'. unfold settings. simpl. intros H1 H2 H3.
  injection H1 as -> -> -> -> -> -> -> -> -> -> -> -> ->.
  injection H2 as -> -> -> -> ->.
  by injection H3 as -> -> -> -> ->.
Qed.

Lemma world_ext (w w' : World) :
  controls w = controls w' → surroundings w = surroundings w' → w = w'.
Proof.
  destruct w, w'. unfold surroundings. simpl. intros -> H.
  by injection H as -> -> -> -> ->.
Qed.

(** What [updatePose] writes, with a selection and a gizmo in use. *)
Lemma updatePose_writes (w : World) :
  objects (controls w) ≠ [] → mode (controls w) ≠ NONE →
  let c := controls w in
  let n := length (objects c) in
  let c' := controls (updatePose w) in
  let pos := centre (sumPositions n w v_zero) n in
  attributes c' = posedSlots n w
  ∧ visible c' = true
  ∧ selfPosition c' = pos
  ∧ camPosition c' = v_setFromMatrixPosition (cameraMatrixWorld (camera w))
  ∧ camRotation c'
    = euler_setFromRotationMatrix
        (m_extractRotation (cameraMatrixWorld (camera w)))
  ∧ toolScale c' = toolScaleAt (camera w) (size c) pos
  ∧ selfScale c'
    = vec3 (toolScaleAt (camera w) (size c) pos)
        (toolScaleAt (camera w) (size c) pos)
        (toolScaleAt (camera w) (size c) pos)
  ∧ eye c' = eyeFrom (camera w) pos
  ∧ gizmo c'
    = posedGizmo c (default newAttributes (posedSlots n w !! 0))
        (eyeFrom (camera w) pos).
Proof.
  intros Hne Hm c n c'. unfold c'. rewrite updatePose_closed by done.
  fold c n. unfold orientGizmo. cbv zeta.
  rewrite decide_True by done.
  repeat split.
Qed.

Lemma updatePose_twice (w : World) :
  updatePose (updatePose w) = updatePose w.
Proof.
  destruct (decide (objects (controls w) = [])) as [He|Hne].
  { unfold updatePose. cbv zeta.
    rewrite (decide_True (P := length (objects (controls w)) = 0))
      by by rewrite He.
    by rewrite decide_True. }
  destruct (decide (mode (controls w) = NONE)) as [Hm|Hm].
  { assert (H : updatePose w = w).
    { unfold updatePose. cbv zeta.
      rewrite decide_False by by apply nonempty_length.
      by rewrite decide_True. }
    by rewrite !H. }
  set (w1 := updatePose w).
  assert (Hne1 : objects (controls w1) ≠ []).
  { unfold w1. by rewrite updatePose_objects. }
  assert (Hm1 : mode (controls w1) ≠ NONE).
  { unfold w1. by rewrite updatePose_mode. }
  destruct (updatePose_keeps w1 Hne1) as (K1 & _ & _ & K4 & K5).
  destruct (updatePose_keeps w Hne) as (J1 & _ & _ & _ & J5).
  fold w1 in J1, J5.
  destruct (updatePose_writes w1 Hne1 Hm1)
    as (A1 & A2 & A3 & A4 & A5 & A6 & A7 & A8 & A9).
  destruct (updatePose_writes w Hne Hm)
    as (B1 & B2 & B3 & B4 & B5 & B6 & B7 & B8 & B9).
  fold w1 in B1, B2, B3, B4, B5, B6, B7, B8, B9.
  assert (Ho : objects (controls w1) = objects (controls w)).
  { by injection J1. }
  assert (Hsc : scene w1 = scene w) by by injection J5.
  assert (Hcam : camera w1 = camera w) by by injection J5.
  assert (Hsz : size (controls w1) = size (controls w)) by by injection J1.
  assert (Hslots : posedSlots (length (objects (controls w1))) w1
                   = posedSlots (length (objects (controls w))) w).
  { rewrite Ho. apply posedSlots_twice; done. }
  assert (Hsum :
    sumPositions (length (objects (controls w1))) w1 v_zero
    = sumPositions (length (objects (controls w))) w v_zero).
  { rewrite Ho. by apply sumPositions_ext. }
  rewrite Hslots, Hsum, Ho, Hcam, Hsz in *.
  apply world_ext; [|done].
  apply controls_ext; [done| |].
  - rewrite A1, A9, K4, A6, A8, B1, B6, B8. do 4 f_equal.
    rewrite B9. unfold posedGizmo.
    replace (axis (controls w1)) with (axis (controls w)) by by injection J1.
    replace (space (controls w1)) with (space (controls w))
      by by injection J1.
    replace (mode (controls w1)) with (mode (controls w)) by by injection J1.
    rewrite B9. unfold posedGizmo.
    repeat case_decide; try done;
      by rewrite ?gizmo_posed_twice, ?highlight_twice.
  - by rewrite A4, A5, A2, A3, A7, B4, B5, B2, B3, B7.
Qed.

(** X5.  [updatePose] is idempotent: a second call in a row, the scene and
    the camera being as they were, changes nothing. *)
Theorem updatePose_idempotent (w : World) :
  updatePose (updatePose w) = updatePose w.
Proof. apply updatePose_twice. Qed.

End PoseAgain.

(** ** The selection, again *)

Section SelectionAgain.
Context {N : JsNumber} {L : Library} {G : GizmoTables}.

Lemma fold_left_seq_ext {A : Type} (f g : A → nat → A) (n : nat) (a : A) :
  (∀ a i, i < n → f a i = g a i) →
  fold_left f (seq 0 n) a = fold_left g (seq 0 n) a.
Proof.
  intros H. induction n as [|n IH]; [done|].
  rewrite seq_S, !fold_left_app. simpl.
  rewrite IH by (intros; apply H; lia). apply H. lia.
Qed.

Lemma sumPositions_objects (w : World) (p : Vector3) :
  sumPositions (length (objects (controls w))) w p
  = fold_left v_add
      (map (λ r, v_setFromMatrixPosition (matrixWorld (scene w r)))
         (objects (controls w))) p.
Proof.
  unfold sumPositions, objectAt.
  generalize (objects (controls w)). intros l.
  induction l as [|r l IH] using rev_ind; [done|].
  replace (length (l ++ [r])) with (S (length l))
    by (rewrite length_app; simpl; lia).
  rewrite seq_S, map_app, !fold_left_app. simpl.
  rewrite lookup_app_r by done. rewrite Nat.sub_diag. simpl.
  rewrite <- IH. f_equal.
  apply fold_left_seq_ext. intros a i Hi.
  by rewrite lookup_app_l.
Qed.

(** X4.  With a selection and a gizmo in use, [updatePose] shows the
    controls and puts them at the mean of the world positions of the
    selected objects, taken from their world matrices; their scale is the
    distance from there to the camera, or the size of an orthographic
    camera, divided by 6 and multiplied by [size]; [eye] is the unit vector
    from there to the camera; and the slot of every selected object holds
    its world position and rotation. *)
Theorem updatePose_places (w : World) :
  objects (controls w) ≠ [] → mode (controls w) ≠ NONE →
  slots (controls w) →
  let c := controls w in
  let c' := controls (updatePose w) in
  let worldPositionOf r := v_setFromMatrixPosition (matrixWorld (scene w r)) in
  let camPos := v_setFromMatrixPosition (cameraMatrixWorld (camera w)) in
  let pos :=
    v_divideScalar (fold_left v_add (map worldPositionOf (objects c)) v_zero)
      (lit (Z.of_nat (length (objects c)))) in
  let ts :=
    if isPerspectiveCamera (camera w)
    then v_distanceTo pos camPos ⊘ lit 6 ⊗ size c
    else cameraSize (camera w) ⊘ lit 6 ⊗ size c in
  visible c' = true
  ∧ selfPosition c' = pos
  ∧ toolScale c' = ts
  ∧ selfScale c' = vec3 ts ts ts
  ∧ eye c' = v_normalize (v_sub camPos pos)
  ∧ ∀ i r, objects c !! i = Some r →
      worldPosition (attributeAt c' i) = worldPositionOf r
      ∧ worldRotation (attributeAt c' i)
        = euler_setFromRotationMatrix
            (m_extractRotation (matrixWorld (scene w r))).
Proof.
  intros Hne Hm Hslots c c' wp camPos pos ts.
  destruct (updatePose_writes w Hne Hm)
    as (A1 & A2 & A3 & _ & _ & A6 & A7 & A8 & _).
  fold c c' in A1, A2, A3, A6, A7, A8.
  assert (Hpos : centre (sumPositions (length (objects c)) w v_zero)
                   (length (objects c)) = pos).
  { unfold centre. rewrite decide_True.
    - unfold c. by rewrite sumPositions_objects.
    - apply nonempty_length in Hne. fold c in Hne. lia. }
  rewrite Hpos in A3, A6, A7, A8.
  repeat split; try done.
  - unfold attributeAt. rewrite A1. unfold posedSlots.
    rewrite list_lookup_imap.
    destruct (attributes (controls w) !! i) as [a|] eqn:Ha.
    + simpl. rewrite decide_True by by eapply lookup_lt_Some.
      unfold objectAt. fold c. by rewrite H.
    + apply lookup_ge_None in Ha. apply lookup_lt_Some in H.
      unfold slots in Hslots. unfold c in H. lia.
  - unfold attributeAt. rewrite A1. unfold posedSlots.
    rewrite list_lookup_imap.
    destruct (attributes (controls w) !! i) as [a|] eqn:Ha.
    + simpl. rewrite decide_True by by eapply lookup_lt_Some.
      unfold objectAt. fold c. by rewrite H.
    + apply lookup_ge_None in Ha. apply lookup_lt_Some in H.
      unfold slots in Hslots. unfold c in H. lia.
Qed.

Lemma growAttributes_eq (n : nat) (attrs : list TransformControlAtttributes) :
  growAttributes n attrs
  = attrs ++ replicate (n - length attrs) newAttributes.
Proof.
  unfold growAttributes. generalize (n - length attrs). intros k.
  induction k as [|k IH]; simpl.
  - by rewrite app_nil_r.
  - rewrite IH, <- app_assoc. f_equal.
    clear IH. induction k as [|k IH]; [done|]. simpl. by rewrite IH.
Qed.

(** X3.  [attach] never shrinks the pool of attributes: it adds fresh slots
    at the end when more objects are selected than there are slots, and
    what the slots hold of an earlier press stays in them. *)
Theorem attach_reuses_slots (objs : list ref) (w : World) :
  let c := controls w in
  let c' := controls (attach objs w) in
  length (attributes c') = max (length (attributes c)) (length (objects c'))
  ∧ snapshots c'
    = snapshots c
      ++ replicate (length (objects c') - length (attributes c))
           (snapshot newAttributes).
Proof.
  cbv zeta. unfold attach. cbv zeta. case_decide as Hn.
  - rewrite updatePose_length, updatePose_snapshots, updatePose_objects.
    unfold snapshots. simpl. rewrite growAttributes_eq.
    rewrite length_app, length_replicate, map_app.
    split; [lia|]. f_equal. 
    generalize (length (fold_left (pushAttachable w) objs [])
                - length (attributes (controls w))).
    intros k. induction k as [|k IH]; [done|]. simpl. by rewrite IH.
  - simpl in *. unfold snapshots. simpl. rewrite growAttributes_eq.
    replace (length (fold_left (pushAttachable w) objs [])) with 0 by lia.
    simpl. rewrite !app_nil_r. split; [lia|done].
Qed.

Lemma attachable_ext (w w' : World) (r : ref) :
  scene w' = scene w → attachable w' r = attachable w r.
Proof. intros H. unfold attachable. by rewrite H. Qed.

(** X2.  Attaching the same objects a second time in a row, the scene and
    the camera being as they were, changes nothing. *)
Theorem attach_idempotent (objs : list ref) (w : World) :
  attach objs (attach objs w) = attach objs w.
Proof.
  set (w1 := attach objs w).
  assert (Hsc : scene w1 = scene w) by apply attach_selects.
  assert (Hsel : fold_left (pushAttachable w1) objs []
                 = fold_left (pushAttachable w) objs []).
  { rewrite !pushAttachable_filter. f_equal.
    apply filter_ext. intros r. by apply attachable_ext. }
  assert (Ho : objects (controls w1) = fold_left (pushAttachable w) objs []).
  { unfold w1, attach. cbv zeta. case_decide as Hn.
    - by rewrite updatePose_objects.
    - simpl in *.
      destruct (fold_left (pushAttachable w) objs []); [done|simpl in Hn; lia]. }
  pose proof (attach_slots objs w) as Hslots. fold w1 in Hslots.
  unfold slots in Hslots.
  assert (Hw2 :
    set_controls
      (set_attributes
         (growAttributes (length (fold_left (pushAttachable w1) objs []))
            (attributes
               (set_objects (fold_left (pushAttachable w1) objs [])
                  (controls w1))))
         (set_objects (fold_left (pushAttachable w1) objs []) (controls w1)))
      w1 = w1).
  { rewrite Hsel, <- Ho. rewrite growAttributes_eq. simpl.
    replace (length (objects (controls w1))
             - length (attributes (controls w1))) with 0 by lia.
    simpl. rewrite app_nil_r. by destruct w1 as [[] ?]. }
  unfold attach at 1. cbv zeta. rewrite Hw2.
  change (objects (set_attributes ?l (set_objects ?o ?c))) with o.
  rewrite Hsel. clear Hsc Hsel Ho Hslots Hw2. subst w1.
  unfold attach. cbv zeta.
  change (objects (set_attributes ?l (set_objects ?o ?c))) with o.
  case_decide as Hn.
  - apply updatePose_twice.
  - done.
Qed.

End SelectionAgain.

(** ** The press, again *)

Section PressAgain.
Context {N : JsNumber} {L : Library} {G : GizmoTables}.

Lemma snapshotObject_snapshot (i : nat) (w : World) :
  i < length (attributes (controls w)) →
  snapshot (attributeAt (controls (snapshotObject i w)) i)
  = snapshotOf w (scene w (objectAt (controls w) i)).
Proof.
  intros Hi. unfold snapshotObject, attributeAt. simpl.
  by rewrite list_lookup_insert_eq.
Qed.

Lemma snapshotted_snapshot (n i : nat) (w : World) :
  i < n → i < length (attributes (controls w)) →
  snapshot (attributeAt (controls (forIndices n snapshotObject w)) i)
  = snapshotOf w (scene w (objectAt (controls w) i)).
Proof.
  intros Hin Hi. induction n as [|n IH]; [lia|].
  rewrite forIndices_S.
  destruct (snapshotted_keeps n w) as (Hset & Hlen & Hsur).
  assert (Ho : ∀ j, objectAt (controls (forIndices n snapshotObject w)) j
                    = objectAt (controls w) j).
  { intros j. unfold objectAt. by injection Hset as ->. }
  injection Hsur as Hsc _ _ _ _.
  destruct (decide (i = n)) as [->|Hne].
  - rewrite snapshotObject_snapshot by lia.
    rewrite Ho. unfold snapshotOf, parentMatrixWorld. by rewrite Hsc.
  - rewrite snapshotObject_other_slot by done. apply IH. lia.
Qed.

(** The state after a press on a picker whose ray meets the active
    plane. *)
Lemma onPointerDown_pressed (pick origin : Intersection)
  (pickers plane : list Intersection) (w : World) :
  objects (controls w) ≠ [] →
  dragging (controls w) = false →
  mode (controls w) ≠ NONE →
  slots (controls w) →
  let c := controls w in
  let w1 := onPointerDown (pick :: pickers) (origin :: plane) w in
  let c1 := controls w1 in
  objects c1 = objects c
  ∧ mode c1 = mode c
  ∧ length (attributes c1) = length (attributes c)
  ∧ axis c1 = Some (iname pick)
  ∧ editing c1 = true
  ∧ dragging c1 = true
  ∧ offset c1 = ipoint origin
  ∧ scene w1 = scene w
  ∧ history w1 = history w
  ∧ ∀ j, j < length (objects c) →
      snapshot (attributeAt c1 j) = snapshotOf w (scene w (objectAt c j)).
Proof.
  intros Hne Hd Hm Hslots c w1 c1. unfold c1, w1, onPointerDown. cbv zeta.
  rewrite decide_False.
  2:{ apply nonempty_length in Hne. rewrite Hd. intros [?|[?|?]]; done. }
  cbn [intersectObjects head].
  set (w0 := set_controls _ w).
  destruct (updatePose_keeps w0) as (K1 & _ & K3 & _ & K5); [done|].
  set (wp := updatePose w0) in *.
  set (w2 := set_controls _ wp).
  assert (Hn : length (objects (controls w2)) = length (objects (controls w))).
  { transitivity (length (objects (controls wp))); [done|].
    by injection K1 as ->. }
  destruct (snapshotted_keeps (length (objects (controls w2))) w2)
    as (S1 & S2 & S3).
  set (w3 := forIndices _ snapshotObject w2) in *.
  assert (H2 : settings (controls w2) = settings (controls w0)).
  { transitivity (settings (controls wp)); done. }
  assert (H3 : settings (controls w3) = settings (controls w0)) by congruence.
  assert (Hsc : scene w2 = scene w).
  { transitivity (scene wp); [done|]. by injection K5. }
  assert (Hob : ∀ j, objectAt (controls w2) j = objectAt (controls w) j).
  { intros j. unfold objectAt.
    replace (objects (controls w2)) with (objects (controls w0)); [done|].
    symmetry. by injection H2. }
  assert (Hat : length (attributes (controls w2))
                = length (attributes (controls w))).
  { transitivity (length (attributes (controls wp))); [done|]. by rewrite K3. }
  unfold slots in Hslots.
  repeat split.
  - transitivity (objects (controls w3)); [done|]. by injection H3.
  - transitivity (mode (controls w3)); [done|]. by injection H3.
  - transitivity (length (attributes (controls w3))); [done|].
    rewrite S2. exact Hat.
  - transitivity (axis (controls w3)); [done|]. by injection H3.
  - transitivity (editing (controls w3)); [done|]. by injection H3.
  - transitivity (scene w3); [done|]. rewrite <- Hsc. by injection S3.
  - transitivity (history w3); [done|].
    transitivity (history w2); [by injection S3|].
    transitivity (history wp); [done|]. by injection K5.
  - intros j Hj. unfold c in Hj.
    transitivity (snapshot (attributeAt (controls w3) j)); [done|].
    unfold w3. rewrite Hn.
    rewrite snapshotted_snapshot by (done || lia).
    rewrite Hob. unfold snapshotOf, parentMatrixWorld. by rewrite Hsc.
Qed.

(** X9.  A press on a picker whose ray meets the active plane, every
    selected object having a parent, starts an edit on the axis of the
    picker, with the point of the plane as origin of the drag, and takes
    down for every selected object its position, scale and quaternion, the
    rotation of its matrix, of its world matrix and of the world matrix of
    its parent, and the scale of the inverse of the latter; the scene and
    the history are as they were. *)
Theorem press_takes_snapshots (pick origin : Intersection)
  (pickers plane : list Intersection) (w : World) :
  objects (controls w) ≠ [] →
  dragging (controls w) = false →
  mode (controls w) ≠ NONE →
  slots (controls w) →
  parented w →
  let c := controls w in
  let w1 := onPointerDown (pick :: pickers) (origin :: plane) w in
  let c1 := controls w1 in
  axis c1 = Some (iname pick)
  ∧ editing c1 = true
  ∧ dragging c1 = true
  ∧ offset c1 = ipoint origin
  ∧ scene w1 = scene w
  ∧ history w1 = history w
  ∧ ∀ j, j < length (objects c) →
      snapshot (attributeAt c1 j) = snapshotOf w (scene w (objectAt c j)).
Proof.
  intros Hne Hd Hm Hslots _.
  by destruct (onPointerDown_pressed pick origin pickers plane w Hne Hd Hm
                 Hslots) as (_ & _ & _ & H).
Qed.

(** The history after a release during an edit. *)
Lemma onPointerUp_history (w : World) :
  editing (controls w) = true →
  mode (controls w) = TRANSLATE ∨ mode (controls w) = SCALE
  ∨ mode (controls w) = ROTATE →
  history (onPointerUp w)
  = history w
    ++ [concat (map (releasedActions w)
                  (seq 0 (length (objects (controls w)))))].
Proof.
  intros He Hm. unfold onPointerUp. cbv zeta. rewrite He.
  destruct Hm as [Hm|[Hm|Hm]].
  - rewrite decide_True by done. simpl.
    f_equal. f_equal. apply (pushed_actions _ _ _ []).
    intros acc i. unfold releasedActions. by rewrite decide_True.
  - rewrite decide_False by (rewrite Hm; done).
    rewrite decide_True by done. simpl.
    f_equal. f_equal. apply (pushed_actions _ _ _ []).
    intros acc i. unfold releasedActions.
    rewrite decide_False by (rewrite Hm; done). by rewrite decide_True.
  - rewrite decide_False by (rewrite Hm; done).
    rewrite decide_False by (rewrite Hm; done).
    rewrite decide_True by done. simpl.
    f_equal. f_equal. apply (pushed_actions _ _ _ []).
    intros acc i. unfold releasedActions.
    rewrite decide_False by (rewrite Hm; done).
    rewrite decide_False by (rewrite Hm; done). by rewrite decide_True.
Qed.

Lemma onPointerUp_keeps (w : World) :
  scene (onPointerUp w) = scene w
  ∧ editing (controls (onPointerUp w)) = false
  ∧ dragging (controls (onPointerUp w)) = false
  ∧ objects (controls (onPointerUp w)) = objects (controls w)
  ∧ attributes (controls (onPointerUp w)) = attributes (controls w)
  ∧ mode (controls (onPointerUp w)) = mode (controls w)
  ∧ axis (controls (onPointerUp w)) = axis (controls w)
  ∧ gizmo (controls (onPointerUp w)) = gizmo (controls w).
Proof.
  unfold onPointerUp. cbv zeta.
  destruct (editing (controls w)); [|done].
  repeat case_decide; done.
Qed.

(** X10.  A click on a picker, the pointer pressed where the ray meets
    the active plane and released without a move in between, every
    selected object having a parent, still adds a bundle to the history:
    one change action for every component of every selected object, each
    with its old value as new value.  The scene is as it was. *)
Theorem click_records_no_change (pick origin : Intersection)
  (pickers plane : list Intersection) (w : World) :
  objects (controls w) ≠ [] →
  dragging (controls w) = false →
  mode (controls w) = TRANSLATE ∨ mode (controls w) = SCALE
  ∨ mode (controls w) = ROTATE →
  slots (controls w) →
  parented w →
  let c := controls w in
  let w2 :=
    onPointerUp (onPointerDown (pick :: pickers) (origin :: plane) w) in
  ∃ bundle,
    history w2 = history w ++ [bundle]
    ∧ Forall (λ a, newValue a = oldValue a) bundle
    ∧ length bundle
      = (if decide (mode c = ROTATE) then 4 else 3) * length (objects c)
    ∧ scene w2 = scene w
    ∧ editing (controls w2) = false
    ∧ dragging (controls w2) = false.
Proof.
  intros Hne Hd Hm Hslots _ c w2.
  assert (Hm' : mode (controls w) ≠ NONE).
  { destruct Hm as [Hm|[Hm|Hm]]; rewrite Hm; done. }
  destruct (onPointerDown_pressed pick origin pickers plane w Hne Hd Hm'
              Hslots) as (Ho & Hmo & Hlen & _ & He & _ & _ & Hsc & Hh & Hsnap).
  set (w1 := onPointerDown (pick :: pickers) (origin :: plane) w) in *.
  destruct (onPointerUp_keeps w1) as (Usc & Ue & Ud & _).
  eexists. split.
  { unfold w2. rewrite onPointerUp_history; [by rewrite Hh|done|].
    by rewrite Hmo. }
  rewrite Ho. fold c.
  split; [|split].
  - apply Forall_concat, Forall_map, Forall_forall. intros j Hj.
    apply in_seq in Hj. destruct Hj as [_ Hj]. simpl in Hj.
    specialize (Hsnap j Hj). unfold snapshot, snapshotOf in Hsnap.
    injection Hsnap as _ _ _ Hp Hs Hq _.
    unfold releasedActions. rewrite Hmo, Hsc.
    replace (objectAt (controls w1) j) with (objectAt c j)
      by (unfold objectAt; by rewrite Ho).
    rewrite Hp, Hs, Hq.
    repeat case_decide; repeat constructor.
  - rewrite length_concat, map_map.
    assert (Hk : ∀ j, length (releasedActions w1 j)
                      = if decide (mode c = ROTATE) then 4 else 3).
    { intros j. unfold releasedActions. rewrite Hmo. fold c.
      destruct Hm as [Hm|[Hm|Hm]]; fold c in Hm; rewrite Hm; done. }
    rewrite (map_ext _ (λ _, if decide (mode c = ROTATE) then 4 else 3))
      by done.
    generalize (if decide (mode c = ROTATE) then 4 else 3). intros k.
    generalize (length (objects c)). intros n.
    assert (H : ∀ s, list_sum (map (λ _ : nat, k) (seq s n)) = k * n).
    { induction n as [|n IH]; intros s; simpl; [lia|]. rewrite IH. lia. }
    apply H.
  - repeat split; try done. unfold w2. by rewrite Usc.
Qed.

(** X8.  A hover right after a press changes nothing: while the pointer is
    down, the axis stays the one of the press. *)
Theorem hover_during_drag (pickers plane hovered : list Intersection)
  (w : World) :
  onPointerHover hovered (onPointerDown pickers plane w)
  = onPointerDown pickers plane w.
Proof.
  destruct (decide (length (objects (controls w)) = 0
                    ∨ dragging (controls w) = true
                    ∨ mode (controls w) = NONE)) as [Hg|Hg].
  - unfold onPointerDown. cbv zeta. rewrite decide_True by done.
    unfold onPointerHover. cbv zeta. by rewrite decide_True.
  - assert (Hd : dragging (controls (onPointerDown pickers plane w)) = true).
    { apply onPointerDown_dragging.
      - apply nonempty_length. tauto.
      - destruct (dragging (controls w)); tauto.
      - tauto. }
    unfold onPointerHover. cbv zeta. rewrite decide_True; [done|]. tauto.
Qed.

End PressAgain.

(** ** What a drag writes *)

Section Writes.
Context {N : JsNumber} {L : Library} {G : GizmoTables}.

Lemma touches_refl {T : Type} (keep : Object3D → T) (sel : list ref)
  (s : ref → Object3D) : touches keep sel s s.
Proof. done. Qed.

Lemma touches_trans {T : Type} (keep : Object3D → T) (sel : list ref)
  (s1 s2 s3 : ref → Object3D) :
  touches keep sel s1 s2 → touches keep sel s2 s3 → touches keep sel s1 s3.
Proof.
  intros H1 H2 r. destruct (H1 r) as [A1 B1], (H2 r) as [A2 B2].
  split; [congruence|]. intros Hr. rewrite B1, B2; done.
Qed.

Lemma objectAt_elem (c : TransformControls) (i : nat) :
  i < length (objects c) → objectAt c i ∈ objects c.
Proof.
  intros Hi. unfold objectAt.
  destruct (lookup_lt_is_Some_2 _ _ Hi) as [x Hx]. rewrite Hx. simpl.
  by eapply list_elem_of_lookup_2.
Qed.

Lemma insert_touches {T : Type} (keep : Object3D → T) (sel : list ref)
  (s : ref → Object3D) (r : ref) (o : Object3D) :
  r ∈ sel → keep o = keep (s r) → touches keep sel (<[r := o]> s) s.
Proof.
  intros Hr Ho r'. destruct (decide (r' = r)) as [->|Hne].
  - rewrite fn_lookup_insert. split; [done|]. intros Hn. by destruct Hn.
  - by rewrite fn_lookup_insert_ne.
Qed.

(** A loop whose turns keep the selection and touch its objects alone. *)
Lemma forIndices_touches {T : Type} (keep : Object3D → T)
  (body : nat → World → World) (n : nat) (w : World) :
  n ≤ length (objects (controls w)) →
  (∀ i w', i < length (objects (controls w')) →
     steady (body i w') w'
     ∧ touches keep (objects (controls w')) (scene (body i w')) (scene w')) →
  steady (forIndices n body w) w
  ∧ touches keep (objects (controls w)) (scene (forIndices n body w))
      (scene w).
Proof.
  intros Hn Hb.
  apply (forIndices_ind
           (λ w', steady w' w
                  ∧ touches keep (objects (controls w)) (scene w') (scene w)));
    [done|].
  intros i w' Hi [Hs Ht].
  destruct (Hb i w') as [Hs' Ht'].
  { rewrite (steady_objects _ _ Hs). lia. }
  split; [by eapply steady_trans|].
  rewrite (steady_objects _ _ Hs) in Ht'. by eapply touches_trans.
Qed.

Lemma writePosition_touches (i : nat) (v : Vector3) (w : World) :
  i < length (objects (controls w)) →
  touches besidesPosition (objects (controls w))
    (scene (writePosition (objectAt (controls w) i) v w)) (scene w).
Proof.
  intros Hi. unfold writePosition. simpl.
  apply insert_touches; [by apply objectAt_elem|done].
Qed.

Lemma moveObjects_touches (w : World) :
  touches besidesPosition (objects (controls w)) (scene (moveObjects w))
    (scene w).
Proof.
  unfold moveObjects. apply forIndices_touches; [done|].
  intros i w' Hi. split; [apply moveObject_steady|].
  by apply writePosition_touches.
Qed.

Lemma translateObject_touches (ax : string) (hit : Vector3) (i : nat)
  (w : World) :
  i < length (objects (controls w)) →
  touches besidesPosition (objects (controls w))
    (scene (translateObject ax hit i w)) (scene w).
Proof.
  intros Hi. unfold translateObject. cbv zeta.
  assert (H : ∀ w1, steady w1 w →
    touches besidesPosition (objects (controls w)) (scene w1) (scene w) →
    touches besidesPosition (objects (controls w))
      (scene (if snap (controls w) then snapObject ax i w1 else w1))
      (scene w)).
  { intros w1 Hs Ht. destruct (snap (controls w)); [|done].
    eapply touches_trans; [|exact Ht].
    unfold snapObject. cbv zeta.
    rewrite <- (steady_objects _ _ Hs).
    apply writePosition_touches. by rewrite (steady_objects _ _ Hs). }
  repeat case_decide; apply H; try done.
  all: try (eapply steady_trans; [apply moveObjects_steady|done]).
  all: apply (moveObjects_touches (writePoint _ w)).
Qed.

Lemma writeQuaternion_touches (i : nat) (q : Quaternion) (w : World) :
  i < length (objects (controls w)) →
  touches besidesQuaternion (objects (controls w))
    (scene (writeQuaternion (objectAt (controls w) i) q w)) (scene w).
Proof.
  intros Hi. unfold writeQuaternion. simpl.
  apply insert_touches; [by apply objectAt_elem|done].
Qed.

Lemma rotateObject_steady (ax : string) (hit : Vector3) (i : nat)
  (w : World) : steady (rotateObject ax hit i w) w.
Proof. unfold rotateObject. cbv zeta. by repeat case_decide. Qed.

Lemma rotateObject_touches (ax : string) (hit : Vector3) (i : nat)
  (w : World) :
  i < length (objects (controls w)) →
  touches besidesQuaternion (objects (controls w))
    (scene (rotateObject ax hit i w)) (scene w).
Proof.
  intros Hi. unfold rotateObject. cbv zeta.
  repeat case_decide; try done.
  all: apply (writeQuaternion_touches i _ (writePoint _ w) Hi).
Qed.

Lemma scaleObject_touches (ax : string) (hit : Vector3) (i : nat)
  (w : World) :
  i < length (objects (controls w)) →
  touches (λ o, (besidesScale o, body o)) (objects (controls w))
    (scene (scaleObject ax hit i w)) (scene w).
Proof.
  intros Hi. unfold scaleObject. cbv zeta.
  repeat case_decide; try done.
  all: unfold writeScale; simpl.
  all: apply insert_touches; [by apply objectAt_elem|done].
Qed.

Lemma touches_weaken {T U : Type} (keep : Object3D → T) (f : T → U)
  (sel : list ref) (s' s : ref → Object3D) :
  touches keep sel s' s → touches (λ o, f (keep o)) sel s' s.
Proof. intros H r. destruct (H r) as [A B]. split; [by rewrite A|done]. Qed.

(** The loop of the scaling, when it ends, has kept the selection and
    touched the scale and the body of its objects alone. *)
Lemma scaleLoop_touches (ax : string) (hit : Vector3) (fuel i : nat)
  (w w' : World) :
  scaleLoop fuel ax hit i w = Some w' →
  steady w' w
  ∧ touches besidesScale (objects (controls w)) (scene w') (scene w).
Proof.
  revert i w. induction fuel as [|fuel IH]; intros i w; simpl.
  - case_decide; [done|]. by intros [= <-].
  - case_decide as Hi; [|by intros [= <-]].
    pose proof (scaleObject_steady ax hit i w) as Hs.
    pose proof (scaleObject_touches ax hit i w Hi) as Ht.
    apply (touches_weaken _ fst) in Ht.
    set (w1 := scaleObject ax hit i w) in *.
    destruct (body (scene w1 (objectAt (controls w1) i))) as [shapes|] eqn:Hb.
    + intros Hl. apply IH in Hl. destruct Hl as [Hs2 Ht2].
      assert (Hs3 :
        steady
          (set_scene
             (<[objectAt (controls w1) i :=
                  set_body
                    (Some
                       (map
                          (syncShape
                             (scale (scene w1 (objectAt (controls w1) i))))
                          shapes))
                    (scene w1 (objectAt (controls w1) i))]> (scene w1)) w1)
          w1) by done.
      split.
      * eapply steady_trans; [exact Hs2|]. by eapply steady_trans.
      * simpl in Ht2. rewrite (steady_objects _ _ Hs) in Ht2.
        eapply touches_trans; [exact Ht2|].
        eapply touches_trans; [|exact Ht].
        apply insert_touches; [|done].
        rewrite (steady_objectAt _ _ i Hs). by apply objectAt_elem.
    + intros Hl. apply IH in Hl. destruct Hl as [Hs2 Ht2].
      split; [by eapply steady_trans|].
      rewrite (steady_objects _ _ Hs) in Ht2. by eapply touches_trans.
Qed.

(** What a move leaves of the scene, by mode. *)
Lemma onPointerMove_touches (fuel : nat) (plane : list Intersection)
  (w w' : World) :
  onPointerMove fuel plane w = Some w' →
  let c := controls w in
  (mode c = TRANSLATE →
     touches besidesPosition (objects c) (scene w') (scene w))
  ∧ (mode c = ROTATE →
       touches besidesQuaternion (objects c) (scene w') (scene w))
  ∧ (mode c = SCALE → touches besidesScale (objects c) (scene w') (scene w))
  ∧ (mode c ≠ TRANSLATE → mode c ≠ ROTATE → mode c ≠ SCALE →
       scene w' = scene w).
Proof.
  unfold onPointerMove. cbv zeta.
  destruct (axis (controls w)) as [ax|]; [|by intros [= <-]].
  case_decide as Hg; [by intros [= <-]|].
  destruct (intersectObjects plane) as [hit|]; [|by intros [= <-]].
  case_decide as Ht.
  { intros [= <-]. rewrite updatePose_scene.
    split; [|split; [|split]]; try (rewrite Ht; done).
    intros _. apply forIndices_touches; [done|].
    intros i w1 Hi. split; [apply translateObject_steady|].
    by apply translateObject_touches. }
  case_decide as Hs.
  { destruct (scaleLoop fuel ax (ipoint hit) 0 w) as [w1|] eqn:Hl; [|done].
    intros [= <-]. rewrite updatePose_scene.
    split; [|split; [|split]]; try (rewrite Hs; done).
    intros _. by apply scaleLoop_touches in Hl as [_ Hl]. }
  case_decide as Hr.
  { intros [= <-]. rewrite updatePose_scene.
    split; [|split; [|split]]; try done.
    intros _. apply forIndices_touches; [done|].
    intros i w1 Hi. split; [apply rotateObject_steady|].
    by apply rotateObject_touches. }
  intros [= <-]. rewrite updatePose_scene.
  split; [|split; [|split]]; done.
Qed.

(** X12.  A move never changes a scene object that is not selected. *)
Theorem drag_spares_unselected (fuel : nat) (plane : list Intersection)
  (w w' : World) (r : ref) :
  onPointerMove fuel plane w = Some w' →
  r ∉ objects (controls w) →
  scene w' r = scene w r.
Proof.
  intros Hmove Hr.
  destruct (onPointerMove_touches fuel plane w w' Hmove)
    as (HT & HR & HS & HO).
  destruct (decide (mode (controls w) = TRANSLATE)) as [Ht|Ht].
  { by apply (HT Ht r). }
  destruct (decide (mode (controls w) = ROTATE)) as [Hro|Hro].
  { by apply (HR Hro r). }
  destruct (decide (mode (controls w) = SCALE)) as [Hs|Hs].
  { by apply (HS Hs r). }
  by rewrite HO.
Qed.

(** X13.  A move writes the vector of its mode only: of every scene object
    a translation leaves all but the position, a rotation all but the
    quaternion, a scaling all but the scale and the body; in any other mode
    the scene is as it was. *)
Theorem drag_writes_its_component (fuel : nat) (plane : list Intersection)
  (w w' : World) :
  onPointerMove fuel plane w = Some w' →
  let c := controls w in
  (mode c = TRANSLATE →
     ∀ r, besidesPosition (scene w' r) = besidesPosition (scene w r))
  ∧ (mode c = ROTATE →
       ∀ r, besidesQuaternion (scene w' r) = besidesQuaternion (scene w r))
  ∧ (mode c = SCALE →
       ∀ r, besidesScale (scene w' r) = besidesScale (scene w r))
  ∧ (mode c ≠ TRANSLATE → mode c ≠ ROTATE → mode c ≠ SCALE →
       scene w' = scene w).
Proof.
  intros Hmove c.
  destruct (onPointerMove_touches fuel plane w w' Hmove)
    as (HT & HR & HS & HO).
  split; [|split; [|split]]; try done.
  - intros Hm r. by apply (HT Hm r).
  - intros Hm r. by apply (HR Hm r).
  - intros Hm r. by apply (HS Hm r).
Qed.

End Writes.

(** ** Rotation and scaling, object by object *)

Section Turns.
Context {N : JsNumber} {L : Library} {G : GizmoTables}.

Lemma writeQuaternion_other (r r' : ref) (q : Quaternion) (w : World) :
  r' ≠ r → scene (writeQuaternion r q w) r' = scene w r'.
Proof.
  intros Hne. unfold writeQuaternion. simpl. by apply fn_lookup_insert_ne.
Qed.

Lemma writeQuaternion_same (r : ref) (q : Quaternion) (w : World) :
  scene (writeQuaternion r q w) r = set_quaternion q (scene w r).
Proof. unfold writeQuaternion. simpl. apply fn_lookup_insert. Qed.

Lemma rotateObject_other (ax : string) (hit : Vector3) (i : nat) (w : World)
  (r : ref) :
  r ≠ objectAt (controls w) i → scene (rotateObject ax hit i w) r = scene w r.
Proof.
  intros Hr. unfold rotateObject. cbv zeta.
  repeat case_decide; try done; by rewrite writeQuaternion_other.
Qed.

Lemma rotateObject_result (ax : string) (hit : Vector3) (i : nat)
  (w : World) :
  ax ≠ "XYZE" →
  let c := controls w in
  quaternion (scene (rotateObject ax hit i w) (objectAt c i))
  = rotationOf c ax hit (attributeAt c i).
Proof.
  intros Hax c. unfold rotateObject, rotationOf. cbv zeta. fold c.
  destruct (decide (ax = "E")) as [He|He].
  { by rewrite writeQuaternion_same. }
  rewrite decide_False by done.
  destruct (space c) eqn:Hsp.
  - rewrite decide_True by done. rewrite writeQuaternion_same. simpl.
    unfold turnAbout. by repeat case_decide.
  - rewrite decide_False by done. rewrite decide_True by done.
    rewrite writeQuaternion_same. simpl.
    unfold turnAbout. by repeat case_decide.
Qed.

Lemma rotateObject_eye (ax : string) (hit : Vector3) (i : nat) (w : World) :
  eye (controls (rotateObject ax hit i w)) = eye (controls w).
Proof. unfold rotateObject. cbv zeta. by repeat case_decide. Qed.

(** A move in [ROTATE] mode whose ray hits the active plane runs the loop
    and the pose. *)
Lemma onPointerMove_rotate (fuel : nat) (hit : Intersection)
  (rest : list Intersection) (w : World) (ax : string) :
  mode (controls w) = ROTATE →
  axis (controls w) = Some ax →
  dragging (controls w) = true →
  objects (controls w) ≠ [] →
  onPointerMove fuel (hit :: rest) w
  = Some (updatePose
            (forIndices (length (objects (controls w)))
               (rotateObject ax (ipoint hit)) w)).
Proof.
  intros Hm Ha Hd Hne. unfold onPointerMove. cbv zeta. rewrite Ha.
  rewrite decide_False.
  - simpl. rewrite decide_False by (rewrite Hm; done).
    rewrite decide_False by (rewrite Hm; done).
    by rewrite decide_True.
  - apply nonempty_length in Hne. rewrite Hm, Hd. intros [?|[?|?]]; done.
Qed.

(** X14.  In [ROTATE] mode, in a frame of a drag on a token other than
    XYZE over a selection of distinct objects, every selected object gets
    the quaternion computed from its own slot of attributes: on E, the
    inverse of the rotation of its parent, times the turn about [eye] by
    the difference of the angles of the hit and of the origin of the drag
    about z, times its world rotation; in [WORLD] space, the same with the
    turn about the axis of the token; in [LOCAL] space, its old rotation
    times the turn about the axis of the token. *)
Theorem rotate_each_from_own_slot (fuel : nat) (hit : Intersection)
  (rest : list Intersection) (w : World) (ax : string) :
  mode (controls w) = ROTATE →
  axis (controls w) = Some ax →
  ax ≠ "XYZE" →
  dragging (controls w) = true →
  objects (controls w) ≠ [] →
  NoDup (objects (controls w)) →
  let c := controls w in
  ∃ w',
    onPointerMove fuel (hit :: rest) w = Some w'
    ∧ ∀ j, j < length (objects c) →
        quaternion (scene w' (objectAt c j))
        = rotationOf c ax (ipoint hit) (attributeAt c j).
Proof.
  intros Hm Ha Hax Hd Hne Hnd c. subst c.
  rewrite (onPointerMove_rotate fuel hit rest w ax) by done.
  eexists. split; [done|].
  intros j Hj. rewrite updatePose_scene.
  rewrite (forIndices_written (rotateObject ax (ipoint hit)) _ j w
             (rotateObject_steady _ _) (rotateObject_other _ _) Hnd Hj
             (le_n _)).
  pose proof (forIndices_steady j (rotateObject ax (ipoint hit)) w
                (rotateObject_steady ax (ipoint hit))) as Hs.
  rewrite <- (steady_objectAt _ _ j Hs).
  rewrite rotateObject_result by done.
  rewrite (steady_attributeAt _ _ j Hs).
  assert (He : eye (controls (forIndices j (rotateObject ax (ipoint hit)) w))
               = eye (controls w)).
  { apply (forIndices_ind (λ w', eye (controls w') = eye (controls w)));
      [done|].
    intros i w' _ H. by rewrite rotateObject_eye. }
  unfold rotationOf, axisQuaternion. rewrite He.
  destruct Hs as (Hs & _).
  by injection Hs as _ -> -> _ -> _ _ _ _ -> _ -> _.
Qed.

Lemma scaleObject_along (ax : string) (hit : Vector3) (i : nat) (w : World) :
  ax ≠ "XYZ" →
  let c := controls w in
  scale (scene (scaleObject ax hit i w) (objectAt c i))
  = scaledAlong c ax hit (attributeAt c i) (scale (scene w (objectAt c i))).
Proof.
  intros Hax c. unfold scaleObject, scaledAlong. cbv zeta. fold c.
  rewrite decide_False by done.
  repeat case_decide; try done; by rewrite writeScale_same.
Qed.

(** X15.  In [SCALE] mode, in a frame of a drag on a token other than XYZ
    over a selection of distinct objects without physics objects, the
    scale of a selected object changes on the axis of the token alone,
    when the token is X, Y or Z: there it becomes the old scale times 1
    plus the drag along that axis, the drag being taken back by the world
    rotation of the object; the other two components are as they were
    before the frame.  On any other token the scale is as it was. *)
Theorem scale_along_one_axis (fuel : nat) (hit : Intersection)
  (rest : list Intersection) (w : World) (ax : string) :
  mode (controls w) = SCALE →
  axis (controls w) = Some ax →
  ax ≠ "XYZ" →
  dragging (controls w) = true →
  objects (controls w) ≠ [] →
  NoDup (objects (controls w)) →
  (∀ j, j < length (objects (controls w)) →
        body (scene w (objectAt (controls w) j)) = None) →
  length (objects (controls w)) ≤ fuel →
  let c := controls w in
  ∃ w',
    onPointerMove fuel (hit :: rest) w = Some w'
    ∧ ∀ j, j < length (objects c) →
        let a := attributeAt c j in
        let s := scale (scene w (objectAt c j)) in
        let p :=
          v_applyMatrix4
            (v_multiply (v_sub (ipoint hit) (offset c)) (parentScale a))
            (m_getInverse (worldRotationMatrix a)) in
        scale (scene w' (objectAt c j))
        = if decide (ax = "X")
          then vec3 (vx (oldScale a) ⊗ (lit 1 ⊕ vx p)) (vy s) (vz s)
          else if decide (ax = "Y")
          then vec3 (vx s) (vy (oldScale a) ⊗ (lit 1 ⊕ vy p)) (vz s)
          else if decide (ax = "Z")
          then vec3 (vx s) (vy s) (vz (oldScale a) ⊗ (lit 1 ⊕ vz p))
          else s.
Proof.
  intros Hm Ha Hax Hd Hne Hnd Hplain Hfuel c. subst c.
  rewrite (onPointerMove_scale fuel hit rest w ax) by done.
  rewrite scaleLoop_plain_all by done.
  eexists. split; [done|].
  intros j Hj. cbv zeta. rewrite updatePose_scene.
  rewrite (forIndices_written (scaleObject ax (ipoint hit)) _ j w
             (scaleObject_steady _ _) (scaleObject_other _ _) Hnd Hj (le_n _)).
  pose proof (forIndices_steady j (scaleObject ax (ipoint hit)) w
                (scaleObject_steady ax (ipoint hit))) as Hs.
  rewrite <- (steady_objectAt _ _ j Hs).
  rewrite scaleObject_along by done.
  rewrite (steady_attributeAt _ _ j Hs), (steady_objectAt _ _ j Hs).
  rewrite (forIndices_unwritten (scaleObject ax (ipoint hit)) j w
             (objectAt (controls w) j) (scaleObject_steady _ _)
             (scaleObject_other _ _)).
  2:{ intros i Hi Heq. apply objectAt_inj in Heq; [lia|done|lia|lia]. }
  unfold scaledAlong, dragPoint.
  destruct Hs as (Hs & _). injection Hs as _ _ _ _ _ _ _ _ _ -> _ _ _.
  by repeat case_decide.
Qed.

Lemma follows_syncShape (s : Vector3) (sh : Shape) :
  follows s (syncShape s sh) sh.
Proof. unfold follows, syncShape. by destruct sh as [[] ? ?]. Qed.

(** X16.  In [SCALE] mode, in a frame of a drag with one physics object
    selected, the shapes of its body follow its new scale: the half
    extents of a box are half the scale on each axis, the radius of a
    sphere is the x of the scale, any other shape is as it was. *)
Theorem scale_syncs_the_body (fuel : nat) (hit : Intersection)
  (rest : list Intersection) (w : World) (ax : string) (r : ref)
  (shapes : list Shape) :
  mode (controls w) = SCALE →
  axis (controls w) = Some ax →
  dragging (controls w) = true →
  objects (controls w) = [r] →
  body (scene w r) = Some shapes →
  0 < fuel →
  ∃ w' shapes',
    onPointerMove fuel (hit :: rest) w = Some w'
    ∧ body (scene w' r) = Some shapes'
    ∧ Forall2 (follows (scale (scene w' r))) shapes' shapes.
Proof.
  intros Hm Ha Hd Ho Hb Hfuel.
  rewrite (onPointerMove_scale fuel hit rest w ax) by (done || by rewrite Ho).
  destruct fuel as [|fuel]; [lia|]. simpl.
  rewrite decide_True by (rewrite Ho; simpl; lia).
  pose proof (scaleObject_steady ax (ipoint hit) 0 w) as Hs.
  set (w1 := scaleObject ax (ipoint hit) 0 w) in *.
  assert (Hr : objectAt (controls w1) 0 = r).
  { rewrite (steady_objectAt _ _ 0 Hs). unfold objectAt. by rewrite Ho. }
  rewrite Hr. unfold w1 at 1. rewrite scaleObject_body, Hb.
  set (w2 := set_scene _ w1).
  assert (Hend : scaleLoop fuel ax (ipoint hit) (S (length shapes)) w2
                 = Some w2).
  { assert (Hlen : length (objects (controls w2)) = 1).
    { transitivity (length (objects (controls w1))); [done|].
      by rewrite (steady_objects _ _ Hs), Ho. }
    destruct fuel; cbn [scaleLoop]; rewrite decide_False by (rewrite Hlen; lia);
      done. }
  rewrite Hend. simpl.
  exists (updatePose w2), (map (syncShape (scale (scene w1 r))) shapes).
  split; [done|]. rewrite updatePose_scene.
  unfold w2. simpl. rewrite fn_lookup_insert. simpl.
  split; [done|].
  apply Forall2_fmap_l, Forall_Forall2_diag, Forall_forall.
  intros sh _. apply follows_syncShape.
Qed.

End Turns.

(** ** What the handlers keep *)

Section Handlers.
Context {N : JsNumber} {L : Library} {G : GizmoTables}.

Lemma posedGizmo_frame (c : TransformControls)
  (a : TransformControlAtttributes) (e : Vector3) :
  gid (posedGizmo c a e) = gid (gizmo c)
  ∧ kind (posedGizmo c a e) = kind (gizmo c)
  ∧ activePlane (posedGizmo c a e) = activePlane (gizmo c).
Proof. unfold posedGizmo. by repeat case_decide. Qed.

Lemma updatePose_gizmo_frame (w : World) :
  gid (gizmo (controls (updatePose w))) = gid (gizmo (controls w))
  ∧ kind (gizmo (controls (updatePose w))) = kind (gizmo (controls w))
  ∧ activePlane (gizmo (controls (updatePose w)))
    = activePlane (gizmo (controls w)).
Proof.
  destruct (decide (objects (controls w) = [])) as [He|Hne].
  { unfold updatePose. cbv zeta. rewrite decide_True by by rewrite He. done. }
  destruct (decide (mode (controls w) = NONE)) as [Hm|Hm].
  { unfold updatePose. cbv zeta.
    rewrite decide_False by by apply nonempty_length.
    by rewrite decide_True. }
  destruct (updatePose_writes w Hne Hm) as (_ & _ & _ & _ & _ & _ & _ & _ & ->).
  apply posedGizmo_frame.
Qed.

Lemma updatePose_configuration (w : World) :
  configuration (updatePose w) = configuration w.
Proof.
  destruct (updatePose_gizmo_frame w) as (G1 & G2 & _).
  unfold configuration. cbv zeta. rewrite G1, G2.
  destruct (updatePose_cases w) as [[Ho ->]|[_ (K1 & _ & K3 & _ & K5)]].
  - simpl. by rewrite Ho.
  - rewrite K3. unfold settings in K1. unfold surroundings in K5.
    injection K1 as -> -> -> -> -> -> _ _ _ _ -> -> ->.
    by injection K5 as _ -> _ -> ->.
Qed.

Lemma updatePose_flags (w : World) :
  dragging (controls (updatePose w)) = dragging (controls w)
  ∧ editing (controls (updatePose w)) = editing (controls w)
  ∧ offset (controls (updatePose w)) = offset (controls w)
  ∧ history (updatePose w) = history w.
Proof.
  destruct (updatePose_cases w) as [[Ho ->]|[_ (K1 & _ & _ & _ & K5)]];
    [done|].
  unfold settings in K1. unfold surroundings in K5.
  injection K1 as _ _ _ _ _ _ _ -> -> -> _ _ _.
  by injection K5 as _ _ -> _ _.
Qed.

Lemma updatePose_shown (w : World) : shown (controls (updatePose w)).
Proof.
  unfold shown. rewrite updatePose_objects.
  destruct (decide (objects (controls w) = [])) as [He|Hne]; [|done].
  unfold updatePose. cbv zeta. rewrite decide_True by by rewrite He. done.
Qed.

Lemma highlight_nodes (ax : option string) (g : TransformGizmo) :
  Forall (λ n, highlighted n = None
               ∨ highlighted n = Some (nameIs (nname n) ax))
    (nodes (highlight ax g)).
Proof.
  unfold highlight. simpl. apply Forall_map, Forall_forall.
  intros [nm o [h|]] _; [by right|by left].
Qed.

Lemma updatePose_highlit (w : World) : highlit (controls (updatePose w)).
Proof.
  unfold highlit. rewrite updatePose_objects, updatePose_mode.
  intros Hne Hm.
  destruct (updatePose_writes w Hne Hm) as (_ & _ & _ & _ & _ & _ & _ & _ & ->).
  destruct (updatePose_keeps w Hne) as (K1 & _).
  unfold settings in K1. injection K1 as _ _ _ _ _ _ -> _ _ _ _ _ _.
  unfold posedGizmo. apply highlight_nodes.
Qed.

(** What [shown] and [highlit] read of the controls. *)
Lemma shown_ext (c' c : TransformControls) :
  visible c' = visible c → objects c' = objects c → shown c → shown c'.
Proof. unfold shown. by intros -> ->. Qed.

Lemma highlit_ext (c' c : TransformControls) :
  objects c' = objects c → mode c' = mode c → axis c' = axis c →
  nodes (gizmo c') = nodes (gizmo c) → highlit c → highlit c'.
Proof. unfold highlit. by intros -> -> -> ->. Qed.

Lemma snapshotted_gizmo (n : nat) (w : World) :
  gizmo (controls (forIndices n snapshotObject w)) = gizmo (controls w)
  ∧ visible (controls (forIndices n snapshotObject w)) = visible (controls w).
Proof.
  apply (forIndices_ind
           (λ w', gizmo (controls w') = gizmo (controls w)
                  ∧ visible (controls w') = visible (controls w))); [done|].
  intros i w' _ [H1 H2]. by rewrite <- H1, <- H2.
Qed.

Lemma setActivePlane_frame (ax : string) (e : Vector3) (g : TransformGizmo) :
  gid (setActivePlane ax e g) = gid g
  ∧ kind (setActivePlane ax e g) = kind g
  ∧ nodes (setActivePlane ax e g) = nodes g.
Proof. unfold setActivePlane. by destruct (kind g) eqn:Hk. Qed.

(** The end of a press on a picker, from the state [w1] after the pose
    that follows the choice of the axis. *)
Lemma pressed_tail (pick : Intersection) (plane : list Intersection)
  (w1 : World) :
  let c1 := controls w1 in
  let ey := v_normalize (v_sub (camPosition c1) (selfPosition c1)) in
  let c2 :=
    set_gizmo (setActivePlane (iname pick) ey (gizmo c1)) (set_eye ey c1) in
  let w2 := set_controls c2 w1 in
  let w' :=
    match intersectObjects plane with
    | Some planeIntersect =>
        let w3 := forIndices (length (objects c2)) snapshotObject w2 in
        set_controls (set_offset (ipoint planeIntersect) (controls w3)) w3
    | None => w2
    end in
  let w'' := set_controls (set_dragging true (controls w')) w' in
  configuration w'' = configuration w1
  ∧ visible (controls w'') = visible (controls w1)
  ∧ axis (controls w'') = axis (controls w1)
  ∧ editing (controls w'') = editing (controls w1)
  ∧ nodes (gizmo (controls w'')) = nodes (gizmo (controls w1))
  ∧ dragging (controls w'') = true
  ∧ scene w'' = scene w1
  ∧ history w'' = history w1.
Proof.
  intros c1 ey c2 w2.
  destruct (setActivePlane_frame (iname pick) ey (gizmo c1)) as (A1 & A2 & A3).
  assert (Hc2 : configuration w2 = configuration w1).
  { unfold configuration, w2, c2. simpl. by rewrite A1, A2. }
  destruct (intersectObjects plane) as [origin|]; cbv zeta.
  2:{ split; [exact Hc2|]. split; [reflexivity|]. split; [reflexivity|].
      split; [reflexivity|]. split; [exact A3|]. by repeat split. }
  destruct (snapshotted_keeps (length (objects c2)) w2) as (S1 & S2 & S3).
  destruct (snapshotted_gizmo (length (objects c2)) w2) as (S4 & S5).
  remember (forIndices (length (objects c2)) snapshotObject w2)
    as w3 eqn:Hw3.
  clear Hw3. unfold settings in S1. unfold surroundings in S3.
  injection S1 as E1 E2 E3 E4 E5 E6 E7 E8 E9 E10 E11 E12 E13.
  injection S3 as E14 E15 E16 E17 E18.
  split.
  - unfold configuration.
    cbn [controls set_controls objects mode space snap translationSnap
         rotationSnap size lookAtMatrix children attributes gizmo
         set_dragging set_offset camera gizmoLog nextGizmo].
    rewrite E1, E2, E3, E4, E5, E6, E11, E12, E13, S2, S4, E15, E17, E18.
    unfold w2, c2. simpl. by rewrite A1, A2.
  - cbn [controls set_controls visible axis gizmo set_dragging set_offset
         dragging editing scene history].
    rewrite S4, S5, E7, E9, E14, E16. by repeat split.
Qed.

(** The three ways of a press: ignored; off the pickers, after which only
    [dragging] is set; on a picker. *)
Lemma onPointerDown_cases (pickers plane : list Intersection) (w : World) :
  onPointerDown pickers plane w = w
  ∨ onPointerDown pickers plane w
    = set_controls (set_dragging true (controls w)) w
  ∨ ∃ w0 w',
      objects (controls w0) ≠ []
      ∧ configuration w0 = configuration w
      ∧ (scene w0, history w0) = (scene w, history w)
      ∧ onPointerDown pickers plane w = w'
      ∧ configuration w' = configuration (updatePose w0)
      ∧ visible (controls w') = visible (controls (updatePose w0))
      ∧ axis (controls w') = axis (controls (updatePose w0))
      ∧ editing (controls w') = editing (controls (updatePose w0))
      ∧ nodes (gizmo (controls w')) = nodes (gizmo (controls (updatePose w0)))
      ∧ dragging (controls w') = true
      ∧ scene w' = scene (updatePose w0)
      ∧ history w' = history (updatePose w0).
Proof.
  unfold onPointerDown. cbv zeta.
  case_decide as Hg; [by left|]. right.
  destruct (intersectObjects pickers) as [pick|]; [|by left]. right.
  eexists _, _. split; [|split; [|split; [|split; [reflexivity|]]]].
  4: apply (pressed_tail pick plane).
  - simpl. apply nonempty_length. tauto.
  - reflexivity.
  - reflexivity.
Qed.

(** The part of [sound] that the configuration decides. *)
Lemma base_ext (w' w : World) :
  configuration w' = configuration w →
  slots (controls w) ∧ lookAtMatrix (controls w) = m_identity
  ∧ gizmoOfMode (controls w) →
  slots (controls w') ∧ lookAtMatrix (controls w') = m_identity
  ∧ gizmoOfMode (controls w').
Proof.
  unfold configuration, slots, gizmoOfMode. cbv zeta. intros H.
  injection H as -> -> _ _ _ _ _ -> -> -> -> -> _ _ _. done.
Qed.

Lemma wellShown_ext (w' w : World) :
  configuration w' = configuration w →
  visible (controls w') = visible (controls w) →
  axis (controls w') = axis (controls w) →
  nodes (gizmo (controls w')) = nodes (gizmo (controls w)) →
  wellShown (controls w) → wellShown (controls w').
Proof.
  intros Hc Hv Ha Hn (S1 & S2 & S3 & S4 & S5).
  destruct (base_ext w' w Hc) as (B1 & B2 & B3); [tauto|].
  assert (Ho : objects (controls w') = objects (controls w)).
  { unfold configuration in Hc. cbv zeta in Hc. by injection Hc. }
  assert (Hm : mode (controls w') = mode (controls w)).
  { unfold configuration in Hc. cbv zeta in Hc. by injection Hc. }
  repeat split; try done.
  - by apply (shown_ext _ (controls w)).
  - by apply (highlit_ext _ (controls w)).
Qed.

Lemma updatePose_wellShown (w : World) :
  slots (controls w) → lookAtMatrix (controls w) = m_identity →
  gizmoOfMode (controls w) →
  wellShown (controls (updatePose w)).
Proof.
  intros H1 H2 H3.
  destruct (base_ext (updatePose w) w (updatePose_configuration w))
    as (B1 & B2 & B3); [done|].
  repeat split; try done.
  - apply updatePose_shown.
  - apply updatePose_highlit.
Qed.

Lemma updatePose_sound (w : World) :
  editingDrags (controls w) → slots (controls w) →
  lookAtMatrix (controls w) = m_identity → gizmoOfMode (controls w) →
  sound (controls (updatePose w)).
Proof.
  intros He H1 H2 H3. split; [|by apply updatePose_wellShown].
  destruct (updatePose_flags w) as (F1 & F2 & _).
  unfold editingDrags. by rewrite F1, F2.
Qed.

Lemma clear_sound (w : World) :
  editingDrags (controls w) →
  lookAtMatrix (controls w) = m_identity → gizmoOfMode (controls w) →
  sound (controls (clear w)).
Proof.
  intros He H2 H3. unfold sound, wellShown, shown, slots, highlit. simpl.
  repeat split; try done. lia.
Qed.

Lemma attach_sound (objs : list ref) (w : World) :
  sound (controls w) → sound (controls (attach objs w)).
Proof.
  intros (S2 & _ & _ & S4 & S5 & _). unfold attach. cbv zeta.
  case_decide.
  - apply updatePose_sound; try done.
    unfold slots. simpl. apply growAttributes_length.
  - by apply clear_sound.
Qed.

Lemma setMode_sound (m : string) (w : World) :
  sound (controls w) → sound (controls (setMode m w)).
Proof.
  intros Hs. unfold setMode. cbv zeta. case_decide as Hm; [done|].
  destruct Hs as (S2 & _ & S3 & S4 & S5 & _).
  assert (H : List.filter (λ k, negb (k =? gid (gizmo (controls w))))
                (children (controls w)) = []).
  { destruct S5 as [[_ ->]|(_ & _ & ->)]; [|done]. simpl.
    by rewrite Nat.eqb_refl. }
  apply updatePose_sound; simpl; case_decide; try done.
  all: unfold gizmoOfMode; simpl; left; by rewrite H.
Qed.

Lemma onPointerHover_cases (pickers : list Intersection) (w : World) :
  onPointerHover pickers w = w
  ∨ ∃ w0,
      objects (controls w0) ≠ []
      ∧ configuration w0 = configuration w
      ∧ (dragging (controls w0), editing (controls w0), scene w0, history w0)
        = (dragging (controls w), editing (controls w), scene w, history w)
      ∧ onPointerHover pickers w = updatePose w0.
Proof.
  unfold onPointerHover. cbv zeta.
  case_decide as Hg; [by left|]. case_decide; [|by left]. right.
  eexists. split; [|split; [|split; [|reflexivity]]]; [|reflexivity..].
  simpl. apply nonempty_length. tauto.
Qed.

Lemma scaleLoop_steady (ax : string) (hit : Vector3) (fuel i : nat)
  (w w' : World) :
  scaleLoop fuel ax hit i w = Some w' → steady w' w.
Proof. intros H. by apply scaleLoop_touches in H as [H _]. Qed.

Lemma onPointerMove_cases (fuel : nat) (plane : list Intersection)
  (w w' : World) :
  onPointerMove fuel plane w = Some w' →
  w' = w
  ∨ ∃ w1, objects (controls w) ≠ [] ∧ mode (controls w) ≠ NONE
          ∧ dragging (controls w) = true
          ∧ steady w1 w ∧ w' = updatePose w1.
Proof.
  unfold onPointerMove. cbv zeta.
  destruct (axis (controls w)) as [ax|]; [|intros [= <-]; by left].
  case_decide as Hg; [intros [= <-]; by left|].
  destruct (intersectObjects plane) as [hit|]; [|intros [= <-]; by left].
  assert (Hne : objects (controls w) ≠ []).
  { apply nonempty_length. tauto. }
  assert (Hm : mode (controls w) ≠ NONE) by tauto.
  assert (Hd : dragging (controls w) = true).
  { destruct (dragging (controls w)); tauto. }
  intros H. right.
  case_decide.
  { injection H as <-. eexists. do 3 (split; [done|]).
    split; [|reflexivity].
    apply forIndices_steady. intros. apply translateObject_steady. }
  case_decide.
  { destruct (scaleLoop fuel ax (ipoint hit) 0 w) as [w1|] eqn:Hl; [|done].
    injection H as <-. exists w1. do 3 (split; [done|]).
    split; [|reflexivity]. by eapply scaleLoop_steady. }
  case_decide.
  { injection H as <-. eexists. do 3 (split; [done|]).
    split; [|reflexivity].
    apply forIndices_steady. intros. apply rotateObject_steady. }
  injection H as <-. exists w. do 3 (split; [done|]).
  split; [apply steady_refl|reflexivity].
Qed.

Lemma steady_configuration (w' w : World) :
  steady w' w → configuration w' = configuration w.
Proof.
  intros (H1 & H2 & H3 & H4). unfold configuration. cbv zeta.
  unfold settings in H1. rewrite H2, H3.
  injection H1 as -> -> -> -> -> -> _ _ _ _ -> -> ->.
  by injection H4 as -> _ -> ->.
Qed.

Lemma steady_flags (w' w : World) :
  steady w' w →
  dragging (controls w') = dragging (controls w)
  ∧ editing (controls w') = editing (controls w)
  ∧ history w' = history w.
Proof.
  intros (H1 & _ & _ & H4). unfold settings in H1.
  injection H1 as _ _ _ _ _ _ _ -> -> _ _ _ _.
  by injection H4 as _ -> _ _.
Qed.

Lemma onPointerHover_configuration (pickers : list Intersection) (w : World) :
  configuration (onPointerHover pickers w) = configuration w.
Proof.
  destruct (onPointerHover_cases pickers w)
    as [->|(w0 & _ & Hc & _ & ->)]; [done|].
  by rewrite updatePose_configuration.
Qed.

Lemma onPointerDown_configuration (pickers plane : list Intersection)
  (w : World) :
  configuration (onPointerDown pickers plane w) = configuration w.
Proof.
  destruct (onPointerDown_cases pickers plane w)
    as [->|[->|(w0 & w' & _ & Hc & _ & -> & Hc' & _)]]; [done|done|].
  by rewrite Hc', updatePose_configuration.
Qed.

Lemma onPointerMove_configuration (fuel : nat) (plane : list Intersection)
  (w w' : World) :
  onPointerMove fuel plane w = Some w' →
  configuration w' = configuration w.
Proof.
  intros H.
  destruct (onPointerMove_cases fuel plane w w' H)
    as [->|(w1 & _ & _ & _ & Hs & ->)]; [done|].
  rewrite updatePose_configuration. by apply steady_configuration.
Qed.

Lemma onPointerUp_configuration (w : World) :
  configuration (onPointerUp w) = configuration w
  ∧ visible (controls (onPointerUp w)) = visible (controls w).
Proof.
  unfold onPointerUp. cbv zeta.
  destruct (editing (controls w)); [|done].
  repeat case_decide; done.
Qed.

Lemma onPointerHover_sound (pickers : list Intersection) (w : World) :
  sound (controls w) → sound (controls (onPointerHover pickers w)).
Proof.
  intros Hs.
  destruct (onPointerHover_cases pickers w)
    as [->|(w0 & _ & Hc & Hf & ->)]; [done|].
  destruct Hs as (S1 & _ & S2 & S3 & S4 & _).
  destruct (base_ext w0 w Hc) as (B1 & B2 & B3); [done|].
  apply updatePose_sound; try done.
  unfold editingDrags. by injection Hf as -> -> _ _.
Qed.

Lemma onPointerDown_sound (pickers plane : list Intersection) (w : World) :
  sound (controls w) → sound (controls (onPointerDown pickers plane w)).
Proof.
  intros Hs.
  destruct (onPointerDown_cases pickers plane w)
    as [->|[->|(w0 & w' & _ & Hc & _ & -> & Hc' & Hv & Ha & _ & Hn & Hd & _)]];
    [done| |].
  - destruct Hs as (_ & Hs). split; [by unfold editingDrags|].
    by apply (wellShown_ext _ w).
  - split; [unfold editingDrags; by rewrite Hd|].
    apply (wellShown_ext _ (updatePose w0)); try done.
    destruct Hs as (_ & _ & S2 & S3 & S4 & _).
    destruct (base_ext w0 w Hc) as (B1 & B2 & B3); [done|].
    by apply updatePose_wellShown.
Qed.

Lemma onPointerMove_sound (fuel : nat) (plane : list Intersection)
  (w w' : World) :
  onPointerMove fuel plane w = Some w' →
  sound (controls w) → sound (controls w').
Proof.
  intros H Hs.
  destruct (onPointerMove_cases fuel plane w w' H)
    as [->|(w1 & _ & _ & _ & Hst & ->)]; [done|].
  destruct Hs as (S1 & _ & S2 & S3 & S4 & _).
  destruct (base_ext w1 w (steady_configuration _ _ Hst)) as (B1 & B2 & B3);
    [done|].
  destruct (steady_flags _ _ Hst) as (F1 & F2 & _).
  apply updatePose_sound; try done.
  unfold editingDrags. by rewrite F1, F2.
Qed.

Lemma onPointerUp_sound (w : World) :
  sound (controls w) → sound (controls (onPointerUp w)).
Proof.
  intros (_ & Hs).
  destruct (onPointerUp_keeps w) as (_ & He & _ & _ & _ & _ & Ha & Hg).
  destruct (onPointerUp_configuration w) as (Hc & Hv).
  split.
  - unfold editingDrags. by rewrite He.
  - apply (wellShown_ext _ w); try done. by rewrite Hg.
Qed.

End Handlers.

(** ** Frames and runs *)

Section Frames.
Context {N : JsNumber} {L : Library} {G : GizmoTables} {C : JsCompare}.

(** The four steps of a frame. *)
Lemma nonempty_length_pos {A : Type} (l : list A) : 0 < length l ↔ l ≠ [].
Proof. destruct l; simpl; split; intros; try done; lia. Qed.

Lemma update_steps (fuel : nat) (m : Mouse) (r : Rays) (w w' : World)
  (b : bool) :
  Controls.update fuel m r w = Some (w', b) →
  ∃ w1 w2 w3,
    (w1 = w ∨ (leftJustPressed m = true
               ∧ w1 = onPointerDown (pressPickers r) (pressPlane r) w))
    ∧ (w2 = w1 ∨ (leftJustReleased m = true ∧ w2 = onPointerUp w1))
    ∧ (w3 = w2
       ∨ onPointerMove fuel (movePlane r) (onPointerHover (hoverPickers r) w2)
         = Some w3)
    ∧ w' = updatePose w3
    ∧ b = editing (controls w').
Proof.
  unfold Controls.update. cbv zeta.
  set (w1 := if leftJustPressed m then _ else w).
  set (w2 := if leftJustReleased m then _ else w1).
  intros H. exists w1, w2.
  destruct (Controls.moved m).
  - destruct (onPointerMove fuel (movePlane r)
                (onPointerHover (hoverPickers r) w2)) as [w3|] eqn:H3;
      [|done].
    simpl in H. injection H as <- <-. exists w3.
    split; [|split; [|split; [by right|done]]].
    + unfold w1. destruct (leftJustPressed m); [by right|by left].
    + unfold w2. destruct (leftJustReleased m); [by right|by left].
  - simpl in H. injection H as <- <-. exists w2.
    split; [|split; [|split; [by left|done]]].
    + unfold w1. destruct (leftJustPressed m); [by right|by left].
    + unfold w2. destruct (leftJustReleased m); [by right|by left].
Qed.

Lemma update_configuration (fuel : nat) (m : Mouse) (r : Rays) (w w' : World)
  (b : bool) :
  Controls.update fuel m r w = Some (w', b) →
  configuration w' = configuration w.
Proof.
  intros H.
  destruct (update_steps fuel m r w w' b H)
    as (w1 & w2 & w3 & H1 & H2 & H3 & -> & _).
  rewrite updatePose_configuration.
  transitivity (configuration w2).
  { destruct H3 as [->|H3]; [done|].
    rewrite (onPointerMove_configuration _ _ _ _ H3).
    apply onPointerHover_configuration. }
  transitivity (configuration w1).
  { destruct H2 as [->|[_ ->]]; [done|]. apply onPointerUp_configuration. }
  destruct H1 as [->|[_ ->]]; [done|]. apply onPointerDown_configuration.
Qed.

(** X17.  A frame never changes the selection, the mode, the space, the
    settings of the snapping, [size], the number of slots of attributes,
    the gizmo in use or the camera; the value it returns is [editing] as
    the frame leaves it. *)
Theorem update_keeps_configuration (fuel : nat) (m : Mouse) (r : Rays)
  (w w' : World) (b : bool) :
  Controls.update fuel m r w = Some (w', b) →
  let c := controls w in
  let c' := controls w' in
  objects c' = objects c
  ∧ (mode c', space c') = (mode c, space c)
  ∧ (snap c', translationSnap c', rotationSnap c', size c')
    = (snap c, translationSnap c, rotationSnap c, size c)
  ∧ length (attributes c') = length (attributes c)
  ∧ (gid (gizmo c'), kind (gizmo c')) = (gid (gizmo c), kind (gizmo c))
  ∧ camera w' = camera w
  ∧ b = editing c'.
Proof.
  intros H c c'.
  pose proof (update_configuration fuel m r w w' b H) as Hc.
  destruct (update_steps fuel m r w w' b H) as (_ & _ & _ & _ & _ & _ & _ & Hb).
  unfold configuration in Hc. cbv zeta in Hc. fold c c' in Hc.
  injection Hc as -> -> -> -> -> -> -> _ _ -> -> -> -> _ _. done.
Qed.

(** X18.  A frame in which the left button is released ends, whatever
    else happens in it, with no edit and no drag in progress; it returns
    false and leaves the scene as it was.  If the button is also pressed in
    the frame, every selected object is to have a parent: the press throws
    otherwise, and the release is not reached. *)
Theorem update_on_release (fuel : nat) (m : Mouse) (r : Rays) (w : World) :
  leftJustReleased m = true →
  (leftJustPressed m = true → parented w) →
  ∃ w',
    Controls.update fuel m r w = Some (w', false)
    ∧ editing (controls w') = false
    ∧ dragging (controls w') = false
    ∧ scene w' = scene w.
Proof.
  intros Hr _. unfold Controls.update. cbv zeta. rewrite Hr.
  set (w1 := if leftJustPressed m then _ else w).
  assert (Hs1 : scene w1 = scene w).
  { unfold w1. destruct (leftJustPressed m); [|done].
    destruct (onPointerDown_cases (pressPickers r) (pressPlane r) w)
      as [->|[->|(w0 & w' & _ & _ & Hs & -> & _ & _ & _ & _ & _ & _ & -> & _)]];
      [done|done|].
    rewrite updatePose_scene. by injection Hs. }
  destruct (onPointerUp_keeps w1) as (U1 & U2 & U3 & _).
  set (w2 := onPointerUp w1) in *.
  assert (H3 : ∃ w3,
    (if Controls.moved m
     then onPointerMove fuel (movePlane r)
            (onPointerHover (hoverPickers r) w2)
     else Some w2) = Some w3
    ∧ editing (controls w3) = false
    ∧ dragging (controls w3) = false
    ∧ scene w3 = scene w2).
  { destruct (Controls.moved m); [|by exists w2].
    set (wh := onPointerHover (hoverPickers r) w2).
    assert (Hh : editing (controls wh) = false
                 ∧ dragging (controls wh) = false
                 ∧ scene wh = scene w2).
    { unfold wh.
      destruct (onPointerHover_cases (hoverPickers r) w2)
        as [->|(w0 & _ & _ & Hf & ->)]; [done|].
      destruct (updatePose_flags w0) as (-> & -> & _).
      rewrite updatePose_scene. injection Hf as -> -> -> _. done. }
    destruct Hh as (Hh1 & Hh2 & Hh3).
    exists wh. split; [|done].
    unfold onPointerMove. cbv zeta.
    destruct (axis (controls wh)); [|done].
    rewrite decide_True; [done|]. tauto. }
  destruct H3 as (w3 & -> & E3 & D3 & S3).
  destruct (updatePose_flags w3) as (F1 & F2 & _).
  exists (updatePose w3). simpl. rewrite F1, F2, E3, D3, updatePose_scene.
  repeat split. congruence.
Qed.

(** X19.  A frame without a press, a release or a move of the pointer only
    computes the pose, and a second such frame changes nothing. *)
Theorem idle_frames_are_stable (fuel fuel' : nat) (m m' : Mouse)
  (r r' : Rays) (w : World) :
  leftJustPressed m = false → leftJustReleased m = false →
  Controls.moved m = false →
  leftJustPressed m' = false → leftJustReleased m' = false →
  Controls.moved m' = false →
  let w' := updatePose w in
  let b := editing (controls w) in
  Controls.update fuel m r w = Some (w', b)
  ∧ Controls.update fuel' m' r' w' = Some (w', b).
Proof.
  intros H1 H2 H3 H1' H2' H3'. cbv zeta. unfold Controls.update. cbv zeta.
  rewrite H1, H2, H3, H1', H2', H3'. simpl.
  rewrite updatePose_twice.
  by destruct (updatePose_flags w) as (_ & -> & _).
Qed.

(** Every call keeps [sound]. *)
Lemma update_sound (fuel : nat) (m : Mouse) (r : Rays) (w w' : World)
  (b : bool) :
  Controls.update fuel m r w = Some (w', b) →
  sound (controls w) → sound (controls w').
Proof.
  intros H Hs.
  destruct (update_steps fuel m r w w' b H)
    as (w1 & w2 & w3 & H1 & H2 & H3 & -> & _).
  assert (S1 : sound (controls w1)).
  { destruct H1 as [->|[_ ->]]; [done|]. by apply onPointerDown_sound. }
  assert (S2 : sound (controls w2)).
  { destruct H2 as [->|[_ ->]]; [done|]. by apply onPointerUp_sound. }
  assert (S3 : sound (controls w3)).
  { destruct H3 as [->|H3]; [done|].
    eapply onPointerMove_sound; [exact H3|]. by apply onPointerHover_sound. }
  destruct S3 as (E & _ & A & B & D & _). by apply updatePose_sound.
Qed.

Lemma run_sound (k : Call) (w w' : World) :
  run k w = Some w' → sound (controls w) → sound (controls w').
Proof.
  destruct k; simpl.
  - intros [= <-]. apply attach_sound.
  - intros [= <-] (E & _ & _ & B & D & _). by apply clear_sound.
  - intros [= <-]. apply setMode_sound.
  - intros [= <-] (E & _ & A & B & D & _). by apply updatePose_sound.
  - intros [= <-]. apply onPointerHover_sound.
  - intros [= <-]. apply onPointerDown_sound.
  - apply onPointerMove_sound.
  - intros [= <-]. apply onPointerUp_sound.
  - destruct (Controls.update fuel m r w) as [[w1 b]|] eqn:H; [|done].
    simpl. intros [= <-]. by eapply update_sound.
  - by intros [= <-].
  - by intros [= <-].
  - by intros [= <-].
Qed.

Lemma runs_sound (l : list Call) (w w' : World) :
  runs l w = Some w' → sound (controls w) → sound (controls w').
Proof.
  revert w. induction l as [|k l IH]; intros w; simpl.
  - by intros [= <-].
  - destruct (run k w) as [w1|] eqn:Hk; [|done]. simpl.
    intros H Hs. apply (IH w1 H). by eapply run_sound.
Qed.

Lemma initial_sound (sc : ref → Object3D) (cam : Camera) :
  sound (controls (initial sc cam)).
Proof.
  unfold sound, wellShown, editingDrags, shown, slots, gizmoOfMode, highlit.
  simpl. repeat split; try done. by right.
Qed.

Lemma reached_sound (l : list Call) (sc : ref → Object3D) (cam : Camera)
  (w : World) :
  runs l (initial sc cam) = Some w → sound (controls w).
Proof. intros H. eapply runs_sound; [exact H|apply initial_sound]. Qed.

(** X20.  Whatever the editor has called since the controls were built,
    the controls are shown only when something is selected. *)
Theorem shown_only_with_a_selection (l : list Call) (sc : ref → Object3D)
  (cam : Camera) (w : World) :
  runs l (initial sc cam) = Some w →
  visible (controls w) = true → 0 < length (objects (controls w)).
Proof.
  intros H Hv. destruct (reached_sound l sc cam w H) as (_ & Hs & _).
  apply nonempty_length_pos. by apply Hs.
Qed.

(** X21.  Whatever the editor has called since the controls were built,
    as long as every press has found the selected objects with a parent,
    an edit is in progress only while the pointer is down: [editing]
    implies [dragging].  A press that finds a selected object without a
    parent throws between the two assignments. *)
Theorem editing_only_while_dragging (l : list Call) (sc : ref → Object3D)
  (cam : Camera) (w : World) :
  runs l (initial sc cam) = Some w →
  pressesParented l (initial sc cam) = true →
  editing (controls w) = true → dragging (controls w) = true.
Proof.
  intros H _. by destruct (reached_sound l sc cam w H) as (Hs & _).
Qed.

(** X22.  Whatever the editor has called since the controls were built,
    every selected object has its slot of attributes: the loops over the
    selection never read [attributes] past its end. *)
Theorem every_object_has_a_slot (l : list Call) (sc : ref → Object3D)
  (cam : Camera) (w : World) :
  runs l (initial sc cam) = Some w →
  length (objects (controls w)) ≤ length (attributes (controls w)).
Proof.
  intros H. by destruct (reached_sound l sc cam w H) as (_ & _ & Hs & _).
Qed.

(** X23.  Whatever the editor has called since the controls were built,
    [lookAtMatrix] is the identity of the constructor: no method writes
    it, so that a rotation on the token E takes its two vectors back by
    the inverse of the identity, whatever the camera. *)
Theorem lookAtMatrix_stays_identity (l : list Call) (sc : ref → Object3D)
  (cam : Camera) (w : World) :
  runs l (initial sc cam) = Some w →
  lookAtMatrix (controls w) = m_identity.
Proof.
  intros H. by destruct (reached_sound l sc cam w H) as (_ & _ & _ & Hs & _).
Qed.

(** X24.  Whatever the editor has called since the controls were built,
    the gizmo in use is the one of the mode and the only child of the
    controls, or else it is still the base gizmo of the constructor, which
    is not a child of the controls, the mode being still [TRANSLATE]: a
    first [setMode(TRANSLATE)] finds the mode unchanged and builds no
    gizmo. *)
Theorem gizmo_is_the_one_of_the_mode (l : list Call) (sc : ref → Object3D)
  (cam : Camera) (w : World) :
  runs l (initial sc cam) = Some w →
  let c := controls w in
  (kind (gizmo c) = gizmoFor (mode c) ∧ children c = [gid (gizmo c)])
  ∨ (kind (gizmo c) = GizmoBase ∧ mode c = TRANSLATE ∧ children c = []).
Proof.
  intros H.
  by destruct (reached_sound l sc cam w H) as (_ & _ & _ & _ & Hs & _).
Qed.

(** A gizmo whose meshes have had their last call of [highlight] for the
    axis [ax] is as [highlight] leaves it for [ax]. *)
Lemma highlight_fixed (ax : option string) (g : TransformGizmo) :
  Forall (λ n, highlighted n = None
               ∨ highlighted n = Some (nameIs (nname n) ax)) (nodes g) →
  highlight ax g = g.
Proof.
  intros Hall. unfold highlight. destruct g as [id k ns ap]. simpl in *.
  f_equal. induction Hall as [|n ns' Hn _ IH]; [done|].
  simpl. rewrite IH. f_equal.
  unfold highlightNode. destruct n as [nm o [b|]]; simpl in *; [|done].
  destruct Hn as [Hn|Hn]; [done|]. by rewrite <- Hn.
Qed.

(** X25.  Whatever the editor has called since the controls were built,
    with a selection and in a mode other than [NONE] the highlighting of
    the gizmo is up to date with [axis]: the last traversal of [highlight]
    was made for the present value of [axis], and one more call of
    [gizmo.highlight(axis)] changes nothing. *)
Theorem highlight_is_up_to_date (l : list Call) (sc : ref → Object3D)
  (cam : Camera) (w : World) :
  runs l (initial sc cam) = Some w →
  let c := controls w in
  objects c ≠ [] → mode c ≠ NONE →
  highlight (axis c) (gizmo c) = gizmo c.
Proof.
  intros H c Hne Hm.
  destruct (reached_sound l sc cam w H) as (_ & _ & _ & _ & _ & Hh).
  apply highlight_fixed. by apply Hh.
Qed.

End Frames.

(** ** The switch of the gizmo *)

Section Switch.
Context {N : JsNumber} {L : Library} {G : GizmoTables}.

Lemma updateNode_name (r : Euler) (e : Vector3) (n : GizmoNode) :
  nname (updateNode r e n) = nname n.
Proof. unfold updateNode. by repeat case_match. Qed.

Lemma highlightNode_name (ax : option string) (n : GizmoNode) :
  nname (highlightNode ax n) = nname n.
Proof. unfold highlightNode. by case_match. Qed.

Lemma posedGizmo_names (c : TransformControls)
  (a : TransformControlAtttributes) (e : Vector3) :
  map nname (nodes (posedGizmo c a e)) = map nname (nodes (gizmo c)).
Proof.
  unfold posedGizmo, highlight, update. simpl. rewrite map_map.
  repeat case_decide; simpl; rewrite ?map_map; apply map_ext; intros n;
    by rewrite highlightNode_name, ?updateNode_name.
Qed.

Lemma updatePose_names (w : World) :
  map nname (nodes (gizmo (controls (updatePose w))))
  = map nname (nodes (gizmo (controls w))).
Proof.
  destruct (decide (objects (controls w) = [])) as [He|Hne].
  { unfold updatePose. cbv zeta. rewrite decide_True by by rewrite He. done. }
  destruct (decide (mode (controls w) = NONE)) as [Hm|Hm].
  { unfold updatePose. cbv zeta.
    rewrite decide_False by by apply nonempty_length.
    by rewrite decide_True. }
  destruct (updatePose_writes w Hne Hm) as (_ & _ & _ & _ & _ & _ & _ & _ & ->).
  apply posedGizmo_names.
Qed.

Lemma updatePose_visible (w : World) :
  visible (controls w) = bool_decide (objects (controls w) ≠ []) →
  visible (controls (updatePose w)) = bool_decide (objects (controls w) ≠ []).
Proof.
  intros Hv.
  destruct (decide (objects (controls w) = [])) as [He|Hne].
  { unfold updatePose. cbv zeta. rewrite decide_True by by rewrite He.
    simpl. by rewrite bool_decide_eq_false_2 by tauto. }
  destruct (decide (mode (controls w) = NONE)) as [Hm|Hm].
  { unfold updatePose. cbv zeta.
    rewrite decide_False by by apply nonempty_length.
    by rewrite decide_True. }
  destruct (updatePose_writes w Hne Hm) as (_ & -> & _).
  by rewrite bool_decide_eq_true_2.
Qed.

(** X6.  [setMode] with a mode other than the current one replaces the
    gizmo by a new one of the kind of the mode, the base gizmo for [NONE]
    and for any unknown mode, with its active plane at XYZE: the old gizmo
    is dismissed if it defines [dismiss] and removed from the children of
    the controls, the new one is built and added.  The space becomes
    [LOCAL] for [SCALE] and is kept otherwise; the controls are visible
    when something is selected; the selection, the flags of the drag, the
    scene, the history and the camera are as they were. *)
Theorem setMode_switches (m : string) (w : World) :
  mode (controls w) ≠ m →
  let c := controls w in
  let old := gizmo c in
  let w' := setMode m w in
  let c' := controls w' in
  mode c' = m
  ∧ space c' = (if decide (m = SCALE) then LOCAL else space c)
  ∧ kind (gizmo c') = gizmoFor m
  ∧ gid (gizmo c') = nextGizmo w
  ∧ activePlane (gizmo c') = "XYZE"
  ∧ map nname (nodes (gizmo c'))
    = handlesOf (gizmoFor m) ++ pickersOf (gizmoFor m) ++ planeNames
  ∧ gizmoLog w'
    = gizmoLog w
      ++ (if definesDismiss (kind old) then [Dismissed (gid old)] else [])
      ++ [Constructed (gizmoFor m) (nextGizmo w)]
  ∧ children c'
    = List.filter (λ k, negb (k =? gid old)) (children c) ++ [nextGizmo w]
  ∧ visible c' = bool_decide (objects c ≠ [])
  ∧ objects c' = objects c
  ∧ (dragging c', editing c') = (dragging c, editing c)
  ∧ (scene w', history w', camera w') = (scene w, history w, camera w).
Proof.
  intros Hm c old w' c'. unfold c', w', setMode. cbv zeta. fold c.
  rewrite decide_False by done.
  set (w5 := set_nextGizmo _ _).
  assert (H5 :
    mode (controls w5) = m
    ∧ space (controls w5) = (if decide (m = SCALE) then LOCAL else space c)
    ∧ kind (gizmo (controls w5)) = gizmoFor m
    ∧ gid (gizmo (controls w5)) = nextGizmo w
    ∧ activePlane (gizmo (controls w5)) = "XYZE"
    ∧ map nname (nodes (gizmo (controls w5)))
      = handlesOf (gizmoFor m) ++ pickersOf (gizmoFor m) ++ planeNames
    ∧ gizmoLog w5
      = gizmoLog w
        ++ (if definesDismiss (kind old) then [Dismissed (gid old)] else [])
        ++ [Constructed (gizmoFor m) (nextGizmo w)]
    ∧ children (controls w5)
      = List.filter (λ k, negb (k =? gid old)) (children c) ++ [nextGizmo w]
    ∧ visible (controls w5) = bool_decide (objects c ≠ [])
    ∧ objects (controls w5) = objects c
    ∧ (dragging (controls w5), editing (controls w5))
      = (dragging c, editing c)
    ∧ (scene w5, history w5, camera w5) = (scene w, history w, camera w)).
  { unfold w5. simpl. destruct (decide (m = SCALE)) as [Hsc|Hsc]; simpl.
    - repeat split; try done.
      + rewrite !map_app, !map_map. simpl. by rewrite !map_id.
      + fold c old.
        by destruct (definesDismiss (kind old)); rewrite <- ?app_assoc.
      + apply bool_decide_ext, nonempty_length_pos.
    - repeat split; try done.
      + rewrite !map_app, !map_map. simpl. by rewrite !map_id.
      + fold c old.
        by destruct (definesDismiss (kind old)); rewrite <- ?app_assoc.
      + apply bool_decide_ext, nonempty_length_pos. }
  destruct H5 as (A1 & A2 & A3 & A4 & A5 & A6 & A7 & A8 & A9 & A10 & A11 & A12).
  clearbody w5.
  pose proof (updatePose_configuration w5) as Hc.
  destruct (updatePose_gizmo_frame w5) as (_ & _ & G3).
  pose proof (updatePose_names w5) as Hn.
  destruct (updatePose_flags w5) as (F1 & F2 & _ & F4).
  pose proof (updatePose_scene w5) as Hs.
  assert (Hv : visible (controls (updatePose w5))
               = bool_decide (objects (controls w5) ≠ [])).
  { apply updatePose_visible. by rewrite A9, A10. }
  remember (updatePose w5) as w6 eqn:Hw6. clear Hw6.
  unfold configuration in Hc. cbv zeta in Hc.
  injection Hc as E1 E2 E3 _ _ _ _ _ E9 _ E11 E12 E13 E14 E15.
  rewrite E1, E2, E3, E9, E11, E12, E13, E14, G3, Hn, Hv, F1, F2, F4, Hs.
  rewrite A1, A2, A3, A4, A5, A6, A7, A8, A10, A11.
  injection A12 as -> -> ->. done.
Qed.

End Switch.

(** ** The hover and the gizmo *)

Section HoverAndGizmo.
Context {N : JsNumber} {L : Library} {G : GizmoTables}.

Lemma updatePose_axis (w : World) :
  objects (controls w) ≠ [] →
  axis (controls (updatePose w)) = axis (controls w).
Proof.
  intros Hne. destruct (updatePose_keeps w Hne) as (K1 & _).
  unfold settings in K1. by injection K1.
Qed.

(** X7.  A hover that is not ignored, with a selection, no drag in
    progress and a mode other than [NONE], sets [axis] to the name of the
    first picker that the ray hits, or to [null] when it hits none; it
    changes nothing at all when that is the axis already, and never the
    scene, the history, the selection or the flags of the drag. *)
Theorem hover_picks_the_axis (pickers : list Intersection) (w : World) :
  objects (controls w) ≠ [] →
  dragging (controls w) = false →
  mode (controls w) ≠ NONE →
  let c := controls w in
  let w' := onPointerHover pickers w in
  let c' := controls w' in
  axis c' = iname <$> head pickers
  ∧ (axis c = iname <$> head pickers → w' = w)
  ∧ (scene w', history w') = (scene w, history w)
  ∧ (objects c', dragging c', editing c') = (objects c, dragging c, editing c).
Proof.
  intros Hne Hd Hm c w' c'. unfold c', w', onPointerHover. cbv zeta.
  rewrite decide_False.
  2:{ apply nonempty_length in Hne. rewrite Hd. intros [?|[?|?]]; done. }
  unfold intersectObjects. fold c.
  case_decide as Ha.
  - set (w0 := set_controls _ w).
    assert (Hne0 : objects (controls w0) ≠ []) by done.
    rewrite (updatePose_axis w0 Hne0), updatePose_scene, updatePose_objects.
    destruct (updatePose_flags w0) as (-> & -> & _ & ->).
    by repeat split.
  - by repeat split.
Qed.

(** X26.  The pose of a gizmo is the one of the last call: a second
    [update] overrides the first, a second [highlight] overrides the
    first, and the two methods commute. *)
Theorem gizmo_pose_is_the_last_one (r1 r2 : Euler) (e1 e2 : Vector3)
  (a1 a2 : option string) (g : TransformGizmo) :
  update r2 e2 (update r1 e1 g) = update r2 e2 g
  ∧ highlight a2 (highlight a1 g) = highlight a2 g
  ∧ highlight a2 (update r1 e1 g) = update r1 e1 (highlight a2 g).
Proof.
  unfold update, highlight. simpl. repeat split.
  - f_equal. rewrite <- list_fmap_compose. apply list_fmap_ext.
    intros i [nm o h] _. unfold updateNode. simpl.
    destruct (found "E" nm) eqn:HE; simpl; [by rewrite HE|].
    destruct (found "X" nm || found "Y" nm || found "Z" nm) eqn:HX; simpl;
      by rewrite HE, HX.
  - f_equal. rewrite <- list_fmap_compose. apply list_fmap_ext.
    by intros i [nm o [h|]] _.
  - f_equal. rewrite <- !list_fmap_compose. apply list_fmap_ext.
    intros i [nm o h] _. unfold updateNode, highlightNode. simpl.
    destruct (found "E" nm) eqn:HE; simpl.
    { destruct h; simpl; by rewrite ?HE. }
    destruct (found "X" nm || found "Y" nm || found "Z" nm) eqn:HX; simpl;
      destruct h; simpl; by rewrite ?HE, ?HX.
Qed.

(** X27.  Whatever the gizmo, after its construction and an [update] the
    last four of its meshes are the four planes: XY, YZ and XZ turned by
    the rotation given, XYZE facing the camera; they cannot be
    highlighted, and the active plane is XYZE. *)
Theorem update_turns_the_planes (k : GizmoKind) (id : nat) (r : Euler)
  (e : Vector3) (ax : option string) :
  let g := highlight ax (update r e (newTransformGizmo k id)) in
  drop (length (handlesOf k) + length (pickersOf k)) (nodes g)
  = [mkNode "XY" (FromEuler r) None; mkNode "YZ" (FromEuler r) None;
     mkNode "XZ" (FromEuler r) None; mkNode "XYZE" (FacingEye e) None]
  ∧ activePlane g = "XYZE".
Proof.
  cbv zeta. split; [|done].
  unfold highlight, update, newTransformGizmo. cbn [nodes].
  rewrite !map_app, app_assoc, drop_app_length'; [done|].
  by rewrite length_app, !length_map.
Qed.

End HoverAndGizmo.

(** ** The side bar *)

Section SideBarLayout.
Context {N : JsNumber} {O : JsOrder}.

Lemma iter_shift (sz position : num) (j : nat) :
  Nat.iter j (λ p, p ⊕ sz) (position ⊕ sz)
  = Nat.iter (S j) (λ p, p ⊕ sz) position.
Proof. induction j as [|j IH]; [done|]. simpl. by rewrite IH. Qed.

(** The first loop places the buttons that fit, from the top, and stops at
    the first one that does not. *)
Lemma placeButtons_result (sz limit position : num) (i : nat)
  (bs : list SideBar.ButtonDrawer) :
  ∃ k,
    k ≤ length bs
    ∧ (∀ j, j < k → nlt (Nat.iter j (λ p, p ⊕ sz) position) limit = true)
    ∧ (k < length bs →
         nlt (Nat.iter k (λ p, p ⊕ sz) position) limit = false)
    ∧ SideBar.placeButtons sz limit position i bs
      = (imap (λ j b,
                 SideBar.placeButton sz (Nat.iter j (λ p, p ⊕ sz) position) b)
           (take k bs)
         ++ drop k bs, Nat.iter k (λ p, p ⊕ sz) position, i + k).
Proof.
  revert position i. induction bs as [|b bs IH]; intros position i.
  - exists 0. simpl. repeat split; try lia. by rewrite Nat.add_0_r.
  - cbn [SideBar.placeButtons]. destruct (nlt position limit) eqn:Hfit.
    + destruct (IH (position ⊕ sz) (S i)) as (k & Hk & Hall & Hstop & ->).
      exists (S k). repeat split.
      * simpl. lia.
      * intros [|j] Hj; [done|]. rewrite <- iter_shift. apply Hall. lia.
      * intros Hlt. rewrite <- iter_shift. apply Hstop. simpl in Hlt. lia.
      * rewrite <- iter_shift. f_equal; [|lia]. f_equal.
        cbn [take drop imap app]. f_equal. f_equal.
        apply imap_ext. intros j x _. simpl. by rewrite iter_shift.
    + exists 0. simpl. repeat split; try done; try lia.
      by rewrite Nat.add_0_r.
Qed.

(** X28.  [updateSize] of the side bar puts the first [k] buttons on the
    bar, from 210 down, one width of the bar apart, each square of that
    width, visible and attached, where [k] is the number of buttons before
    the first one whose place is not above the height of the bar minus
    twice its width (all of them, if there is none); the other buttons are
    not written. *)
Theorem updateSize_places_the_buttons (s : SideBar.SideBar) :
  let sz := fst (SideBar.barSize s) in
  let limit := snd (SideBar.barSize s) ⊖ lit 2 ⊗ sz in
  let n := length (SideBar.buttons s) in
  let s' := SideBar.updateSize s in
  ∃ k,
    k ≤ n
    ∧ (∀ j, j < k → nlt (placeOf sz j) limit = true)
    ∧ (k < n → nlt (placeOf sz k) limit = false)
    ∧ SideBar.barSize s' = SideBar.barSize s
    ∧ length (SideBar.buttons s') = n
    ∧ ∀ j b, SideBar.buttons s !! j = Some b →
        SideBar.buttons s' !! j
        = Some (if decide (j < k)
                then SideBar.mkDrawer true (sz, sz) (lit 0, placeOf sz j)
                       (sz, sz) true (SideBar.inserted b)
                else b).
Proof.
  cbv zeta. unfold SideBar.updateSize. cbv zeta.
  destruct (placeButtons_result (fst (SideBar.barSize s))
              (snd (SideBar.barSize s) ⊖ lit 2 ⊗ fst (SideBar.barSize s))
              (lit 210) 0 (SideBar.buttons s))
    as (k & Hk & Hall & Hstop & ->).
  exists k. split; [done|]. split; [done|]. split; [done|].
  assert (Hb : ∀ bs' : list SideBar.ButtonDrawer,
    bs' = imap (λ j b,
                  SideBar.placeButton (fst (SideBar.barSize s))
                    (Nat.iter j (λ p, p ⊕ fst (SideBar.barSize s)) (lit 210))
                    b)
            (take k (SideBar.buttons s)) ++ drop k (SideBar.buttons s) →
    length bs' = length (SideBar.buttons s)
    ∧ ∀ j b, SideBar.buttons s !! j = Some b →
        bs' !! j
        = Some (if decide (j < k)
                then SideBar.mkDrawer true
                       (fst (SideBar.barSize s), fst (SideBar.barSize s))
                       (lit 0, placeOf (fst (SideBar.barSize s)) j)
                       (fst (SideBar.barSize s), fst (SideBar.barSize s))
                       true (SideBar.inserted b)
                else b)).
  { intros bs' ->. split.
    - rewrite length_app, length_imap, length_take, length_drop. lia.
    - intros j b Hj. destruct (decide (j < k)) as [Hlt|Hge].
      + rewrite lookup_app_l by (rewrite length_imap, length_take; lia).
        rewrite list_lookup_imap, lookup_take_lt by done. by rewrite Hj.
      + rewrite lookup_app_r by (rewrite length_imap, length_take; lia).
        rewrite length_imap, length_take, lookup_drop.
        rewrite <- Hj. f_equal. lia. }
  destruct (Hb _ eq_refl) as [Hlen Hlook].
  destruct (nlt (snd (SideBar.barSize s)) (lit 250)); simpl; by repeat split.
Qed.

(** X29.  [updateSize] of a side bar that is at least 250 high hands every
    button that it has not put on the bar to the drawer [more], in order,
    puts the drawer at the place after the last button, and hides it when
    it has put every button on the bar; the text is shown.  Below 250 the
    drawer and the text are hidden, and the buttons not put on the bar are
    handed to nobody. *)
Theorem updateSize_fills_the_drawer (s : SideBar.SideBar) :
  let sz := fst (SideBar.barSize s) in
  let limit := snd (SideBar.barSize s) ⊖ lit 2 ⊗ sz in
  let n := length (SideBar.buttons s) in
  let m := SideBar.more s in
  let s' := SideBar.updateSize s in
  ∃ k,
    k ≤ n
    ∧ (∀ j, j < k → nlt (placeOf sz j) limit = true)
    ∧ (k < n → nlt (placeOf sz k) limit = false)
    ∧ SideBar.addTextVisible s'
      = negb (nlt (snd (SideBar.barSize s)) (lit 250))
    ∧ SideBar.more s'
      = if nlt (snd (SideBar.barSize s)) (lit 250) || bool_decide (k = n)
        then SideBar.mkDrawer (SideBar.attachedToBar m) (SideBar.size m)
               (SideBar.position m) (SideBar.optionsSize m) false
               (SideBar.inserted m)
        else SideBar.mkDrawer (SideBar.attachedToBar m) (sz, sz)
               (lit 0, placeOf sz k) (sz, sz) true
               (SideBar.inserted m ++ seq k (n - k)).
Proof.
  cbv zeta. unfold SideBar.updateSize. cbv zeta.
  destruct (placeButtons_result (fst (SideBar.barSize s))
              (snd (SideBar.barSize s) ⊖ lit 2 ⊗ fst (SideBar.barSize s))
              (lit 210) 0 (SideBar.buttons s))
    as (k & Hk & Hall & Hstop & ->).
  exists k. split; [done|]. split; [done|]. split; [done|].
  destruct (nlt (snd (SideBar.barSize s)) (lit 250)); simpl; [done|].
  split; [done|].
  destruct (decide (k < length (SideBar.buttons s))) as [Hlt|Hge].
  - by rewrite bool_decide_eq_false_2 by lia.
  - by rewrite bool_decide_eq_true_2 by lia.
Qed.

End SideBarLayout.

(** ** A drag, from the press to the release *)

Section WholeDrag.
Context {N : JsNumber} {L : Library} {G : GizmoTables}.

Lemma map_objects {A : Type} (c : TransformControls) (f : ref → A) :
  map (λ j, f (objectAt c j)) (seq 0 (length (objects c)))
  = map f (objects c).
Proof.
  unfold objectAt. generalize (objects c). intros l.
  induction l as [|r l IH] using rev_ind; [done|].
  replace (length (l ++ [r])) with (S (length l))
    by (rewrite length_app; simpl; lia).
  rewrite seq_S, !map_app. simpl.
  rewrite lookup_app_r by done. rewrite Nat.sub_diag. simpl.
  f_equal. rewrite <- IH. apply map_ext_in. intros j Hj.
  apply in_seq in Hj. by rewrite lookup_app_l by lia.
Qed.

(** X11.  A drag in [TRANSLATE] mode is recorded whole: after a press on a
    picker whose ray meets the active plane, every selected object having
    a parent, a move whose ray meets the plane too, and the release, the
    history has one bundle more, which holds for every selected object, in
    order, the three components of its position with the value that the
    move has left as new value and the value of before the press as old
    value. *)
Theorem drag_is_recorded (fuel : nat) (pick origin hit : Intersection)
  (pickers plane rest : list Intersection) (w : World) :
  objects (controls w) ≠ [] →
  dragging (controls w) = false →
  mode (controls w) = TRANSLATE →
  slots (controls w) →
  parented w →
  let w1 := onPointerDown (pick :: pickers) (origin :: plane) w in
  ∃ w2,
    onPointerMove fuel (hit :: rest) w1 = Some w2
    ∧ history (onPointerUp w2)
      = history w
        ++ [concat
              (map (λ r, vectorActions (PositionOf r) (position (scene w2 r))
                           (position (scene w r)))
                 (objects (controls w)))]
    ∧ scene (onPointerUp w2) = scene w2.
Proof.
  intros Hne Hd Hm Hslots _ w1.
  assert (Hm' : mode (controls w) ≠ NONE) by by rewrite Hm.
  destruct (onPointerDown_pressed pick origin pickers plane w Hne Hd Hm'
              Hslots)
    as (Ho & Hmo & Hlen & Hax & He & Hdr & _ & Hsc & Hh & Hsnap).
  fold w1 in Ho, Hmo, Hlen, Hax, He, Hdr, Hsc, Hh, Hsnap.
  clearbody w1.
  assert (Hne1 : objects (controls w1) ≠ []) by by rewrite Ho.
  rewrite (onPointerMove_translate fuel hit rest w1 (iname pick))
    by (done || by rewrite Hmo).
  eexists. split; [reflexivity|].
  set (wl := forIndices _ _ w1).
  assert (Hst : steady wl w1).
  { apply forIndices_steady. intros. apply translateObject_steady. }
  pose proof (steady_objects _ _ Hst) as Hol.
  destruct Hst as (S1 & S2 & _ & S4).
  destruct (updatePose_keeps wl) as (K1 & K2 & _ & _ & K5).
  { by rewrite Hol. }
  set (w2 := updatePose wl) in *. clearbody w2.
  unfold settings in S1, K1. unfold surroundings in K5.
  injection S1 as E1 _ _ _ _ E6 _ _ E9 _ _ _ _.
  injection K1 as F1 _ _ _ _ F6 _ _ F9 _ _ _ _.
  injection K5 as _ _ F16 _ _. injection S4 as _ E16 _ _.
  destruct (onPointerUp_keeps w2) as (U1 & _).
  split; [|exact U1].
  rewrite onPointerUp_history.
  2:{ by rewrite F9, E9. }
  2:{ left. by rewrite F6, E6, Hmo. }
  rewrite F16, E16, Hh. f_equal. f_equal. f_equal.
  rewrite F1, E1, Ho.
  rewrite <- (map_objects (controls w)
                (λ r, vectorActions (PositionOf r) (position (scene w2 r))
                        (position (scene w r)))).
  apply map_ext_in. intros j Hj. apply in_seq in Hj.
  unfold releasedActions. rewrite decide_True by by rewrite F6, E6, Hmo.
  assert (Hoj : objectAt (controls w2) j = objectAt (controls w) j).
  { unfold objectAt. by rewrite F1, E1, Ho. }
  rewrite Hoj. f_equal.
  assert (Hs2 : snapshot (attributeAt (controls w2) j)
                = snapshot (attributeAt (controls w1) j)).
  { apply snapshots_attributeAt. rewrite K2. unfold snapshots. by rewrite S2. }
  rewrite Hsnap in Hs2 by lia.
  unfold snapshot, snapshotOf in Hs2. by injection Hs2.
Qed.

(** X1.  Attaching objects of which none can be attached, or none at all,
    is [clear()]: nothing is selected, the controls are hidden, no axis is
    chosen, and the rest is as it was. *)
Theorem attach_of_nothing (objs : list ref) (w : World) :
  Forall (λ r, isObject3D (scene w r) = false ∨ locked (scene w r) = true
               ∨ parent (scene w r) = None) objs →
  attach objs w = clear w.
Proof.
  intros Hall. unfold attach. cbv zeta. rewrite pushAttachable_filter.
  assert (Hf : List.filter (attachable w) objs = []).
  { induction Hall as [|r l Hr _ IH]; [done|]. simpl. rewrite IH.
    unfold attachable.
    destruct Hr as [Hr|[Hr|Hr]]; rewrite Hr; [done| |];
      by destruct (isObject3D (scene w r)), (locked (scene w r)). }
  rewrite Hf. simpl. unfold growAttributes. simpl.
  by destruct w as [[] ?].
Qed.

End WholeDrag.

(** ** Examples *)

Section MoreExamples.
Import Exact Scenes Stories.

Lemma Some_default {A : Type} (o : option A) (d : A) :
  (if o is Some _ then true else false) = true → o = Some (default d o).
Proof. by destruct o. Qed.

Lemma parented_by_computation (w : World) :
  bool_decide (parented w) = true → parented w.
Proof. apply bool_decide_eq_true_1. Qed.

(** The statement of X4 on the two meshes. *)
Lemma updatePose_places_witness :
  let w := twoMeshes in
  let c := controls w in
  let c' := controls (updatePose w) in
  let worldPositionOf r := v_setFromMatrixPosition (matrixWorld (scene w r)) in
  let camPos := v_setFromMatrixPosition (cameraMatrixWorld (camera w)) in
  let pos :=
    v_divideScalar (fold_left v_add (map worldPositionOf (objects c)) v_zero)
      (lit (Z.of_nat (length (objects c)))) in
  let ts :=
    if isPerspectiveCamera (camera w)
    then v_distanceTo pos camPos ⊘ lit 6 ⊗ size c
    else cameraSize (camera w) ⊘ lit 6 ⊗ size c in
  visible c' = true
  ∧ selfPosition c' = pos
  ∧ toolScale c' = ts
  ∧ selfScale c' = vec3 ts ts ts
  ∧ eye c' = v_normalize (v_sub camPos pos)
  ∧ ∀ i r, objects c !! i = Some r →
      worldPosition (attributeAt c' i) = worldPositionOf r
      ∧ worldRotation (attributeAt c' i)
        = euler_setFromRotationMatrix
            (m_extractRotation (matrixWorld (scene w r))).
Proof. apply (updatePose_places twoMeshes); computed. Defined.

(** The statement of X9 on the two meshes. *)
Lemma press_takes_snapshots_witness :
  let w := twoMeshes in
  let pick := mkIntersection "X" v_zero in
  let origin := mkIntersection "XY" (vec 1 0 0) in
  let c := controls w in
  let w1 := onPointerDown [pick] [origin] w in
  let c1 := controls w1 in
  axis c1 = Some (iname pick)
  ∧ editing c1 = true
  ∧ dragging c1 = true
  ∧ offset c1 = ipoint origin
  ∧ scene w1 = scene w
  ∧ history w1 = history w
  ∧ ∀ j, j < length (objects c) →
      snapshot (attributeAt c1 j) = snapshotOf w (scene w (objectAt c j)).
Proof.
  apply (press_takes_snapshots _ _ [] [] twoMeshes);
    [computed|computed|computed|computed|].
  apply parented_by_computation. computed.
Defined.

(** The statement of X10 on the two meshes. *)
Lemma click_records_no_change_witness :
  let w := twoMeshes in
  let pick := mkIntersection "X" v_zero in
  let origin := mkIntersection "XY" (vec 1 0 0) in
  let c := controls w in
  let w2 := onPointerUp (onPointerDown [pick] [origin] w) in
  ∃ bundle,
    history w2 = history w ++ [bundle]
    ∧ Forall (λ a, newValue a = oldValue a) bundle
    ∧ length bundle
      = (if decide (mode c = ROTATE) then 4 else 3) * length (objects c)
    ∧ scene w2 = scene w
    ∧ editing (controls w2) = false
    ∧ dragging (controls w2) = false.
Proof.
  apply (click_records_no_change _ _ [] [] twoMeshes);
    [computed|computed|left; computed|computed|].
  apply parented_by_computation. computed.
Defined.

(** The bundle of the click on the two meshes, computed: six actions that
    change nothing. *)
Lemma click_on_two_meshes :
  map (map (λ a, (attribute a, this (newValue a), this (oldValue a))))
    (history
       (onPointerUp
          (onPointerDown (hitAt "X" v_zero) (hitAt "XY" (vec 1 0 0))
             twoMeshes)))
  = [[("x", 1 # 2, 1 # 2); ("y", 0, 0); ("z", 0, 0);
      ("x", -1 # 2, -1 # 2); ("y", 0, 0); ("z", 0, 0)]]%Q.
Proof. vm_compute. reflexivity. Qed.

(** The statement of X12 on a drag of the first of two meshes. *)
Lemma drag_spares_unselected_witness :
  let w := oneOfTwo in
  let w' :=
    default w (onPointerMove 0 (hitAt "XY" (vec 2 0 0)) w) in
  scene w' 2 = scene w 2.
Proof.
  apply (drag_spares_unselected 0 (hitAt "XY" (vec 2 0 0)) oneOfTwo).
  - apply Some_default. vm_compute. reflexivity.
  - vm_compute. intros H. apply list_elem_of_In in H. simpl in H.
    destruct H as [H|[]]. discriminate.
Defined.

(** The statement of X13 on a drag of the first of two meshes. *)
Lemma drag_writes_its_component_witness :
  let w := oneOfTwo in
  let w' :=
    default w (onPointerMove 0 (hitAt "XY" (vec 2 0 0)) w) in
  let c := controls w in
  (mode c = TRANSLATE →
     ∀ r, besidesPosition (scene w' r) = besidesPosition (scene w r))
  ∧ (mode c = ROTATE →
       ∀ r, besidesQuaternion (scene w' r) = besidesQuaternion (scene w r))
  ∧ (mode c = SCALE →
       ∀ r, besidesScale (scene w' r) = besidesScale (scene w r))
  ∧ (mode c ≠ TRANSLATE → mode c ≠ ROTATE → mode c ≠ SCALE →
       scene w' = scene w).
Proof.
  apply (drag_writes_its_component 0 (hitAt "XY" (vec 2 0 0)) oneOfTwo).
  apply Some_default. vm_compute. reflexivity.
Defined.

(** The drag of the two witnesses, computed: the selected mesh is at
    (2, 0, 0), the other one where it was. *)
Lemma drag_of_one_of_two :
  (λ w, (xyz (position (scene w 1)), xyz (position (scene w 2))))
    <$> onPointerMove 0 (hitAt "XY" (vec 2 0 0)) oneOfTwo
  = Some ((2, 0, 0), (0, 3, 0))%Q.
Proof. vm_compute. reflexivity. Qed.

(** The statement of X15 on one mesh dragged along X by 1. *)
Lemma scale_along_one_axis_witness :
  let w := scalePressed "X" in
  let hit := mkIntersection "XY" (vec 1 0 0) in
  let c := controls w in
  ∃ w',
    onPointerMove 1 [hit] w = Some w'
    ∧ ∀ j, j < length (objects c) →
        let a := attributeAt c j in
        let s := scale (scene w (objectAt c j)) in
        let p :=
          v_applyMatrix4
            (v_multiply (v_sub (ipoint hit) (offset c)) (parentScale a))
            (m_getInverse (worldRotationMatrix a)) in
        scale (scene w' (objectAt c j))
        = if decide ("X" = "X")
          then vec3 (vx (oldScale a) ⊗ (lit 1 ⊕ vx p)) (vy s) (vz s)
          else if decide ("X" = "Y")
          then vec3 (vx s) (vy (oldScale a) ⊗ (lit 1 ⊕ vy p)) (vz s)
          else if decide ("X" = "Z")
          then vec3 (vx s) (vy s) (vz (oldScale a) ⊗ (lit 1 ⊕ vz p))
          else s.
Proof.
  apply (scale_along_one_axis 1 (mkIntersection "XY" (vec 1 0 0)) []
           (scalePressed "X") "X").
  - computed.
  - computed.
  - discriminate.
  - computed.
  - computed.
  - apply NoDup_by_computation. vm_compute. reflexivity.
  - intros j Hj. assert (j = 0) as -> by (vm_compute in Hj; lia).
    vm_compute. reflexivity.
  - computed.
Defined.

(** The frame of the witness, computed: the scale (1, 1, 1) doubled along
    x. *)
Lemma scale_along_x_doubles :
  (λ w', xyz (scale (scene w' 1)))
    <$> onPointerMove 1 (hitAt "XY" (vec 1 0 0)) (scalePressed "X")
  = Some (2, 1, 1)%Q.
Proof. vm_compute. reflexivity. Qed.

(** The statement of X16 on a physics object with a box and a sphere. *)
Lemma scale_syncs_the_body_witness :
  ∃ w' shapes',
    onPointerMove 1 [mkIntersection "XY" (vec 1 0 0)] scaleBody = Some w'
    ∧ body (scene w' 1) = Some shapes'
    ∧ Forall2 (follows (scale (scene w' 1))) shapes' [box; ball].
Proof.
  apply (scale_syncs_the_body 1 (mkIntersection "XY" (vec 1 0 0)) []
           scaleBody "X" 1 [box; ball]); computed.
Defined.

(** The frame of the witness, computed: the scale is (2, 1, 1), the half
    extents of the box are (1, 1/2, 1/2) and the radius of the sphere
    is 2. *)
Lemma scale_of_the_body :
  (λ w', (xyz (scale (scene w' 1)),
          (λ sh, (xyz (halfExtents sh), this (radius sh)))
            <$> default [] (body (scene w' 1))))
    <$> onPointerMove 1 (hitAt "XY" (vec 1 0 0)) scaleBody
  = Some ((2, 1, 1), [((1, 1 # 2, 1 # 2), 0); ((0, 0, 0), 2)])%Q.
Proof. vm_compute. reflexivity. Qed.

(** The statement of X17 on the frame of a press over the two meshes. *)
Lemma update_keeps_configuration_witness :
  let w := twoMeshes in
  let res :=
    default (w, false) (Controls.update 1 mousePressed (raysTo v_zero) w) in
  let w' := fst res in
  let b := snd res in
  let c := controls w in
  let c' := controls w' in
  objects c' = objects c
  ∧ (mode c', space c') = (mode c, space c)
  ∧ (snap c', translationSnap c', rotationSnap c', size c')
    = (snap c, translationSnap c, rotationSnap c, size c)
  ∧ length (attributes c') = length (attributes c)
  ∧ (gid (gizmo c'), kind (gizmo c')) = (gid (gizmo c), kind (gizmo c))
  ∧ camera w' = camera w
  ∧ b = editing c'.
Proof.
  apply (update_keeps_configuration 1 mousePressed (raysTo v_zero) twoMeshes).
  rewrite <- surjective_pairing. apply Some_default. vm_compute. reflexivity.
Defined.

(** The statement of X18 on a frame in which the button is pressed over
    the two meshes and released. *)
Lemma update_on_release_witness :
  ∃ w',
    Controls.update 1 mouseClicked (raysTo v_zero) twoMeshes
    = Some (w', false)
    ∧ editing (controls w') = false
    ∧ dragging (controls w') = false
    ∧ scene w' = scene twoMeshes.
Proof.
  apply update_on_release; [reflexivity|].
  intros _. apply parented_by_computation. computed.
Defined.

(** The frame of the witness, computed: the click is in the history, with
    its six actions that change nothing. *)
Lemma click_within_a_frame :
  (λ res,
     (map (map (λ a, (attribute a, this (newValue a), this (oldValue a))))
        (history (fst res)), snd res))
    <$> Controls.update 1 mouseClicked (raysTo v_zero) twoMeshes
  = Some ([[("x", 1 # 2, 1 # 2); ("y", 0, 0); ("z", 0, 0);
            ("x", -1 # 2, -1 # 2); ("y", 0, 0); ("z", 0, 0)]]%Q, false).
Proof. vm_compute. reflexivity. Qed.

(** The statement of X19 on the two meshes. *)
Lemma idle_frames_are_stable_witness :
  let w := twoMeshes in
  let w' := updatePose w in
  let b := editing (controls w) in
  Controls.update 0 mouseIdle (raysTo v_zero) w = Some (w', b)
  ∧ Controls.update 0 mouseIdle (raysTo v_zero) w' = Some (w', b).
Proof. apply idle_frames_are_stable; computed. Defined.

Lemma session_runs :
  runs session studio = Some (default studio (runs session studio)).
Proof. apply Some_default. vm_compute. reflexivity. Qed.

Lemma hovering_runs :
  runs sessionHovering studio
  = Some (default studio (runs sessionHovering studio)).
Proof. apply Some_default. vm_compute. reflexivity. Qed.

(** The session, computed: the mesh ends at (2, 0, 0), one bundle is in
    the history, the mode is [SCALE] and nothing is selected. *)
Lemma session_ends :
  (λ w, (xyz (position (scene w 1)), length (history w),
         mode (controls w), objects (controls w), visible (controls w)))
    <$> runs session studio
  = Some ((2, 0, 0)%Q, 1, SCALE, [], false).
Proof. vm_compute. reflexivity. Qed.

(** The statement of X20 after the session up to the hover. *)
Lemma shown_only_with_a_selection_witness :
  let w := default studio (runs sessionHovering studio) in
  0 < length (objects (controls w)).
Proof.
  apply (shown_only_with_a_selection sessionHovering (sceneOf [mesh v_zero])
           (viewer 0) _ hovering_runs).
  computed.
Defined.

(** The statement of X21 after the press and the move of the session. *)
Lemma editing_only_while_dragging_witness :
  dragging (controls (default studio (runs (take 3 session) studio))) = true.
Proof.
  apply (editing_only_while_dragging (take 3 session) (sceneOf [mesh v_zero])
           (viewer 0)).
  - apply Some_default. vm_compute. reflexivity.
  - computed.
  - computed.
Defined.

(** The statement of X22 after the session. *)
Lemma every_object_has_a_slot_witness :
  let w := default studio (runs session studio) in
  length (objects (controls w)) ≤ length (attributes (controls w)).
Proof.
  exact (every_object_has_a_slot session (sceneOf [mesh v_zero]) (viewer 0) _
           session_runs).
Defined.

(** The statement of X23 after the session. *)
Lemma lookAtMatrix_stays_identity_witness :
  let w := default studio (runs session studio) in
  lookAtMatrix (controls w) = m_identity.
Proof.
  exact (lookAtMatrix_stays_identity session (sceneOf [mesh v_zero])
           (viewer 0) _ session_runs).
Defined.

(** The statement of X24 after the session. *)
Lemma gizmo_is_the_one_of_the_mode_witness :
  let w := default studio (runs session studio) in
  let c := controls w in
  (kind (gizmo c) = gizmoFor (mode c) ∧ children c = [gid (gizmo c)])
  ∨ (kind (gizmo c) = GizmoBase ∧ mode c = TRANSLATE ∧ children c = []).
Proof.
  exact (gizmo_is_the_one_of_the_mode session (sceneOf [mesh v_zero])
           (viewer 0) _ session_runs).
Defined.

(** The statement of X25 after the session up to the hover. *)
Lemma highlight_is_up_to_date_witness :
  let c := controls (default studio (runs sessionHovering studio)) in
  highlight (axis c) (gizmo c) = gizmo c.
Proof.
  apply (highlight_is_up_to_date sessionHovering (sceneOf [mesh v_zero])
           (viewer 0) _ hovering_runs); computed.
Defined.

(** After the hover of the session the last call of [highlight] was with
    [true] for the handle and the picker named Y, and for no other mesh of
    the gizmo. *)
Lemma session_highlights_Y :
  (λ w, (axis (controls w),
         map nname
           (filter (λ n, highlighted n = Some true)
              (nodes (gizmo (controls w))))))
    <$> runs sessionHovering studio
  = Some (Some "Y", ["Y"; "Y"]).
Proof. vm_compute. reflexivity. Qed.

(** The statement of X6 on one mesh selected, for the mode [ROTATE]. *)
Lemma setMode_switches_witness :
  let w := oneMesh in
  let m := ROTATE in
  let c := controls w in
  let old := gizmo c in
  let w' := setMode m w in
  let c' := controls w' in
  mode c' = m
  ∧ space c' = (if decide (m = SCALE) then LOCAL else space c)
  ∧ kind (gizmo c') = gizmoFor m
  ∧ gid (gizmo c') = nextGizmo w
  ∧ activePlane (gizmo c') = "XYZE"
  ∧ map nname (nodes (gizmo c'))
    = handlesOf (gizmoFor m) ++ pickersOf (gizmoFor m) ++ planeNames
  ∧ gizmoLog w'
    = gizmoLog w
      ++ (if definesDismiss (kind old) then [Dismissed (gid old)] else [])
      ++ [Constructed (gizmoFor m) (nextGizmo w)]
  ∧ children c'
    = List.filter (λ k, negb (k =? gid old)) (children c) ++ [nextGizmo w]
  ∧ visible c' = bool_decide (objects c ≠ [])
  ∧ objects c' = objects c
  ∧ (dragging c', editing c') = (dragging c, editing c)
  ∧ (scene w', history w', camera w') = (scene w, history w, camera w).
Proof. apply (setMode_switches ROTATE oneMesh). computed. Defined.

(** The statement of X7 on the two meshes, the ray on the Y picker. *)
Lemma hover_picks_the_axis_witness :
  let w := twoMeshes in
  let pickers := hitAt "Y" v_zero in
  let c := controls w in
  let w' := onPointerHover pickers w in
  let c' := controls w' in
  axis c' = iname <$> head pickers
  ∧ (axis c = iname <$> head pickers → w' = w)
  ∧ (scene w', history w') = (scene w, history w)
  ∧ (objects c', dragging c', editing c')
    = (objects c, dragging c, editing c).
Proof.
  apply (hover_picks_the_axis (hitAt "Y" v_zero) twoMeshes); computed.
Defined.

(** The statement of X11 on the two meshes dragged along X by 1. *)
Lemma drag_is_recorded_witness :
  let w := twoMeshes in
  let w1 := onPointerDown [mkIntersection "X" v_zero]
              [mkIntersection "XY" v_zero] w in
  ∃ w2,
    onPointerMove 0 [mkIntersection "XY" (vec 1 0 0)] w1 = Some w2
    ∧ history (onPointerUp w2)
      = history w
        ++ [concat
              (map (λ r, vectorActions (PositionOf r) (position (scene w2 r))
                           (position (scene w r)))
                 (objects (controls w)))]
    ∧ scene (onPointerUp w2) = scene w2.
Proof.
  apply (drag_is_recorded 0 (mkIntersection "X" v_zero)
           (mkIntersection "XY" v_zero) (mkIntersection "XY" (vec 1 0 0))
           [] [] [] twoMeshes); [computed|computed|computed|computed|].
  apply parented_by_computation. computed.
Defined.

(** The bundle of the witness, computed: the two meshes have gone from
    x = 1/2 and x = -1/2 to x = 3/2 and x = 1/2. *)
Lemma drag_of_two_meshes_recorded :
  (λ w2,
     map (map (λ a, (attribute a, this (newValue a), this (oldValue a))))
       (history (onPointerUp w2)))
    <$> onPointerMove 0 (hitAt "XY" (vec 1 0 0)) dragTwo
  = Some [[("x", 3 # 2, 1 # 2); ("y", 0, 0); ("z", 0, 0);
           ("x", 1 # 2, -1 # 2); ("y", 0, 0); ("z", 0, 0)]]%Q.
Proof. vm_compute. reflexivity. Qed.

(** The statement of X1 on the root of the scene and a reference to it. *)
Lemma attach_of_nothing_witness : attach [0; 7] twoMeshes = clear twoMeshes.
Proof.
  apply attach_of_nothing.
  constructor; [right; right; computed|].
  constructor; [right; right; computed|]. constructor.
Defined.

(** A bar 40 wide and 400 high takes three of its eight buttons, at 210,
    250 and 290, and the drawer, at 330, the five others; 40 higher it
    takes one more. *)
Lemma bar_of_400 :
  layout (bar 40 400)
  = ([210; 250; 290]%Q, (Some 330%Q, [3; 4; 5; 6; 7]), true)
  ∧ layout (bar 40 440)
    = ([210; 250; 290; 330]%Q, (Some 370%Q, [4; 5; 6; 7]), true).
Proof. split; vm_compute; reflexivity. Qed.

(** A bar 10 wide and 245 high takes two buttons, at 210 and 220; it is
    lower than 250, so that the drawer is hidden and the six other buttons
    are neither on the bar nor in the drawer. *)
Lemma bar_of_245 :
  layout (bar 10 245) = ([210; 220]%Q, (None, []), false).
Proof. vm_compute. reflexivity. Qed.

End MoreExamples.

(** ** A rotation, computed *)

Section RotationExamples.
Import Symbolic.

#[local] Existing Instance Symbolic.number.
#[local] Existing Instance Symbolic.library.
#[local] Existing Instance Symbolic.gizmos.

(** The statement of X14 on two meshes turned about X, on the symbolic
    numbers. *)
Lemma rotate_each_from_own_slot_witness :
  let w := rotateTwo in
  let hit := mkIntersection "YZ" (vec 0 0 1) in
  let c := controls w in
  ∃ w',
    onPointerMove 0 [hit] w = Some w'
    ∧ ∀ j, j < length (objects c) →
        quaternion (scene w' (objectAt c j))
        = rotationOf c "X" (ipoint hit) (attributeAt c j).
Proof.
  apply (rotate_each_from_own_slot 0 (mkIntersection "YZ" (vec 0 0 1)) []
           rotateTwo "X").
  - computed.
  - computed.
  - discriminate.
  - computed.
  - computed.
  - apply NoDup_by_computation. vm_compute. reflexivity.
Defined.

(** The frame of the witness, computed.  The ray has gone from (0, 1, 0)
    to (0, 0, 1).  Seen from the mesh at the origin that is the angle
    atan2(1, 0), a quarter of a turn, and the mesh is turned about x by
    it; seen from the mesh at (0, -2, 0) the ray has gone from (0, 3, 0) to
    (0, 2, 1), and that mesh is turned by atan2(1, 2). *)
Lemma two_meshes_turned :
  let about_x a :=
    quat (Un Sin (Bin Div a (lit 2))) (lit 0) (lit 0)
      (Un Cos (Bin Div a (lit 2))) in
  (λ w', (quaternion (scene w' 1), quaternion (scene w' 2)))
    <$> onPointerMove 0 [mkIntersection "YZ" (vec 0 0 1)] rotateTwo
  = Some (about_x (Bin Atan2 (lit 1) (lit 0)),
          about_x (Bin Atan2 (lit 1) (lit 2))).
Proof. vm_compute. reflexivity. Qed.

End RotationExamples.
